(** * search-service: the retrying executor, the field-override cache, the
      filter translators and the response normaliser

    A shallow embedding of the Go package [search]:

    - [pkg/elastic_helpers.go]: [resolveAggregationField],
      [setAggregationFieldOverride], [executeElasticQuery],
      [executeSearchWithRetry], [updateAggregationOverridesFromError];
    - the filter-listing handler [ListFilters] with [filtersRequest] and
      [safeAggValue];
    - the per-entity translators ([datasetElasticConfig], ...), [populationRanges],
      [flattenAggs] and the fan-out handler [SearchGeneric];
    - the sections of the query documents, [buildAggregations], the searches
      of the entity types ([datasetSearch], ...), [stripExplanation] and
      [copyResponseHits].

    Conventions.  A Go [string] is a byte string, here [string].  A value of
    type [interface{}] that came out of [encoding/json], and a [gin.H] that goes
    into it, is a [json] value; a Go [map[string]T] is a [gmap string T].  Where
    the code ranges over a Go map, the function takes the entries as a list in
    the order the loop visits them, since Go leaves that order open.  The
    process-wide override table is passed explicitly.  A handler is followed
    on its own, no other goroutine writing the table while it runs; the
    goroutines of [SearchGeneric] are followed together, step by step, in
    [Coordinator]. *)

From Stdlib Require Import ZArith QArith Qcanon String Ascii List Lia.
From stdpp Require Import functions gmap strings list fin_maps relations.

#[local] Set Warnings "-register-all".
#[local] Open Scope string_scope.

(** ** Decoded JSON values *)

(** [encoding/json] decodes a number into a [float64]; every finite [float64]
    is a rational, so numbers are canonical rationals.  Integer constants of
    the code ([0], [1000], [-1]) are the corresponding integers. *)
Inductive json : Type :=
  | JNull
  | JBool (b : bool)
  | JNum (q : Qc)
  | JStr (s : string)
  | JArr (l : list json)
  | JObj (m : gmap string json).

Definition JInt (z : Z) : json := JNum (Q2Qc (inject_Z z)).

(** A [gin.H{k1: v1, ...}] literal. *)
Definition H (l : list (string * json)) : json := JObj (list_to_map l).

(** A slice handed to the encoder: a [nil] slice is written as [null], and a
    slice that was appended to is never [nil]. *)
Definition sliceJSON (l : list json) : json :=
  match l with
  | [] => JNull
  | _ => JArr l
  end.

(** ** Panics

    A failed type assertion [x.(T)] and an index out of range stop the
    goroutine; nothing in the package recovers.  [why] names the kind of
    run-time error. *)
Inductive Go (A : Type) : Type :=
  | Ok (a : A)
  | Panic (why : string).
Arguments Ok {A} a.
Arguments Panic {A} why.

Definition bindGo {A B} (m : Go A) (f : A -> Go B) : Go B :=
  match m with
  | Ok a => f a
  | Panic why => Panic why
  end.

Declare Scope go_scope.
Delimit Scope go_scope with go.
Notation "x <- m ;; k" := (bindGo m (fun x => k))
  (at level 100, m at next level, right associativity) : go_scope.

Definition isOk {A} (m : Go A) : bool :=
  match m with
  | Ok _ => true
  | Panic _ => false
  end.

(** ** The [strings] and [regexp] calls the package makes *)

Module GoStrings.

Definition bytes (l : list nat) : string :=
  string_of_list_ascii (List.map ascii_of_nat l).

(** [strings.Contains(s, substr)] *)
Fixpoint Contains (s substr : string) : bool :=
  String.prefix substr s ||
  match s with
  | EmptyString => false
  | String _ s' => Contains s' substr
  end.

(** [strings.HasSuffix(s, suffix)] *)
Definition HasSuffix (s suffix : string) : bool :=
  (String.length suffix <=? String.length s)%nat &&
  String.eqb
    (substring (String.length s - String.length suffix) (String.length suffix) s)
    suffix.

(** [strings.TrimSuffix(s, suffix)] *)
Definition TrimSuffix (s suffix : string) : string :=
  if HasSuffix s suffix
  then substring 0 (String.length s - String.length suffix) s
  else s.

(** The UTF-8 encodings of the code points for which [unicode.IsSpace]
    holds: tab, LF, VT, FF, CR, space, U+0085, U+00A0, U+1680,
    U+2000..U+200A, U+2028, U+2029, U+202F, U+205F, U+3000. *)
Definition whiteSpace : list string :=
  List.map bytes
    [ [9]; [10]; [11]; [12]; [13]; [32];
      [194; 133]; [194; 160]; [225; 154; 128];
      [226; 128; 128]; [226; 128; 129]; [226; 128; 130]; [226; 128; 131];
      [226; 128; 132]; [226; 128; 133]; [226; 128; 134]; [226; 128; 135];
      [226; 128; 136]; [226; 128; 137]; [226; 128; 138];
      [226; 128; 168]; [226; 128; 169]; [226; 128; 175];
      [226; 129; 159]; [227; 128; 128] ]%nat.

Fixpoint trimLeft (fuel : nat) (s : string) : string :=
  match fuel with
  | O => s
  | S fuel' =>
      match List.find (fun e => String.prefix e s) whiteSpace with
      | Some e =>
          trimLeft fuel'
            (substring (String.length e) (String.length s - String.length e) s)
      | None => s
      end
  end.

Fixpoint trimRight (fuel : nat) (s : string) : string :=
  match fuel with
  | O => s
  | S fuel' =>
      match List.find (fun e => HasSuffix s e) whiteSpace with
      | Some e =>
          trimRight fuel' (substring 0 (String.length s - String.length e) s)
      | None => s
      end
  end.

(** [strings.TrimSpace(s)]: leading, then trailing white space is removed,
    one code point at a time; the length of [s] bounds the number of
    rounds. *)
Definition TrimSpace (s : string) : string :=
  let l := trimLeft (String.length s) s in
  trimRight (String.length l) l.

(** [fielddataRegex.FindAllStringSubmatch(s, -1)], keeping of every match the
    group [field], for the expression [\[(?P<field>[^\[\]]+)\]].

    The scan reads [s] once.  [open] is [Some w] after a left bracket that
    may still start a match, with [w] the bracket-free text read since.  A
    further left bracket abandons that start and opens a new one; a right
    bracket closes a match when [w] is not empty.  Matches are the leftmost
    ones and do not overlap, as the library returns them. *)
Fixpoint scanFields (open : option string) (s : string) : list string :=
  match s with
  | EmptyString => []
  | String c s' =>
      if Ascii.eqb c "["%char then scanFields (Some EmptyString) s'
      else if Ascii.eqb c "]"%char then
        match open with
        | Some (String a w) => String a w :: scanFields None s'
        | _ => scanFields None s'
        end
      else
        scanFields
          (match open with
           | Some w => Some (w ++ String c EmptyString)
           | None => None
           end) s'
  end.

Definition FindAllFields (s : string) : list string := scanFields None s.

End GoStrings.
Import GoStrings.

(** ** The data model *)

(** [Hit], [HitsField], [SearchResponse]: what Elastic answers.  [Hits] is
    [None] for the [nil] slice. *)
Record Hit : Type := {
  Explanation : gmap string json;
  Id : string;
  Score : Qc;
  Source : gmap string json;
  Highlight : gmap string (list string)
}.

Record HitsField : Type := {
  Total : gmap string json;
  MaxScore : Qc;
  Hits : option (list Hit)
}.

Record SearchResponse : Type := {
  Took : Z;
  TimedOut : bool;
  Shards : gmap string json;
  HitsOf : HitsField;
  Aggregations : gmap string json
}.

(** The zero value of [SearchResponse]. *)
Definition zeroResponse : SearchResponse :=
  {| Took := 0; TimedOut := false; Shards := ∅;
     HitsOf := {| Total := ∅; MaxScore := Q2Qc 0; Hits := None |};
     Aggregations := ∅ |}.

(** [RootCause] and [SearchErrorResponse]: the error envelope. *)
Record RootCause : Type := {
  Type_ : string;
  Reason : string;
  Index : string
}.

Record SearchErrorResponse : Type := {
  Error : gmap string (list RootCause);
  Status : Z
}.

(** A response body.  [encoding/json] is not embedded: a body is its bytes
    together with what [json.Unmarshal] makes of them for the two target
    types the package uses.  [asError] is [None] when [Unmarshal] into a
    [SearchErrorResponse] returns an error; [asResponse] is the
    [SearchResponse] left behind by [Unmarshal], whose error the callers
    drop. *)
Record Body : Type := {
  raw : string;
  asResponse : SearchResponse;
  asError : option SearchErrorResponse
}.

Definition nilBody : Body :=
  {| raw := ""; asResponse := zeroResponse; asError := None |}.

Definition len (b : Body) : nat := String.length (raw b).

(** ** FieldOverrideCache: [aggregationFieldOverrides] *)

Module Overrides.

(** [resolveAggregationField] *)
Definition resolveAggregationField (overrides : gmap string string) (key : string)
  : string :=
  match overrides !! key with
  | Some override => override
  | None => key
  end.

(** [setAggregationFieldOverride] *)
Definition setAggregationFieldOverride (key override : string)
    (overrides : gmap string string) : gmap string string :=
  match overrides !! key with
  | Some existing =>
      if String.eqb existing override then overrides
      else <[key := override]> overrides
  | None => <[key := override]> overrides
  end.

(** The signature test on one root cause. *)
Definition knownSignature (reason : string) : bool :=
  Contains reason "Text fields are not optimised" ||
  Contains reason "Fielddata is disabled".

(** The body of the loop over [matches], on the group [match[1]]. *)
Definition registerMatch (st : bool * gmap string string) (m : string)
  : bool * gmap string string :=
  let '(updated, overrides) := st in
  let field := TrimSpace m in
  if String.eqb field "" || Contains field " " then (updated, overrides)
  else
    let field := TrimSuffix field ".keyword" in
    let override := field ++ ".keyword" in
    match overrides !! field with
    | Some _ => (true, overrides)
    | None => (true, setAggregationFieldOverride field override overrides)
    end.

(** The body of the loop over [rootCauses]. *)
Definition registerCause (st : bool * gmap string string) (cause : RootCause)
  : bool * gmap string string :=
  if negb (knownSignature (Reason cause)) then st
  else fold_left registerMatch (FindAllFields (Reason cause)) st.

(** [updateAggregationOverridesFromError]: the flag it returns and the
    table it leaves. *)
Definition updateAggregationOverridesFromError (body : Body)
    (overrides : gmap string string) : bool * gmap string string :=
  if (len body =? 0)%nat then (false, overrides)
  else
    match asError body with
    | None => (false, overrides)
    | Some elasticError =>
        match Error elasticError !! "root_cause" with
        | None => (false, overrides)
        | Some [] => (false, overrides)
        | Some rootCauses => fold_left registerCause rootCauses (false, overrides)
        end
    end.

End Overrides.
Import Overrides.

(** ** The backend and the state of one handler *)

(** What [ElasticClient.Search] and the read of the response body give:
    an error, a [nil] response, or a response with its status code, the body
    that [io.ReadAll] returned and whether [io.ReadAll] also returned an
    error. *)
Inductive SearchOutcome : Type :=
  | TransportError
  | NilResponse
  | HttpResponse (StatusCode : Z) (body : Body) (readFailed : bool).

(** The state a handler threads through: the override table and the
    requests sent so far, oldest first, each with its index name. *)
Record World : Type := {
  overrides : gmap string string;
  sent : list (string * json)
}.

Definition withOverrides (o : gmap string string) (w : World) : World :=
  {| overrides := o; sent := sent w |}.

(** The backend is any function of the number of requests made before, the
    index and the query document. *)
Definition Backend : Type := nat -> string -> json -> SearchOutcome.

Definition Search (backend : Backend) (index : string) (query : json) (w : World)
  : SearchOutcome * World :=
  (backend (length (sent w)) index query,
   {| overrides := overrides w; sent := (sent w ++ [(index, query)])%list |}).

(** The number of requests a run made. *)
Definition attempts (before after : World) : nat :=
  length (sent after) - length (sent before).

Module Executor.

(** [executeElasticQuery], after the request was sent.  The query
    documents of the package are built from strings, numbers, booleans,
    slices and maps, which the encoder accepts, so the first exit of the
    function is not taken. *)
Definition executeElasticQuery (backend : Backend) (index : string)
    (elasticQuery : json) (w : World) : (SearchResponse * Body) * World :=
  let '(outcome, w') := Search backend index elasticQuery w in
  match outcome with
  | TransportError => ((zeroResponse, nilBody), w')
  | NilResponse => ((zeroResponse, nilBody), w')
  | HttpResponse _ body true => ((zeroResponse, body), w')
  | HttpResponse _ body false => ((asResponse body, body), w')
  end.

Definition hitsPresent (resp : SearchResponse) : bool :=
  match Hits (HitsOf resp) with
  | Some _ => true
  | None => false
  end.

(** The loop of [executeSearchWithRetry] with [n] rounds left.  [buildQuery]
    reads the override table and can panic; the state is returned in
    either case, so that the requests made before a panic are counted. *)
Fixpoint retryLoop (n : nat) (backend : Backend) (index : string)
    (buildQuery : gmap string string -> Go json)
    (last : SearchResponse * Body) (w : World)
  : Go (SearchResponse * Body) * World :=
  match n with
  | O => (Ok last, w)
  | S n' =>
      match buildQuery (overrides w) with
      | Panic why => (Panic why, w)
      | Ok elasticQuery =>
          let '((resp, body), w1) :=
            executeElasticQuery backend index elasticQuery w in
          if hitsPresent resp || (len body =? 0)%nat then (Ok (resp, body), w1)
          else
            let '(updated, o) :=
              updateAggregationOverridesFromError body (overrides w1) in
            let w2 := withOverrides o w1 in
            if negb updated then (Ok (resp, body), w2)
            else retryLoop n' backend index buildQuery (resp, body) w2
      end
  end.

(** [executeSearchWithRetry] *)
Definition executeSearchWithRetry (backend : Backend) (index : string)
    (buildQuery : gmap string string -> Go json) (w : World)
  : Go (SearchResponse * Body) * World :=
  retryLoop 2 backend index buildQuery (zeroResponse, nilBody) w.

End Executor.
Import Executor.

(** ** [populationRanges]

    The bounds are the [float64] values [-1.0], [1.0] and
    [math.Pow(10, float64(i))] for [i] up to 9; each is an integer below
    [2^53], which [float64] and [math.Pow] give exactly. *)

Definition pow10 (i : nat) : json := JInt (10 ^ Z.of_nat i).

(** The loop [for i := 0; i < 9; i++], at counter [i] with [n] rounds left. *)
Fixpoint populationLoop (n i : nat) (ranges : list json) : list json :=
  match n with
  | O => ranges
  | S n' =>
      populationLoop n' (S i)
        (ranges ++ [H [("from", pow10 i); ("to", pow10 (S i))]])%list
  end.

Definition populationRanges : list json :=
  populationLoop 9 0
    ([] ++ [H [("from", JInt (-1)); ("to", JInt 1); ("key", JStr "Unreported")]])%list.

(** ** FilterListingService: [ListFilters] *)

Section Listing.

Variable backend : Backend.
(** [fmt.Sprintf("%v", value)] *)
Variable fmtV : json -> string.

(** [v, ok := m[k].(string)]: the zero value when the assertion fails. *)
Definition stringField (m : gmap string json) (k : string) : string :=
  match m !! k with
  | Some (JStr s) => s
  | _ => ""
  end.

(** The index of a filter type.  [strings.ToLower] is only applied to the
    two names spelled out here. *)
Definition indexOf (filterType : string) : string :=
  if String.eqb filterType "dataUseRegister" then "datauseregister"
  else if String.eqb filterType "dataProvider" then "dataprovider"
  else if String.eqb filterType "paper" then "publication"
  else filterType.

(** [filtersRequest] *)
Definition filtersRequest (o : gmap string string) (filter : gmap string json)
  : json :=
  let filterKey := stringField filter "keys" in
  if String.eqb filterKey "dateRange" then
    H [("size", JInt 0);
       ("aggs", H [("startDate", H [("min", H [("field", JStr "startDate")])]);
                   ("endDate", H [("max", H [("field", JStr "endDate")])])])]
  else if String.eqb filterKey "publicationDate" then
    H [("size", JInt 0);
       ("aggs", H [("startDate", H [("min", H [("field", JStr "publicationDate")])]);
                   ("endDate", H [("max", H [("field", JStr "publicationDate")])])])]
  else if String.eqb filterKey "populationSize" then
    H [("size", JInt 0);
       ("aggs", H [("populationSize",
                    H [("range", H [("field", JStr filterKey);
                                    ("ranges", sliceJSON populationRanges)])])])]
  else
    H [("size", JInt 0);
       ("aggs", H [(filterKey,
                    H [("terms", H [("field", JStr (resolveAggregationField o filterKey));
                                    ("size", JInt 1000)])])])].

(** [safeAggValue] *)
Definition safeAggValue (aggs : gmap string json) (key : string) : option string :=
  match aggs !! key with
  | Some (JObj aggMap) =>
      match aggMap !! "value_as_string" with
      | Some (JStr (String a v)) => Some (String a v)
      | _ =>
          match aggMap !! "value" with
          | None | Some JNull => None
          | Some value => Some (fmtV value)
          end
      end
  | _ => None
  end.

(** The payload of a date-like key. *)
Definition dateBuckets (filterType filterKey startDate endDate : string) : json :=
  H [(filterType,
      H [(filterKey,
          H [("buckets",
              JArr [H [("key", JStr "startDate"); ("value", JStr startDate)];
                    H [("key", JStr "endDate"); ("value", JStr endDate)]])])])].

(** [attempt == 0 && updateAggregationOverridesFromError(body)]: the second
    operand runs, and writes the table, only on the first attempt. *)
Definition retryAfterUpdate (attempt : nat) (body : Body) (w : World)
  : bool * World :=
  if (attempt =? 0)%nat then
    let '(updated, o) := updateAggregationOverridesFromError body (overrides w) in
    (updated, withOverrides o w)
  else (false, w).

(** The end of a round whose response carries aggregations: [filterData]
    when [success] is set, nothing when the round breaks before. *)
Definition filterData (filterType filterKey : string) (aggs : gmap string json)
  : option json :=
  if String.eqb filterKey "dateRange" || String.eqb filterKey "publicationDate" then
    match safeAggValue aggs "startDate" with
    | None => None
    | Some startDate =>
        match safeAggValue aggs "endDate" with
        | None => None
        | Some endDate => Some (dateBuckets filterType filterKey startDate endDate)
        end
    end
  else Some (H [(filterType, JObj aggs)]).

(** The loop [for attempt := 0; attempt < 2; attempt++] of one filter, at
    counter [attempt] with [n] rounds left.  The result is [filterData] when
    [success] was set. *)
Fixpoint attemptLoop (n attempt : nat) (filter : gmap string json) (w : World)
  : option json * World :=
  match n with
  | O => (None, w)
  | S n' =>
      let filterType := stringField filter "type" in
      let filterKey := stringField filter "keys" in
      let elasticQuery := filtersRequest (overrides w) filter in
      let '(outcome, w1) := Search backend (indexOf filterType) elasticQuery w in
      match outcome with
      | TransportError => (None, w1)
      | NilResponse => (None, w1)
      | HttpResponse StatusCode body readFailed =>
          if (400 <=? StatusCode)%Z then
            let '(again, w2) := retryAfterUpdate attempt body w1 in
            if again then attemptLoop n' (S attempt) filter w2 else (None, w2)
          else if readFailed then (None, w1)
          else
            let elasticResp := asResponse body in
            if (size (Aggregations elasticResp) =? 0)%nat then
              let '(again, w2) := retryAfterUpdate attempt body w1 in
              if again then attemptLoop n' (S attempt) filter w2 else (None, w2)
            else (filterData filterType filterKey (Aggregations elasticResp), w1)
      end
  end.

(** One round of the loop over [filterRequest.Filters]. *)
Definition listOne (st : list json * World) (filter : gmap string json)
  : list json * World :=
  let '(allFilters, w) := st in
  match attemptLoop 2 0 filter w with
  | (Some filterData, w') => ((allFilters ++ [filterData])%list, w')
  | (None, w') => (allFilters, w')
  end.

(** [ListFilters], on the bound request: the status and the document passed
    to [c.JSON], and the state left. *)
Definition ListFilters (filters : list (gmap string json)) (w : World)
  : (Z * json) * World :=
  let '(allFilters, w') := fold_left listOne filters ([], w) in
  ((200%Z, H [("filters", sliceJSON allFilters)]), w').

End Listing.

(** ** QueryTranslator: the filter clauses *)

(** [Query].  A bucket of [Filters] is the list of its entries in the order
    the [range] loop of a translator visits them; its keys are distinct. *)
Record Query : Type := {
  QueryString : string;
  Filters : gmap string (list (string * json));
  QueryAggregations : list (gmap string json);
  IDs : list string
}.

(** [query.Filters[name]]: an absent bucket is the [nil] map. *)
Definition bucket (query : Query) (name : string) : list (string * json) :=
  default [] (Filters query !! name).

(** The seven entity types that are searched. *)
Inductive Entity : Type :=
  | Dataset
  | Tool
  | Collection
  | DataUseRegister
  | Publication
  | DataProvider
  | DataCustodianNetwork.

#[export] Instance Entity_eq_dec : EqDecision Entity.
Proof. solve_decision. Defined.

Definition entities : list Entity :=
  [Dataset; Tool; Collection; DataUseRegister; Publication; DataProvider;
   DataCustodianNetwork].

(** The index a search goes to; also the name its translator passes to
    [buildAggregations]. *)
Definition indexName (e : Entity) : string :=
  match e with
  | Dataset => "dataset"
  | Tool => "tool"
  | Collection => "collection"
  | DataUseRegister => "datauseregister"
  | Publication => "publication"
  | DataProvider => "dataprovider"
  | DataCustodianNetwork => "datacustodiannetwork"
  end.

(** The bucket of [query.Filters] a translator reads. *)
Definition bucketName (e : Entity) : string :=
  match e with
  | Dataset => "dataset"
  | Tool => "tool"
  | Collection => "collection"
  | DataUseRegister => "dataUseRegister"
  | Publication => "paper"
  | DataProvider => "dataProvider"
  | DataCustodianNetwork => "datacustodiannetwork"
  end.

Module Translator.

(** [terms.([]interface{})] *)
Definition asSlice (terms : json) : Go (list json) :=
  match terms with
  | JArr l => Ok l
  | _ => Panic "interface conversion"
  end.

(** [terms.(map[string]interface{})] *)
Definition asMap (terms : json) : Go (gmap string json) :=
  match terms with
  | JObj m => Ok m
  | _ => Panic "interface conversion"
  end.

(** [v.(bool)] on the result of a map read *)
Definition asBool (v : option json) : Go bool :=
  match v with
  | Some (JBool b) => Ok b
  | _ => Panic "interface conversion"
  end.

(** [l[i]] *)
Definition at_ (l : list json) (i : nat) : Go json :=
  match l !! i with
  | Some v => Ok v
  | None => Panic "index out of range"
  end.

(** [m[k]] as an [interface{}]: [nil] when [k] is absent. *)
Definition get (m : gmap string json) (k : string) : json :=
  default JNull (m !! k).

(** The inner loop [for _, t := range terms.([]interface{})], and the
    clause appended after it. *)
Definition termsClause (key : string) (terms : json) : Go json :=
  (ts <- asSlice terms ;;
   let filters := fold_left
     (fun filters t => (filters ++ [H [("term", H [(key, t)])]])%list) ts [] in
   Ok (H [("bool", H [("should", JArr filters)])]))%go.

(** The [dateRange] branch of [datasetElasticConfig]; element 1 is read
    before element 0. *)
Definition dateRangeClause (terms : json) : Go json :=
  (l1 <- asSlice terms ;;
   hi <- at_ l1 1 ;;
   l0 <- asSlice terms ;;
   lo <- at_ l0 0 ;;
   Ok (H [("bool",
           H [("must",
               JArr [H [("range", H [("startDate", H [("lte", hi)])])];
                     H [("range", H [("endDate", H [("gte", lo)])])]])])]))%go.

(** The [populationSize] branch of [datasetElasticConfig]. *)
Definition populationSizeClause (key : string) (terms : json) : Go json :=
  (m <- asMap terms ;;
   includeNull <- asBool (m !! "includeUnreported") ;;
   m1 <- asMap terms ;;
   let from := get m1 "from" in
   m2 <- asMap terms ;;
   let to := get m2 "to" in
   let range := H [("range", H [(key, H [("gte", from); ("lte", to)])])] in
   if includeNull : bool then
     Ok (H [("bool",
             H [("should",
                 JArr [range; H [("term", H [("populationSize", JInt (-1))])]])])])
   else
     Ok (H [("bool", H [("must", JArr [range])])]))%go.

(** The [publicationDate] branch of [publicationElasticConfig]; element 0
    is read before element 1. *)
Definition publicationDateClause (terms : json) : Go json :=
  (l0 <- asSlice terms ;;
   lo <- at_ l0 0 ;;
   l1 <- asSlice terms ;;
   hi <- at_ l1 1 ;;
   Ok (H [("bool",
           H [("must",
               JArr [H [("range", H [("publicationDate", H [("gte", lo)])])];
                     H [("range", H [("publicationDate", H [("lte", hi)])])]])])]))%go.

(** The clause one round of the loop appends, per translator: the
    dataset translator tells [dateRange] and [populationSize] apart, the
    publication translator [publicationDate]; the loops of the other five
    have the terms branch only. *)
Definition datasetClause (key : string) (terms : json) : Go json :=
  if String.eqb key "dateRange" then dateRangeClause terms
  else if String.eqb key "populationSize" then populationSizeClause key terms
  else termsClause key terms.

Definition publicationClause (key : string) (terms : json) : Go json :=
  if String.eqb key "publicationDate" then publicationDateClause terms
  else termsClause key terms.

Definition clause (e : Entity) : string -> json -> Go json :=
  match e with
  | Dataset => datasetClause
  | Publication => publicationClause
  | _ => termsClause
  end.

(** The loop [for key, terms := range query.Filters[...]] over the entries
    still to visit, with [mustFilters] as built so far. *)
Fixpoint filterLoop (clause : string -> json -> Go json)
    (entries : list (string * json)) (mustFilters : list json) : Go (list json) :=
  match entries with
  | [] => Ok mustFilters
  | (key, terms) :: rest =>
      (c <- clause key terms ;;
       filterLoop clause rest (mustFilters ++ [c])%list)%go
  end.

(** [f1] *)
Definition postFilter (mustFilters : list json) : json :=
  H [("bool", H [("must", JArr mustFilters)])].

Section Documents.

(** The sections of a query document that the filter loop does not
    feed: for an entity type and a query, the entries [size], [query],
    [highlight], [explain] and, when ids are given, [sort].  They are
    literals over the query string and the ids. *)
Variable staticPart : string -> Query -> gmap string json.

(** [buildAggregations], which reads the override table and compares
    each filter clause as [json.Marshal] writes it against the key. *)
Variable buildAggregations :
  gmap string string -> Query -> list json -> string -> json.

(** The common shape of the seven translators: the filter loop over
    the bucket of the entity type, then the document. *)
Definition elasticConfig (e : Entity) (o : gmap string string) (query : Query)
  : Go json :=
  (mustFilters <- filterLoop (clause e) (bucket query (bucketName e)) [] ;;
   let f1 := postFilter mustFilters in
   let agg1 := buildAggregations o query mustFilters (indexName e) in
   Ok (JObj (<["post_filter" := f1]>
               (<["aggs" := agg1]> (staticPart (indexName e) query)))))%go.

Definition datasetElasticConfig := elasticConfig Dataset.
Definition toolsElasticConfig := elasticConfig Tool.
Definition collectionsElasticConfig := elasticConfig Collection.
Definition dataUseElasticConfig := elasticConfig DataUseRegister.
Definition publicationElasticConfig := elasticConfig Publication.
Definition dataProviderElasticConfig := elasticConfig DataProvider.
Definition dataCustodianNetworkElasticConfig := elasticConfig DataCustodianNetwork.

End Documents.

End Translator.

(** ** ResponseNormalizer: [flattenAggs] *)

(** The order in which a [range] loop may visit the map [m]. *)
Definition rangeOrder {A} (m : gmap string A) (entries : list (string * A)) : Prop :=
  entries ≡ₚ map_to_list m.

(** One round of the loop over [elasticResp.Aggregations]. *)
Definition flattenStep (newAggs : gmap string json) (entry : string * json)
  : gmap string json :=
  let '(k, agg) := entry in
  match agg with
  | JObj aggMap =>
      if String.eqb k "dateRange" || String.eqb k "publicationDate" then
        let newAggs1 :=
          match aggMap !! "startDate" with
          | Some start => <["startDate" := start]> newAggs
          | None => newAggs
          end in
        match aggMap !! "endDate" with
        | Some end_ => <["endDate" := end_]> newAggs1
        | None => newAggs1
        end
      else
        match aggMap !! k with
        | Some nested => <[k := nested]> newAggs
        | None => <[k := JObj aggMap]> newAggs
        end
  | _ => newAggs
  end.

(** [flattenAggs], on the aggregations of the response in the order the
    loop visits them. *)
Definition flattenAggs (entries : list (string * json)) : gmap string json :=
  fold_left flattenStep entries ∅.

(** The two keys whose [startDate] and [endDate] are hoisted. *)
Definition rangeKey (k : string) : bool :=
  String.eqb k "dateRange" || String.eqb k "publicationDate".

(** A flat aggregation map: every value is an object that has no member
    under the name of its own key. *)
Definition flatEntry (entry : string * json) : bool :=
  match snd entry with
  | JObj o =>
      match o !! fst entry with
      | None => true
      | Some _ => false
      end
  | _ => false
  end.

Definition flat (m : gmap string json) : bool :=
  forallb flatEntry (map_to_list m).

(** ** FanOutCoordinator: the keys of [results] *)

Module FanOut.

(** The key of [results] that the [select] case of the channel of an
    entity type writes. *)
Definition resultKey (e : Entity) : string :=
  match e with
  | Dataset => "dataset"
  | Tool => "tool"
  | Collection => "collection"
  | DataUseRegister => "dataUseRegister"
  | Publication => "publication"
  | DataProvider => "dataProvider"
  | DataCustodianNetwork => "datacustodiannetwork"
  end.

Definition resultKeys : gset string :=
  list_to_set (resultKey <$> entities).

End FanOut.

(** ** Notions used to state the properties *)

Definition nonEmpty {A} (l : list A) : bool :=
  match l with
  | [] => false
  | _ => true
  end.

(** The root causes [updateAggregationOverridesFromError] looks at. *)
Definition rootCausesOf (body : Body) : list RootCause :=
  if (len body =? 0)%nat then []
  else
    match asError body with
    | Some elasticError => default [] (Error elasticError !! "root_cause")
    | None => []
    end.

(** The field a bracketed text stands for, when it is usable: trimmed, not
    empty, without a space, and with one [.keyword] suffix removed. *)
Definition usableField (m : string) : option string :=
  let field := TrimSpace m in
  if String.eqb field "" || Contains field " " then None
  else Some (TrimSuffix field ".keyword").

Definition fieldsOfCause (cause : RootCause) : list string :=
  if knownSignature (Reason cause)
  then omap usableField (FindAllFields (Reason cause))
  else [].

(** The fields an error body names, in the order they are met. *)
Definition fieldsOfBody (body : Body) : list string :=
  rootCausesOf body ≫= fieldsOfCause.

(** Registering one field: a field that has an entry keeps it. *)
Definition register (o : gmap string string) (field : string) : gmap string string :=
  match o !! field with
  | Some _ => o
  | None => <[field := field ++ ".keyword"]> o
  end.

(** The signature of the recoverable error: a root cause whose reason
    contains one of the two phrases and a non-empty text in brackets. *)
Definition matchesSignature (body : Body) : Prop :=
  exists cause, cause ∈ rootCausesOf body /\
    (Contains (Reason cause) "Text fields are not optimised" = true \/
     Contains (Reason cause) "Fielddata is disabled" = true) /\
    exists field, field <> "" /\ Contains (Reason cause) ("[" ++ field ++ "]") = true.

(** The invariant of the override table that the code maintains. *)
Definition wellKeyed (o : gmap string string) : Prop :=
  forall key override, o !! key = Some override ->
    Contains key " " = false /\ override = key ++ ".keyword".

(** A response after which the loop of [ListFilters] asks for a retry: an
    error status, or a body that was read and holds no aggregation. *)
Definition asksRetry (StatusCode : Z) (body : Body) (readFailed : bool) : bool :=
  (400 <=? StatusCode)%Z ||
  (negb readFailed && (size (Aggregations (asResponse body)) =? 0)%nat).

(** A request that failed or returned no aggregation at all. *)
Definition failed (outcome : SearchOutcome) : bool :=
  match outcome with
  | TransportError | NilResponse => true
  | HttpResponse StatusCode body readFailed =>
      (400 <=? StatusCode)%Z || readFailed ||
      (size (Aggregations (asResponse body)) =? 0)%nat
  end.

(** What the backend answered to the last request of a state. *)
Definition lastOutcome (backend : Backend) (w : World) : option SearchOutcome :=
  match last (sent w) with
  | Some (index, query) => Some (backend (length (sent w) - 1)%nat index query)
  | None => None
  end.

(** The result of every pair of a filter-listing request, in input order,
    each pair starting in the state the pairs before it left. *)
Fixpoint pairResults (backend : Backend) (fmtV : json -> string)
    (filters : list (gmap string json)) (w : World) : list (option json) :=
  match filters with
  | [] => []
  | filter :: rest =>
      let '(r, w') := attemptLoop backend fmtV 2 0 filter w in
      r :: pairResults backend fmtV rest w'
  end.

(** The clauses as the specification words them, with the range keys tied
    to the translator that knows them. *)
Definition termOf (key : string) (t : json) : json := H [("term", H [(key, t)])].

Definition rangeOf (field : string) (bounds : list (string * json)) : json :=
  H [("range", H [(field, H bounds)])].

Definition anyOf (clauses : list json) : json := H [("bool", H [("should", JArr clauses)])].

Definition allOf (clauses : list json) : json := H [("bool", H [("must", JArr clauses)])].

Inductive emits : Entity -> string -> json -> json -> Prop :=
  | emits_dateRange (lo hi : json) (more : list json) :
      emits Dataset "dateRange" (JArr (lo :: hi :: more))
        (allOf [rangeOf "startDate" [("lte", hi)]; rangeOf "endDate" [("gte", lo)]])
  | emits_publicationDate (lo hi : json) (more : list json) :
      emits Publication "publicationDate" (JArr (lo :: hi :: more))
        (allOf [rangeOf "publicationDate" [("gte", lo)];
                rangeOf "publicationDate" [("lte", hi)]])
  | emits_populationSize (m : gmap string json) :
      m !! "includeUnreported" = Some (JBool false) ->
      emits Dataset "populationSize" (JObj m)
        (allOf [rangeOf "populationSize"
                  [("gte", default JNull (m !! "from")); ("lte", default JNull (m !! "to"))]])
  | emits_populationSize_unreported (m : gmap string json) :
      m !! "includeUnreported" = Some (JBool true) ->
      emits Dataset "populationSize" (JObj m)
        (anyOf [rangeOf "populationSize"
                  [("gte", default JNull (m !! "from")); ("lte", default JNull (m !! "to"))];
                termOf "populationSize" (JInt (-1))])
  | emits_terms (e : Entity) (key : string) (values : list json) :
      (e = Dataset -> key <> "dateRange" /\ key <> "populationSize") ->
      (e = Publication -> key <> "publicationDate") ->
      emits e key (JArr values) (anyOf (termOf key <$> values)).

(** The shape a filter value must have for its key, per translator: a list
    for a terms key, a list of two or more for a date key, an object with a
    boolean [includeUnreported] for [populationSize]. *)
Definition isList (value : json) : bool :=
  match value with
  | JArr _ => true
  | _ => false
  end.

Definition isPair (value : json) : bool :=
  match value with
  | JArr (_ :: _ :: _) => true
  | _ => false
  end.

Definition isPopulationRange (value : json) : bool :=
  match value with
  | JObj m =>
      match m !! "includeUnreported" with
      | Some (JBool _) => true
      | _ => false
      end
  | _ => false
  end.

Definition wellShaped (e : Entity) (entry : string * json) : bool :=
  let '(key, value) := entry in
  match e with
  | Dataset =>
      if String.eqb key "dateRange" then isPair value
      else if String.eqb key "populationSize" then isPopulationRange value
      else isList value
  | Publication =>
      if String.eqb key "publicationDate" then isPair value else isList value
  | _ => isList value
  end.

(** ** Two statements of the specification, as worded there *)

(** Every stored key is normalised. *)
Definition keysNormalised (o : gmap string string) : Prop :=
  forall key override, o !! key = Some override ->
    key <> "" /\ Contains key " " = false /\ HasSuffix key ".keyword" = false /\
    override = key ++ ".keyword".

(** Two requests are sent only when the override table gained a key. *)
Definition retriesOnlyOnNewOverride : Prop :=
  forall (backend : Backend) (index : string)
         (buildQuery : gmap string string -> Go json) (w : World),
    let w' := snd (executeSearchWithRetry backend index buildQuery w) in
    attempts w w' = 2%nat ->
    exists key, overrides w !! key = None /\ is_Some (overrides w' !! key).

(** ** Inputs used in examples *)

Definition quoted (s : string) : string :=
  String (ascii_of_nat 34) s ++ String (ascii_of_nat 34) "".

(** An error envelope with one root cause, as bytes and as decoded. *)
Definition errorBody (reason : string) : Body :=
  {| raw := "{" ++ quoted "error" ++ ":{" ++ quoted "root_cause" ++ ":[{"
            ++ quoted "type" ++ ":" ++ quoted "illegal_argument_exception" ++ ","
            ++ quoted "reason" ++ ":" ++ quoted reason ++ "}]}," ++ quoted "status"
            ++ ":400}";
     asResponse := zeroResponse;
     asError :=
       Some {| Error := {[ "root_cause" :=
                 [ {| Type_ := "illegal_argument_exception"; Reason := reason;
                      Index := "" |} ] ]};
               Status := 400 |} |}.

Definition fielddataReason (field : string) : string :=
  "Text fields are not optimised for operations that require per-document field data like aggregations and sorting, so these operations are disabled by default. Please use a keyword field instead. Alternatively, set fielddata=true on ["
  ++ field ++ "] in order to load field data by uninverting the inverted index.".

(** A backend that answers every request with that error. *)
Definition fielddataBackend (field : string) : Backend :=
  fun _ _ _ => HttpResponse 400 (errorBody (fielddataReason field)) false.

Definition knownOverride : World :=
  {| overrides := {[ "publisherName" := "publisherName.keyword" ]}; sent := [] |}.

Definition termsQuery (o : gmap string string) : Go json :=
  Ok (H [("field", JStr (resolveAggregationField o "publisherName"))]).

(** A tools query whose [license] filter is a string, in the two orders the
    loop can meet its filters. *)
Definition malformedToolQuery : Query :=
  {| QueryString := "asthma";
     Filters := {[ "tool" := [("programmingLanguage", JArr [JStr "R"]);
                              ("license", JStr "MIT")] ]};
     QueryAggregations := [];
     IDs := [] |}.

Definition malformedToolQueryReversed : Query :=
  {| QueryString := "asthma";
     Filters := {[ "tool" := [("license", JStr "MIT");
                              ("programmingLanguage", JArr [JStr "R"])] ]};
     QueryAggregations := [];
     IDs := [] |}.

(** A dataset query with a population range that includes the unreported. *)
Definition populationQuery : Query :=
  {| QueryString := "";
     Filters := {[ "dataset" :=
       [("populationSize",
         H [("from", JInt 100); ("to", JInt 1000); ("includeUnreported", JBool true)]);
        ("publisherName", JArr [JStr "A"; JStr "B"])] ]};
     QueryAggregations := [];
     IDs := [] |}.

(** The aggregations Elastic returns for a terms aggregation on a field
    called [buckets], and on [publisherName]. *)
Definition bucketsAggregation : list (string * json) :=
  [("buckets",
    H [("doc_count", JInt 2);
       ("buckets",
        H [("doc_count_error_upper_bound", JInt 0);
           ("sum_other_doc_count", JInt 0);
           ("buckets", JArr [H [("key", JStr "a"); ("doc_count", JInt 2)]])])])].

Definition publisherAggregation : list (string * json) :=
  [("publisherName",
    H [("doc_count", JInt 2);
       ("publisherName",
        H [("doc_count_error_upper_bound", JInt 0);
           ("sum_other_doc_count", JInt 0);
           ("buckets", JArr [H [("key", JStr "a"); ("doc_count", JInt 2)]])])])].

(** A listing in which the second of three requests meets a transport
    error. *)
Definition publisherBuckets : gmap string json :=
  {[ "publisherName" :=
       H [("buckets", JArr [H [("key", JStr "a"); ("doc_count", JInt 2)]])] ]}.

Definition bucketsBody : Body :=
  {| raw := "{" ++ quoted "aggregations" ++ ":{" ++ quoted "publisherName" ++ ":{"
            ++ quoted "buckets" ++ ":[{" ++ quoted "key" ++ ":" ++ quoted "a" ++ ","
            ++ quoted "doc_count" ++ ":2}]}}}";
     asResponse :=
       {| Took := 0; TimedOut := false; Shards := ∅;
          HitsOf := {| Total := ∅; MaxScore := Q2Qc 0; Hits := None |};
          Aggregations := publisherBuckets |};
     asError := Some {| Error := ∅; Status := 0 |} |}.

Definition secondFails : Backend :=
  fun n _ _ =>
    match n with
    | 1%nat => TransportError
    | _ => HttpResponse 200 bucketsBody false
    end.

Definition publisherOf (filterType : string) : gmap string json :=
  {[ "type" := JStr filterType; "keys" := JStr "publisherName" ]}.

(** * The rest of the search path *)

(** ** More of [strings] *)

Module GoStrings2.

Definition isASCII (s : string) : bool :=
  forallb (fun c => (nat_of_ascii c <? 128)%nat) (list_ascii_of_string s).

Definition lowerByte (c : ascii) : ascii :=
  let n := nat_of_ascii c in
  if (65 <=? n)%nat && (n <=? 90)%nat then ascii_of_nat (n + 32) else c.

Fixpoint mapBytes (f : ascii -> ascii) (s : string) : string :=
  match s with
  | EmptyString => EmptyString
  | String c s' => String (f c) (mapBytes f s')
  end.

(** [strings.ToLower(s)]: a string of ASCII bytes is mapped byte by byte;
    any other string goes through [unicode.ToLower], a table that enters
    as [unicodeLower]. *)
Definition ToLower (unicodeLower : string -> string) (s : string) : string :=
  if isASCII s then mapBytes lowerByte s else unicodeLower s.

(** [strings.TrimRight(s, cutset)] for a cutset of one ASCII byte [c]. *)
Fixpoint TrimRightByte (s : string) (c : ascii) : string :=
  match s with
  | EmptyString => EmptyString
  | String a s' =>
      match TrimRightByte s' c with
      | EmptyString => if Ascii.eqb a c then EmptyString else String a EmptyString
      | t => String a t
      end
  end.

End GoStrings2.
Import GoStrings2.

(** ** What a run of the service is given *)

(** The environment variables, [json.Marshal] and the table behind
    [unicode.ToLower]. *)
Record Runtime : Type := {
  environ : gmap string string;
  Marshal : json -> string;
  unicodeLower : string -> string
}.

(** [os.Getenv] and [os.LookupEnv] *)
Definition Getenv (rt : Runtime) (name : string) : string :=
  default "" (environ rt !! name).

Definition LookupEnv (rt : Runtime) (name : string) : option string :=
  environ rt !! name.

(** ** AggregationBuilder: [buildAggregations] *)

Module AggregationBuilder.

(** Whether the loop goes on with an aggregation request, or skips it at
    the first [continue]. *)
Definition applies (rt : Runtime) (entityType : string) (agg : gmap string json)
  : bool :=
  match agg !! "type" with
  | Some (JStr aggType) =>
      if String.eqb (TrimSpace aggType) "" then true
      else String.eqb (ToLower (unicodeLower rt) aggType)
                      (ToLower (unicodeLower rt) entityType)
  | _ => true
  end.

(** [aggInner] for the key [k]. *)
Definition aggInner (rt : Runtime) (o : gmap string string) (k : string) : json :=
  if String.eqb k "dateRange" then
    JObj (<["endDate" := H [("max", H [("field", JStr "endDate")])]]>
            (<["startDate" := H [("min", H [("field", JStr "startDate")])]]> ∅))
  else if String.eqb k "publicationDate" then
    JObj (<["endDate" := H [("max", H [("field", JStr "publicationDate")])]]>
            (<["startDate" := H [("min", H [("field", JStr "publicationDate")])]]> ∅))
  else if String.eqb k "populationSize" then
    JObj (<[k := H [("range", H [("field", JStr k);
                                  ("ranges", sliceJSON populationRanges)])]]> ∅)
  else
    JObj (<[k := H [("terms",
                     H [("field", JStr (resolveAggregationField o k));
                        ("size", JStr (Getenv rt "SEARCH_NO_RECORDS_AGGREGATION"))])]]> ∅).

(** The loop over [mustFilters]: the clauses whose JSON text does not
    contain [k]. *)
Definition facetFilters (rt : Runtime) (k : string) (mustFilters : list json)
  : list json :=
  fold_left
    (fun filters fil =>
       if Contains (Marshal rt fil) k then filters else (filters ++ [fil])%list)
    mustFilters [].

(** [agg1[k]] *)
Definition aggregationFor (rt : Runtime) (o : gmap string string)
    (mustFilters : list json) (k : string) : json :=
  H [("aggs", aggInner rt o k);
     ("filter", H [("bool", H [("must", JArr (facetFilters rt k mustFilters))])])].

(** One round of the loop over [query.Aggregations]. *)
Definition aggStep (rt : Runtime) (o : gmap string string) (mustFilters : list json)
    (entityType : string) (agg1 : gmap string json) (agg : gmap string json)
  : gmap string json :=
  if negb (applies rt entityType agg) then agg1
  else
    let k := stringField agg "keys" in
    <[k := aggregationFor rt o mustFilters k]> agg1.

(** [buildAggregations] *)
Definition buildAggregations (rt : Runtime) (o : gmap string string) (query : Query)
    (mustFilters : list json) (entityType : string) : json :=
  JObj (fold_left (aggStep rt o mustFilters entityType) (QueryAggregations query) ∅).

End AggregationBuilder.

(** ** QueryTranslator: the main query, the sort and the highlight *)

Module QueryDocuments.

Definition strings (l : list string) : json := JArr (JStr <$> l).

(** The first branch: no query string, no ids. *)
Definition matchAll : json :=
  H [("function_score",
      H [("query", H [("match_all", H [])]); ("random_score", H [])])].

(** The second branch: no query string, ids. *)
Definition byIDs (ids : list string) : json :=
  H [("function_score",
      H [("query",
          H [("function_score",
              H [("query",
                  H [("bool",
                      H [("filter", JArr [H [("terms", H [("_id", strings ids)])]])])]);
                 ("random_score", H [])])])])].

Definition sortByIDs (ids : list string) : list json :=
  [H [("_script",
       H [("type", JStr "number");
          ("script",
           H [("lang", JStr "painless");
              ("source", JStr "params.order.indexOf(doc['_id'].value)");
              ("params", H [("order", strings ids)])]);
          ("order", JStr "asc")])]].

(** The third branch, per entity type: [mm1], [mm2], [mm3] under
    [bool.should]. *)
Definition should (mm1 mm2 mm3 : list (string * json)) : json :=
  H [("bool",
      H [("should",
          JArr [H [("multi_match", H mm1)]; H [("multi_match", H mm2)];
                H [("multi_match", H mm3)]])])].

Definition datasetText (q : string) : json :=
  let searchableFields :=
    strings ["abstract"; "keywords"; "description"; "shortTitle"; "title";
             "named_entities"; "datasetDOI"] in
  should
    [("query", JStr q); ("fields", searchableFields); ("fuzziness", JStr "AUTO:5,7");
     ("analyzer", JStr "medterms_search_analyzer")]
    [("query", JStr q); ("fields", searchableFields); ("fuzziness", JStr "AUTO:5,7");
     ("analyzer", JStr "medterms_search_analyzer"); ("operator", JStr "and");
     ("boost", JInt 2)]
    [("query", JStr q); ("type", JStr "phrase"); ("fields", searchableFields);
     ("analyzer", JStr "medterms_search_analyzer"); ("boost", JInt 3)].

(** The shape shared by the tool, data use, publication and data provider
    translators. *)
Definition plainText (searchableFields : json) (q : string) : json :=
  should
    [("query", JStr q); ("fields", searchableFields); ("fuzziness", JStr "AUTO:5,7")]
    [("query", JStr q); ("fields", searchableFields); ("fuzziness", JStr "AUTO:5,7");
     ("operator", JStr "and")]
    [("query", JStr q); ("fields", searchableFields); ("type", JStr "phrase");
     ("boost", JInt 2)].

(** The shape shared by the collection and data custodian network
    translators. *)
Definition relatedText (relatedObjectFields searchableFields : json) (q : string)
  : json :=
  should
    [("query", JStr q); ("fields", relatedObjectFields); ("fuzziness", JStr "AUTO:5,7")]
    [("query", JStr q); ("fields", searchableFields); ("fuzziness", JStr "AUTO:5,7");
     ("boost", JInt 2)]
    [("query", JStr q); ("type", JStr "phrase"); ("fields", searchableFields);
     ("boost", JInt 3)].

Definition textQuery (e : Entity) (q : string) : json :=
  match e with
  | Dataset => datasetText q
  | Tool =>
      plainText
        (strings ["tags"; "programmingLanguage"; "name"; "link"; "description";
                  "resultsInsights"; "license"]) q
  | Collection =>
      relatedText (strings ["datasetTitles"; "datasetAbstracts"])
        (strings ["description"; "name"; "keywords"]) q
  | DataUseRegister =>
      plainText
        (strings ["projectTitle"; "laySummary"; "publicBenefitStatement";
                  "technicalSummary"; "fundersAndSponsors"; "datasetTitles";
                  "keywords"; "collectionNames"; "publisherName"]) q
  | Publication =>
      plainText
        (strings ["title"; "journalName"; "abstract"; "publicationType"; "authors";
                  "datasetTitles"; "doi"]) q
  | DataProvider =>
      plainText
        (strings ["name"; "datasetTitles"; "geographicLocation"; "publicationTitles";
                  "collectionNames"; "durTitles"; "toolNames"; "teamAliases"]) q
  | DataCustodianNetwork =>
      relatedText
        (strings ["publisherNames"; "datasetTitles"; "durTitles"; "toolNames";
                  "publicationTitles"; "collectionNames"])
        (strings ["name"; "summary"]) q
  end.

(** [mainQuery] and [sortQuery] after the three-way branch.  The data
    custodian network translator has no branch on the ids and no
    [sortQuery]. *)
Definition mainQuery (e : Entity) (query : Query) : json :=
  if String.eqb (QueryString query) "" then
    match e, IDs query with
    | DataCustodianNetwork, _ => matchAll
    | _, [] => matchAll
    | _, ids => byIDs ids
    end
  else textQuery e (QueryString query).

Definition sortQuery (query : Query) : list json :=
  if String.eqb (QueryString query) "" then
    match IDs query with
    | [] => []
    | ids => sortByIDs ids
    end
  else [].

(** The [highlight] entry, with the fields of the entity type. *)
Definition sentence : json :=
  H [("boundary_scanner", JStr "sentence"); ("fragment_size", JInt 0);
     ("no_match_size", JInt 0)].

Definition highlightFields (e : Entity) : list string :=
  match e with
  | Dataset => ["description"; "abstract"]
  | Tool => ["name"; "description"]
  | Collection => ["description"; "name"; "keywords"]
  | DataUseRegister => ["laySummary"]
  | Publication => ["title"; "abstract"]
  | DataProvider => []
  | DataCustodianNetwork => ["name"; "summary"]
  end.

Definition highlight (e : Entity) : json :=
  H [("fields", H ((fun f => (f, sentence)) <$> highlightFields e))].

(** The entries of [response] beside [post_filter] and [aggs]: the data
    provider translator writes no [highlight]; [sort] is set when ids are
    given, except by the data custodian network translator. *)
Definition staticSections (rt : Runtime) (e : Entity) (query : Query)
  : gmap string json :=
  let response : gmap string json :=
    <["size" := JStr (Getenv rt "SEARCH_NO_RECORDS")]>
      (<["query" := mainQuery e query]> (<["explain" := JBool true]> ∅)) in
  let response :=
    match e with
    | DataProvider => response
    | _ => <["highlight" := highlight e]> response
    end in
  match e, IDs query with
  | DataCustodianNetwork, _ => response
  | _, [] => response
  | _, _ => <["sort" := sliceJSON (sortQuery query)]> response
  end.

(** The same, by the name of the index. *)
Definition staticPart (rt : Runtime) (name : string) (query : Query)
  : gmap string json :=
  match List.find (fun e => String.eqb (indexName e) name) entities with
  | Some e => staticSections rt e query
  | None => ∅
  end.

(** [datasetElasticConfig], [toolsElasticConfig], ...: the translator of
    an entity type. *)
Definition translate (rt : Runtime) (e : Entity) (o : gmap string string)
    (query : Query) : Go json :=
  Translator.elasticConfig (staticPart rt) (AggregationBuilder.buildAggregations rt) e o query.

End QueryDocuments.

(** ** ResponseNormalizer: the explanations *)

Module Explanations.

(** [copyResponseHits]: [append] to a [nil] slice leaves it [nil] when
    there is nothing to append. *)
Definition copyResponseHits (r : SearchResponse) : SearchResponse :=
  {| Took := 0; TimedOut := false; Shards := ∅;
     HitsOf := {| Total := ∅; MaxScore := Q2Qc 0;
                  Hits := match Hits (HitsOf r) with
                          | Some (h :: hits) => Some (h :: hits)
                          | _ => None
                          end |};
     Aggregations := ∅ |}.

(** The address [extractExplanation] posts to. *)
Definition urlPath (extractorURL : string) : string :=
  TrimRightByte extractorURL "/" ++ "/process_data".

(** The first half of [stripExplanation]: the copy handed to
    [extractExplanation] and the address it is sent to, if any.  [zero] is
    [reflect.ValueOf(query).IsZero()]. *)
Definition forwarded (rt : Runtime) (elasticResp : SearchResponse) (zero : bool)
    (entityType : string) : option (string * SearchResponse) :=
  let extractorURL :=
    match LookupEnv rt "SEARCH_EXPLANATION_EXTRACTOR" with
    | Some url => TrimSpace url
    | None => ""
    end in
  let expEnabled :=
    match LookupEnv rt "SEARCH_EXPLANATION_EXTRACTOR" with
    | Some _ => negb (String.eqb extractorURL "")
    | None => false
    end in
  if expEnabled && String.eqb entityType "dataset" && negb zero
  then Some (urlPath extractorURL, copyResponseHits elasticResp)
  else None.

Definition clearExplanation (h : Hit) : Hit :=
  {| Explanation := ∅; Id := Id h; Score := Score h; Source := Source h;
     Highlight := Highlight h |}.

(** The second half: the loop writes through the slice, so the response of
    the caller loses its explanations. *)
Definition stripExplanation (elasticResp : SearchResponse) : SearchResponse :=
  {| Took := Took elasticResp; TimedOut := TimedOut elasticResp;
     Shards := Shards elasticResp;
     HitsOf := {| Total := Total (HitsOf elasticResp);
                  MaxScore := MaxScore (HitsOf elasticResp);
                  Hits := match Hits (HitsOf elasticResp) with
                          | Some hits => Some (clearExplanation <$> hits)
                          | None => None
                          end |};
     Aggregations := Aggregations elasticResp |}.

End Explanations.

(** ** The search of one entity type: [datasetSearch], [toolSearch], ... *)

Module EntitySearch.

(** The name a search passes to [stripExplanation]. *)
Definition explanationName (e : Entity) : string :=
  match e with
  | Dataset => "dataset"
  | Tool => "tool"
  | Collection => "collection"
  | DataUseRegister => "dur"
  | Publication => "publication"
  | DataProvider => "dataProvider"
  | DataCustodianNetwork => "datacustodiannetwork"
  end.

Definition withAggregations (aggs : gmap string json) (r : SearchResponse)
  : SearchResponse :=
  {| Took := Took r; TimedOut := TimedOut r; Shards := Shards r; HitsOf := HitsOf r;
     Aggregations := aggs |}.

(** What a search gives: the response for the caller and what was handed
    to [extractExplanation]. *)
Record Found : Type := {
  response : SearchResponse;
  explained : option (string * SearchResponse)
}.

(** The search of the entity type [e].  [visit] is the order in which
    [flattenAggs] meets the aggregations, [zero] is
    [reflect.ValueOf(query).IsZero()].  When the hits are [nil] the query is
    built once more, for the log. *)
Definition search (backend : Backend) (rt : Runtime) (e : Entity)
    (visit : gmap string json -> list (string * json)) (zero : bool)
    (query : Query) (w : World) : Go Found * World :=
  match executeSearchWithRetry backend (indexName e)
          (fun o => QueryDocuments.translate rt e o query) w with
  | (Panic why, w') => (Panic why, w')
  | (Ok (elasticResp, body), w') =>
      let logged :=
        if hitsPresent elasticResp then Ok JNull
        else QueryDocuments.translate rt e (overrides w') query in
      match logged with
      | Panic why => (Panic why, w')
      | Ok _ =>
          let copy := Explanations.forwarded rt elasticResp zero (explanationName e) in
          let stripped := Explanations.stripExplanation elasticResp in
          let newAggs := flattenAggs (visit (Aggregations stripped)) in
          (Ok {| response := withAggregations newAggs stripped; explained := copy |}, w')
      end
  end.

End EntitySearch.

(** ** Further notions used to state the properties *)

(** What the table of a state can become while a handler runs. *)
Definition extends (o o' : gmap string string) : Prop :=
  (wellKeyed o -> wellKeyed o') /\
  (forall key override, o !! key = Some override -> o' !! key = Some override).

(** Two runs of a loop that agree up to the order of what they collect. *)
Definition sameClauses (r r' : Go (list json)) : Prop :=
  match r, r' with
  | Ok l, Ok l' => l ≡ₚ l'
  | Panic _, Panic _ => True
  | _, _ => False
  end.

(** A query with other ids. *)
Definition withIDs (ids : list string) (query : Query) : Query :=
  {| QueryString := QueryString query; Filters := Filters query;
     QueryAggregations := QueryAggregations query; IDs := ids |}.

(** The member of a document at the end of a path of names. *)
Fixpoint path (names : list string) (doc : json) : option json :=
  match names with
  | [] => Some doc
  | name :: rest =>
      match doc with
      | JObj m => m !! name ≫= path rest
      | _ => None
      end
  end.

(** An aggregation request for the key [k] that [buildAggregations] does
    not skip for the entity type. *)
Definition requests (rt : Runtime) (entityType k : string) (agg : gmap string json)
  : bool :=
  AggregationBuilder.applies rt entityType agg && String.eqb (stringField agg "keys") k.

(** ** Further example inputs *)

(** A runtime with the two sizes set and no explanation extractor.  Its
    encoder is only met by queries without filters, for which
    [buildAggregations] does not call it. *)
Definition plainRuntime : Runtime :=
  {| environ := {[ "SEARCH_NO_RECORDS" := "100";
                   "SEARCH_NO_RECORDS_AGGREGATION" := "1000" ]};
     Marshal := fun _ => "";
     unicodeLower := fun s => s |}.

(** The same with an explanation extractor. *)
Definition explainingRuntime : Runtime :=
  {| environ := {[ "SEARCH_NO_RECORDS" := "100";
                   "SEARCH_NO_RECORDS_AGGREGATION" := "1000";
                   "SEARCH_EXPLANATION_EXTRACTOR" := " http://extractor:8080// " ]};
     Marshal := fun _ => "";
     unicodeLower := fun s => s |}.

(** A query with a query string, ids and a request for the publishers of
    the datasets. *)
Definition idsQuery : Query :=
  {| QueryString := "asthma";
     Filters := ∅;
     QueryAggregations :=
       [ {[ "type" := JStr "dataset"; "keys" := JStr "publisherName" ]} ];
     IDs := ["1"; "2"] |}.

(** A response with one explained hit. *)
Definition explainedHit : Hit :=
  {| Explanation := {[ "value" := JInt 1 ]}; Id := "1"; Score := Q2Qc 1;
     Source := ∅; Highlight := ∅ |}.

Definition oneHit : SearchResponse :=
  {| Took := 3; TimedOut := false; Shards := ∅;
     HitsOf := {| Total := ∅; MaxScore := Q2Qc 1; Hits := Some [explainedHit] |};
     Aggregations := ∅ |}.

Definition oneHitBody : Body :=
  {| raw := "{" ++ quoted "took" ++ ":3," ++ quoted "timed_out" ++ ":false,"
            ++ quoted "hits" ++ ":{" ++ quoted "max_score" ++ ":1,"
            ++ quoted "hits" ++ ":[{"
            ++ quoted "_id" ++ ":" ++ quoted "1" ++ "," ++ quoted "_score" ++ ":1,"
            ++ quoted "_explanation" ++ ":{" ++ quoted "value" ++ ":1}}]}}";
     asResponse := oneHit;
     asError := Some {| Error := ∅; Status := 0 |} |}.

Definition oneHitBackend : Backend :=
  fun _ _ _ => HttpResponse 200 oneHitBody false.

(** A backend that cannot be reached. *)
Definition unreachable : Backend := fun _ _ _ => TransportError.

(** What one round of the loop of [flattenAggs] writes into [newAggs], in
    the order it writes it. *)
Definition updates (entry : string * json) : list (string * json) :=
  let '(k, agg) := entry in
  match agg with
  | JObj aggMap =>
      if rangeKey k then
        (match aggMap !! "startDate" with
         | Some start => [("startDate", start)]
         | None => []
         end ++
         match aggMap !! "endDate" with
         | Some end_ => [("endDate", end_)]
         | None => []
         end)%list
      else
        match aggMap !! k with
        | Some nested => [(k, nested)]
        | None => [(k, JObj aggMap)]
        end
  | _ => []
  end.

(** Aggregations with the date range of the datasets and the dates of the
    publications. *)
Definition since (year : string) : json :=
  H [("value_as_string", JStr (year ++ "-01-01T00:00:00.000Z"))].

Definition twoDateRanges : gmap string json :=
  {[ "dateRange" := H [("startDate", since "1990")];
     "publicationDate" := H [("startDate", since "2001")] ]}.

(** The aggregations of a dataset search. *)
Definition datasetAggregations : gmap string json :=
  {[ "dateRange" := H [("startDate", since "1990"); ("endDate", since "2020")];
     "publisherName" := JObj publisherBuckets ]}.

(** What [executeElasticQuery] makes of the answer to a request. *)
Definition decoded (outcome : SearchOutcome) : SearchResponse * Body :=
  match outcome with
  | TransportError | NilResponse => (zeroResponse, nilBody)
  | HttpResponse _ body true => (zeroResponse, body)
  | HttpResponse _ body false => (asResponse body, body)
  end.

(** An answer with the two dates of the datasets. *)
Definition datesBody : Body :=
  {| raw := "{" ++ quoted "aggregations" ++ ":{" ++ quoted "startDate" ++ ":{"
            ++ quoted "value_as_string" ++ ":" ++ quoted "1990-01-01T00:00:00.000Z"
            ++ "}," ++ quoted "endDate" ++ ":{" ++ quoted "value_as_string" ++ ":"
            ++ quoted "2020-01-01T00:00:00.000Z" ++ "}}}";
     asResponse :=
       {| Took := 0; TimedOut := false; Shards := ∅;
          HitsOf := {| Total := ∅; MaxScore := Q2Qc 0; Hits := None |};
          Aggregations := {[ "startDate" := since "1990"; "endDate" := since "2020" ]} |};
     asError := Some {| Error := ∅; Status := 0 |} |}.

Definition datesBackend : Backend :=
  fun _ _ _ => HttpResponse 200 datesBody false.

(** ** FanOutCoordinator: [SearchGeneric] and its goroutines

    [SearchGeneric] starts one goroutine for every entity type.  Each runs
    the search of its type on the query and sends what it returns on a
    channel of its own; the handler receives seven times, from whichever
    channel is ready, and answers with the map it has filled.  A panic in
    a goroutine is not recovered and ends the process.

    The goroutines share the override table and the backend.  A goroutine
    is followed from one action on the table or the backend to the next.
    The table is read once for every aggregation key of a translation,
    under the read lock; since entries are only added and every writer
    stores the same value for a key, what a translation reads is a table
    between the one at its first read and the one at its last.  The
    goroutine started by [stripExplanation] shares nothing with the others
    and is left out. *)

Module Coordinator.

(** Where a goroutine is.  [attempt] is the counter of the loop of
    [executeSearchWithRetry], [answer] holds [lastResp] and [lastBody]. *)
Inductive Branch : Type :=
  | Starting (attempt : nat)
  | Building (attempt : nat) (seen : gmap string string)
  | Calling (attempt : nat) (elasticQuery : json)
  | Recovering (attempt : nat) (answer : SearchResponse * Body) (fields : list string)
  | Leaving (answer : SearchResponse * Body)
  | Logging (answer : SearchResponse * Body) (seen : gmap string string)
  | Sending (response : SearchResponse)
  | Done (response : SearchResponse).

(** After [executeElasticQuery]: the first [break] of the loop, or the
    call of [updateAggregationOverridesFromError]. *)
Definition afterCall (attempt : nat) (answer : SearchResponse * Body) : Branch :=
  if hitsPresent (fst answer) || (len (snd answer) =? 0)%nat then Leaving answer
  else Recovering attempt answer (fieldsOfBody (snd answer)).

(** After [updateAggregationOverridesFromError]: the second [break], or
    [attempt++] and the test of the loop. *)
Definition afterRecovery (attempt : nat) (answer : SearchResponse * Body) : Branch :=
  if nonEmpty (fieldsOfBody (snd answer)) && (S attempt <? 2)%nat
  then Starting (S attempt)
  else Leaving answer.

(** The end of a search: [stripExplanation], then [flattenAggs]. *)
Definition normalised (visit : gmap string json -> list (string * json))
    (elasticResp : SearchResponse) : SearchResponse :=
  let stripped := Explanations.stripExplanation elasticResp in
  EntitySearch.withAggregations (flattenAggs (visit (Aggregations stripped))) stripped.

(** One action of the goroutine of the entity type [e]: where it goes, or
    the panic it raises, and the state it leaves. *)
Inductive branchStep (backend : Backend) (rt : Runtime)
    (visit : gmap string json -> list (string * json)) (query : Query) (e : Entity)
  : Branch -> World -> Go Branch -> World -> Prop :=
  | begin_build (attempt : nat) (w : World) :
      branchStep backend rt visit query e
        (Starting attempt) w (Ok (Building attempt (overrides w))) w
  | end_build (attempt : nat) (seen read : gmap string string) (w : World) :
      seen ⊆ read -> read ⊆ overrides w ->
      branchStep backend rt visit query e
        (Building attempt seen) w
        (match QueryDocuments.translate rt e read query with
         | Ok elasticQuery => Ok (Calling attempt elasticQuery)
         | Panic why => Panic why
         end) w
  | call (attempt : nat) (elasticQuery : json) (w : World) :
      branchStep backend rt visit query e
        (Calling attempt elasticQuery) w
        (Ok (afterCall attempt
               (fst (executeElasticQuery backend (indexName e) elasticQuery w))))
        (snd (executeElasticQuery backend (indexName e) elasticQuery w))
  | register_field (attempt : nat) (answer : SearchResponse * Body)
      (field : string) (fields : list string) (w : World) :
      branchStep backend rt visit query e
        (Recovering attempt answer (field :: fields)) w
        (Ok (Recovering attempt answer fields))
        (withOverrides (register (overrides w) field) w)
  | end_recovery (attempt : nat) (answer : SearchResponse * Body) (w : World) :
      branchStep backend rt visit query e
        (Recovering attempt answer []) w (Ok (afterRecovery attempt answer)) w
  | leave (answer : SearchResponse * Body) (w : World) :
      branchStep backend rt visit query e
        (Leaving answer) w
        (Ok (if hitsPresent (fst answer) then Sending (normalised visit (fst answer))
             else Logging answer (overrides w))) w
  | end_log (answer : SearchResponse * Body) (seen read : gmap string string)
      (w : World) :
      seen ⊆ read -> read ⊆ overrides w ->
      branchStep backend rt visit query e
        (Logging answer seen) w
        (match QueryDocuments.translate rt e read query with
         | Ok _ => Ok (Sending (normalised visit (fst answer)))
         | Panic why => Panic why
         end) w.

(** The handler and its goroutines. *)
Record Pool : Type := {
  world : World;
  branches : Entity -> Branch;
  received : nat;
  results : gmap string SearchResponse
}.

Inductive State : Type :=
  | Running (p : Pool)
  | Crashed (why : string)
  | Returned (status : Z) (document : gmap string SearchResponse).

(** The handler after the request was bound and the goroutines were
    started. *)
Definition start (w : World) : State :=
  Running {| world := w; branches := fun _ => Starting 0; received := 0;
             results := ∅ |}.

(** One step of the process: an action of a goroutine, one round of
    [select], or the answer [c.JSON(http.StatusOK, results)] after the
    seventh round. *)
Inductive step (backend : Backend) (rt : Runtime)
    (visit : gmap string json -> list (string * json)) (query : Query)
  : State -> State -> Prop :=
  | step_branch (p : Pool) (e : Entity) (next : Branch) (w' : World) :
      branchStep backend rt visit query e (branches p e) (world p) (Ok next) w' ->
      step backend rt visit query (Running p)
        (Running {| world := w'; branches := <[e := next]> (branches p);
                    received := received p; results := results p |})
  | step_panic (p : Pool) (e : Entity) (why : string) (w' : World) :
      branchStep backend rt visit query e (branches p e) (world p) (Panic why) w' ->
      step backend rt visit query (Running p) (Crashed why)
  | step_select (p : Pool) (e : Entity) (response : SearchResponse) :
      (received p < 7)%nat ->
      branches p e = Sending response ->
      step backend rt visit query (Running p)
        (Running {| world := world p; branches := <[e := Done response]> (branches p);
                    received := S (received p);
                    results := <[FanOut.resultKey e := response]> (results p) |})
  | step_return (p : Pool) :
      received p = 7%nat ->
      step backend rt visit query (Running p) (Returned 200 (results p)).

(** [SearchGeneric]: the states the process can be in. *)
Definition SearchGeneric (backend : Backend) (rt : Runtime)
    (visit : gmap string json -> list (string * json)) (query : Query) (w : World)
  : State -> Prop :=
  rtc (step backend rt visit query) (start w).

(** [elasticQuery] is what the translator of [e] makes of [query] with
    some reading of the table. *)
Definition builtFor (rt : Runtime) (query : Query) (e : Entity) (w : World)
    (elasticQuery : json) : Prop :=
  exists read,
    read ⊆ overrides w /\
    QueryDocuments.translate rt e read query = Ok elasticQuery.

(** [answer] is what the answer to a request sent to the index of [e],
    with a translation of [query], decodes to. *)
Definition fromOwnIndex (backend : Backend) (rt : Runtime) (query : Query)
    (e : Entity) (w : World) (answer : SearchResponse * Body) : Prop :=
  exists n elasticQuery,
    builtFor rt query e w elasticQuery /\
    sent w !! n = Some (indexName e, elasticQuery) /\
    answer = decoded (backend n (indexName e) elasticQuery).

(** What holds of a goroutine between two steps. *)
Definition branchOk (backend : Backend) (rt : Runtime)
    (visit : gmap string json -> list (string * json)) (query : Query)
    (e : Entity) (w : World) (b : Branch) : Prop :=
  match b with
  | Starting _ => True
  | Building _ seen => seen ⊆ overrides w
  | Calling _ elasticQuery => builtFor rt query e w elasticQuery
  | Recovering _ answer _ | Leaving answer =>
      fromOwnIndex backend rt query e w answer
  | Logging answer seen =>
      fromOwnIndex backend rt query e w answer /\ seen ⊆ overrides w
  | Sending response | Done response =>
      exists answer,
        fromOwnIndex backend rt query e w answer /\
        response = normalised visit (fst answer)
  end.

Definition isDone (b : Branch) : bool :=
  match b with
  | Done _ => true
  | _ => false
  end.

(** What holds of the process between two steps. *)
Definition poolOk (backend : Backend) (rt : Runtime)
    (visit : gmap string json -> list (string * json)) (query : Query)
    (p : Pool) : Prop :=
  (forall e, branchOk backend rt visit query e (world p) (branches p e)) /\
  received p = size (results p) /\
  (forall e response,
     branches p e = Done response ->
     results p !! FanOut.resultKey e = Some response) /\
  (forall k, is_Some (results p !! k) ->
     exists e, k = FanOut.resultKey e /\ isDone (branches p e) = true).

Definition stateOk (backend : Backend) (rt : Runtime)
    (visit : gmap string json -> list (string * json)) (query : Query)
    (s : State) : Prop :=
  match s with
  | Running p => poolOk backend rt visit query p
  | _ => True
  end.

(** The goroutine of [e] runs from [p] to [p'], and nothing else moves. *)
Definition advances (backend : Backend) (rt : Runtime)
    (visit : gmap string json -> list (string * json)) (query : Query)
    (e : Entity) (p p' : Pool) : Prop :=
  rtc (step backend rt visit query) (Running p) (Running p') /\
  (forall e', e' <> e -> branches p' e' = branches p e') /\
  received p' = received p /\ results p' = results p.

(** The goroutine of [e] can run from [p] until it sends. *)
Definition reachesSend (backend : Backend) (rt : Runtime)
    (visit : gmap string json -> list (string * json)) (query : Query)
    (e : Entity) (p : Pool) : Prop :=
  exists p' response,
    advances backend rt visit query e p p' /\ branches p' e = Sending response.

(** The goroutine of [e] has not built its first query. *)
Definition notBuilt (b : Branch) : bool :=
  match b with
  | Starting _ | Building _ _ => true
  | _ => false
  end.

(** How far a goroutine is from its end: the part of the search it is in,
    and the fields it has still to register. *)
Definition phase (b : Branch) : nat :=
  match b with
  | Starting attempt => 4 * (2 - attempt) + 7
  | Building attempt _ => 4 * (2 - attempt) + 6
  | Calling attempt _ => 4 * (2 - attempt) + 5
  | Recovering attempt _ _ => 4 * (2 - attempt) + 4
  | Leaving _ => 3
  | Logging _ _ => 2
  | Sending _ => 1
  | Done _ => 0
  end.

Definition unregistered (b : Branch) : nat :=
  match b with
  | Recovering _ _ fields => length fields
  | _ => 0
  end.

Definition total (f : Branch -> nat) (p : Pool) : nat :=
  sum_list ((fun e => f (branches p e)) <$> entities).

(** A state is nearer to the end than another: fewer parts of the searches
    are left, or as many and fewer fields to register. *)
Definition nearer (p' p : Pool) : Prop :=
  (total phase p' < total phase p)%nat \/
  (total phase p' = total phase p /\
   total unregistered p' < total unregistered p)%nat.

End Coordinator.

(** The query has, for every entity type, a bucket of well-shaped
    filters. *)
Definition wellShapedQuery (query : Query) : bool :=
  forallb (fun e => forallb (wellShaped e) (bucket query (bucketName e))) entities.

(** ** Further examples *)

(** An answer to a date request on an index without dated documents: the
    two aggregations are there, without a value. *)
Definition nullDatesBody : Body :=
  {| raw := "{" ++ quoted "aggregations" ++ ":{" ++ quoted "startDate" ++ ":{"
            ++ quoted "value" ++ ":null}," ++ quoted "endDate" ++ ":{"
            ++ quoted "value" ++ ":null}}}";
     asResponse :=
       {| Took := 0; TimedOut := false; Shards := ∅;
          HitsOf := {| Total := ∅; MaxScore := Q2Qc 0; Hits := None |};
          Aggregations := {[ "startDate" := H [("value", JNull)];
                             "endDate" := H [("value", JNull)] ]} |};
     asError := Some {| Error := ∅; Status := 0 |} |}.

Definition nullDatesBackend : Backend :=
  fun _ _ _ => HttpResponse 200 nullDatesBody false.

Definition dateRangeOf (filterType : string) : gmap string json :=
  {[ "type" := JStr filterType; "keys" := JStr "dateRange" ]}.

(** The remaining pairs succeed: a pair is resolved whenever the answer to
    its last request did not fail and held an aggregation. *)
Definition remainingPairsSucceed : Prop :=
  forall (backend : Backend) (fmtV : json -> string) (filter : gmap string json)
         (w : World) (outcome : SearchOutcome),
    lastOutcome backend (snd (attemptLoop backend fmtV 2 0 filter w)) = Some outcome ->
    failed outcome = false ->
    is_Some (fst (attemptLoop backend fmtV 2 0 filter w)).

(** An error envelope whose first root cause has a text in brackets and no
    signature phrase, and whose second has a signature phrase and no text
    in brackets. *)
Definition unrecoverableBody : Body :=
  {| raw := "{" ++ quoted "error" ++ ":{" ++ quoted "root_cause" ++ ":[{"
            ++ quoted "type" ++ ":" ++ quoted "index_not_found_exception" ++ ","
            ++ quoted "reason" ++ ":" ++ quoted "no such index [datasets]" ++ ","
            ++ quoted "index" ++ ":" ++ quoted "datasets" ++ "},{"
            ++ quoted "type" ++ ":" ++ quoted "illegal_argument_exception" ++ ","
            ++ quoted "reason" ++ ":"
            ++ quoted "Fielddata is disabled on text fields by default." ++ "}]},"
            ++ quoted "status" ++ ":404}";
     asResponse := zeroResponse;
     asError :=
       Some {| Error := {[ "root_cause" :=
                 [ {| Type_ := "index_not_found_exception";
                      Reason := "no such index [datasets]"; Index := "datasets" |};
                   {| Type_ := "illegal_argument_exception";
                      Reason := "Fielddata is disabled on text fields by default.";
                      Index := "" |} ] ]};
               Status := 404 |} |}.

(** The requests of one pair. *)
Definition requestsOf (filter : gmap string json) (group : list (string * json))
  : Prop :=
  (1 <= length group <= 2)%nat /\
  Forall (fun r => exists o,
            r = (indexOf (stringField filter "type"), filtersRequest o filter))
    group.

(** * Properties *)

(** ** FieldOverrideCache *)

Lemma setAggregationFieldOverride_insert (key override : string)
    (o : gmap string string) :
  setAggregationFieldOverride key override o = <[key := override]> o.
Proof.
  unfold setAggregationFieldOverride.
  destruct (o !! key) as [existing|] eqn:E; [|done].
  destruct (String.eqb_spec existing override) as [->|]; [|done].
  by rewrite insert_id.
Qed.

Lemma resolve_after_set (key override k : string) (o : gmap string string) :
  resolveAggregationField (setAggregationFieldOverride key override o) k =
  if decide (key = k) then override else resolveAggregationField o k.
Proof.
  rewrite setAggregationFieldOverride_insert.
  unfold resolveAggregationField. rewrite lookup_insert.
  by destruct (decide (key = k)).
Qed.

(** C8.  Registering [field -> field.keyword] a second time changes nothing:
    the table is the same map, so its key set and every resolved name are
    those after the first registration. *)
Theorem setAggregationFieldOverride_idempotent (field : string)
    (o : gmap string string) :
  let once := setAggregationFieldOverride field (field ++ ".keyword") o in
  let twice := setAggregationFieldOverride field (field ++ ".keyword") once in
  twice = once /\
  dom twice = dom once /\
  (forall key, resolveAggregationField twice key = resolveAggregationField once key) /\
  resolveAggregationField once field = field ++ ".keyword".
Proof.
  intros once twice.
  assert (Heq : twice = once).
  { unfold twice, once. rewrite !setAggregationFieldOverride_insert.
    apply insert_insert_eq. }
  repeat split.
  - exact Heq.
  - by rewrite Heq.
  - intros key. by rewrite Heq.
  - unfold once. rewrite resolve_after_set. by rewrite decide_True.
Qed.

(** ** Numeric-range buckets *)

(** C5.  [populationRanges] is the bucket [-1, 1, "Unreported"] followed by
    the nine buckets [10^i, 10^(i+1)] for [i] from 0 to 8, in that order: ten
    buckets in all. *)
Theorem populationRanges_buckets :
  populationRanges =
    [ H [("from", JInt (-1)); ("to", JInt 1); ("key", JStr "Unreported")];
      H [("from", JInt 1); ("to", JInt 10)];
      H [("from", JInt 10); ("to", JInt 100)];
      H [("from", JInt 100); ("to", JInt 1000)];
      H [("from", JInt 1000); ("to", JInt 10000)];
      H [("from", JInt 10000); ("to", JInt 100000)];
      H [("from", JInt 100000); ("to", JInt 1000000)];
      H [("from", JInt 1000000); ("to", JInt 10000000)];
      H [("from", JInt 10000000); ("to", JInt 100000000)];
      H [("from", JInt 100000000); ("to", JInt 1000000000)] ] /\
  length populationRanges = 10%nat /\
  (forall i : nat, (i < 9)%nat ->
     populationRanges !! S i =
       Some (H [("from", JInt (10 ^ Z.of_nat i)); ("to", JInt (10 ^ Z.of_nat (S i)))])).
Proof.
  split; [reflexivity|]. split; [reflexivity|].
  intros i Hi.
  do 9 (destruct i as [|i]; [reflexivity|]). lia.
Qed.

(** ** Strings *)

Section StringFacts.

#[local] Arguments String.append !_ _ / : simpl nomatch.

Lemma append_assoc (a b c : string) : (a ++ b) ++ c = a ++ (b ++ c).
Proof. induction a as [|x a IH]; simpl; [done|]. by f_equal. Qed.

Lemma append_nil_r (a : string) : a ++ "" = a.
Proof. induction a as [|x a IH]; simpl; [done|]. by f_equal. Qed.

Lemma prefix_append (x post : string) : String.prefix x (x ++ post) = true.
Proof.
  induction x as [|c x IH]; simpl; [by destruct post|].
  destruct (ascii_dec c c); [exact IH|congruence].
Qed.

Lemma Contains_prefix (s x : string) :
  String.prefix x s = true -> Contains s x = true.
Proof. destruct s; simpl; by intros ->. Qed.

Lemma Contains_middle (pre x post : string) : Contains (pre ++ x ++ post) x = true.
Proof.
  induction pre as [|c pre IH]; simpl.
  - apply Contains_prefix, prefix_append.
  - rewrite IH. apply orb_true_r.
Qed.

Lemma prefix_weaken (x a b : string) :
  String.prefix x a = true -> String.prefix x (a ++ b) = true.
Proof.
  revert a. induction x as [|c x IH]; intros a; [by destruct (a ++ b)|].
  destruct a as [|d a]; simpl; [done|].
  destruct (ascii_dec c d); [apply IH|congruence].
Qed.

Lemma Contains_cons (c : ascii) (a x : string) :
  Contains (String c a) x = String.prefix x (String c a) || Contains a x.
Proof. reflexivity. Qed.

Lemma Contains_append_l (a b x : string) :
  Contains a x = true -> Contains (a ++ b) x = true.
Proof.
  induction a as [|c a IH].
  - destruct x; [|done]. intros _. apply Contains_prefix. by destruct b.
  - change (String c a ++ b) with (String c (a ++ b)).
    rewrite !Contains_cons. intros [Hp|Hc]%orb_true_iff.
    + apply (prefix_weaken _ _ b) in Hp.
      change (String c a ++ b) with (String c (a ++ b)) in Hp. by rewrite Hp.
    + rewrite (IH Hc). apply orb_true_r.
Qed.

Lemma substring_prefix (n : nat) (s : string) :
  exists t, s = substring 0 n s ++ t.
Proof.
  revert n. induction s as [|c s IH]; intros [|n]; simpl.
  - by exists "".
  - by exists "".
  - by exists (String c s).
  - destruct (IH n) as [t Ht]. exists t. by rewrite <- Ht.
Qed.

Lemma TrimSuffix_prefix (s suffix : string) :
  exists t, s = TrimSuffix s suffix ++ t.
Proof.
  unfold TrimSuffix. destruct (HasSuffix s suffix).
  - apply substring_prefix.
  - exists "". by rewrite append_nil_r.
Qed.

Lemma TrimSuffix_no_space (s suffix : string) :
  Contains s " " = false -> Contains (TrimSuffix s suffix) " " = false.
Proof.
  intros Hs. destruct (TrimSuffix_prefix s suffix) as [t Ht].
  destruct (Contains (TrimSuffix s suffix) " ") eqn:E; [|done].
  rewrite Ht in Hs. by rewrite (Contains_append_l _ t _ E) in Hs.
Qed.

(** What the scan returns is a non-empty text that stands between
    brackets in the input. *)
Lemma scanFields_sound (s : string) : forall (open : option string) (field : string),
  field ∈ scanFields open s ->
  field <> "" /\
  ((exists pre post, s = pre ++ ("[" ++ field ++ "]") ++ post) \/
   (exists w t post, open = Some w /\ field = w ++ t /\ s = t ++ "]" ++ post)).
Proof.
  induction s as [|c s IH]; intros open field; simpl.
  - by intros ?%elem_of_nil.
  - destruct (Ascii.eqb_spec c "[") as [->|Hl].
    { intros [Hne [(pre & post & ->)|(w & t & post & Hw & -> & ->)]]%IH;
        (split; [done|left]).
      - by exists (String "[" pre), post.
      - injection Hw as <-. exists "", post. simpl.
        by rewrite append_assoc. }
    destruct (Ascii.eqb_spec c "]") as [->|Hr].
    { assert (Hrest : field ∈ scanFields None s ->
                field <> "" /\
                exists pre post, String "]" s = pre ++ ("[" ++ field ++ "]") ++ post).
      { intros [Hne [(pre & post & ->)|(w & t & post & Hw & _)]]%IH; [|done].
        split; [done|]. by exists (String "]" pre), post. }
      destruct open as [[|a w]|].
      - intros [? ?]%Hrest; split; [done|by left].
      - intros [->|Hin]%elem_of_cons.
        + split; [done|]. right. exists (String a w), "", s.
          by rewrite append_nil_r.
        + destruct (Hrest Hin); split; [done|by left].
      - intros [? ?]%Hrest; split; [done|by left]. }
    intros [Hne [(pre & post & ->)|(w & t & post & Hw & -> & ->)]]%IH;
      (split; [done|]).
    + left. by exists (String c pre), post.
    + destruct open as [w0|]; [|done]. injection Hw as <-.
      right. exists w0, (String c t), post.
      split; [done|]. split; [|done]. by rewrite append_assoc.
Qed.

Lemma FindAllFields_bracketed (s field : string) :
  field ∈ FindAllFields s ->
  field <> "" /\ Contains s ("[" ++ field ++ "]") = true.
Proof.
  intros [Hne [(pre & post & ->)|(w & t & post & Hw & _)]]%scanFields_sound;
    [|done].
  split; [done|]. apply Contains_middle.
Qed.

End StringFacts.

Example FindAllFields_sample :
  FindAllFields "set fielddata=true on [publisherName] in [ dataset ] [] [[a b]" =
    ["publisherName"; " dataset "; "a b"].
Proof. reflexivity. Qed.

Example TrimSpace_sample :
  TrimSpace (bytes [194; 160; 32; 97; 32; 98; 226; 128; 128; 10]) = "a b".
Proof. reflexivity. Qed.

Example TrimSuffix_sample :
  TrimSuffix "title.keyword" ".keyword" = "title" /\
  TrimSuffix "keyword" ".keyword" = "keyword".
Proof. split; reflexivity. Qed.

(** ** The recovery step *)

Section Recovery.

Lemma nonEmpty_app {A} (l k : list A) :
  nonEmpty (l ++ k)%list = nonEmpty l || nonEmpty k.
Proof. by destruct l, k. Qed.

Lemma registerMatch_spec (st : bool * gmap string string) (m : string) :
  registerMatch st m =
    match usableField m with
    | Some field => (true, register (snd st) field)
    | None => st
    end.
Proof.
  destruct st as [updated o]. unfold registerMatch, usableField, register.
  destruct (String.eqb (TrimSpace m) "" || Contains (TrimSpace m) " "); [done|].
  simpl. destruct (o !! TrimSuffix (TrimSpace m) ".keyword"); [done|].
  by rewrite setAggregationFieldOverride_insert.
Qed.

Lemma fold_registerMatch (ms : list string) : forall st,
  fold_left registerMatch ms st =
    (fst st || nonEmpty (omap usableField ms),
     fold_left register (omap usableField ms) (snd st)).
Proof.
  induction ms as [|m ms IH]; intros [updated o].
  - simpl. by rewrite orb_false_r.
  - cbn [fold_left]. rewrite IH, registerMatch_spec. simpl.
    destruct (usableField m); simpl; [|done].
    by rewrite orb_true_r.
Qed.

Lemma registerCause_spec (st : bool * gmap string string) (cause : RootCause) :
  registerCause st cause =
    (fst st || nonEmpty (fieldsOfCause cause),
     fold_left register (fieldsOfCause cause) (snd st)).
Proof.
  unfold registerCause, fieldsOfCause.
  destruct (knownSignature (Reason cause)); simpl.
  - apply fold_registerMatch.
  - destruct st. by rewrite orb_false_r.
Qed.

Lemma fold_registerCause (causes : list RootCause) : forall st,
  fold_left registerCause causes st =
    (fst st || nonEmpty (causes ≫= fieldsOfCause),
     fold_left register (causes ≫= fieldsOfCause) (snd st)).
Proof.
  induction causes as [|c causes IH]; intros [updated o].
  - simpl. by rewrite orb_false_r.
  - cbn [fold_left]. rewrite IH, registerCause_spec, bind_cons. simpl.
    by rewrite nonEmpty_app, fold_left_app, orb_assoc.
Qed.

(** The flag and the table of [updateAggregationOverridesFromError]. *)
Lemma update_spec (body : Body) (o : gmap string string) :
  updateAggregationOverridesFromError body o =
    (nonEmpty (fieldsOfBody body), fold_left register (fieldsOfBody body) o).
Proof.
  unfold updateAggregationOverridesFromError, fieldsOfBody, rootCausesOf.
  destruct (len body =? 0)%nat; [done|].
  destruct (asError body) as [e|]; [|done].
  destruct (Error e !! "root_cause") as [[|c causes]|]; [done| |done].
  apply fold_registerCause.
Qed.

Lemma fieldsOfBody_signature (body : Body) :
  nonEmpty (fieldsOfBody body) = true ->
  raw body <> "" /\ matchesSignature body.
Proof.
  intros Hne. split.
  - intros Hraw. unfold fieldsOfBody, rootCausesOf, len in Hne.
    by rewrite Hraw in Hne.
  - unfold fieldsOfBody in Hne.
    assert (exists cause, cause ∈ rootCausesOf body /\
              nonEmpty (fieldsOfCause cause) = true) as (cause & Hin & Hc).
    { induction (rootCausesOf body) as [|c cs IH]; [done|].
      rewrite bind_cons, nonEmpty_app in Hne.
      apply orb_true_iff in Hne as [Hc|Hcs].
      - exists c. split; [apply elem_of_cons; by left|done].
      - destruct (IH Hcs) as (c' & ? & ?). exists c'.
        split; [apply elem_of_cons; by right|done]. }
    exists cause. split; [done|].
    unfold fieldsOfCause in Hc.
    destruct (knownSignature (Reason cause)) eqn:Hsig; [|done].
    split; [by apply orb_true_iff in Hsig|].
    destruct (omap usableField (FindAllFields (Reason cause))) as [|f fs] eqn:E;
      [done|].
    assert (Hf : f ∈ omap usableField (FindAllFields (Reason cause))).
    { rewrite E. apply elem_of_cons; by left. }
    apply list_elem_of_omap in Hf as (m & Hm & _).
    exists m. by apply FindAllFields_bracketed.
Qed.

Lemma register_wellKeyed (o : gmap string string) (field : string) :
  Contains field " " = false -> wellKeyed o -> wellKeyed (register o field).
Proof.
  intros Hsp Ho key override. unfold register.
  destruct (o !! field) eqn:E; [apply Ho|].
  rewrite lookup_insert. destruct (decide (field = key)) as [<-|]; [|apply Ho].
  by intros [= <-].
Qed.

Lemma usableField_no_space (m field : string) :
  usableField m = Some field -> Contains field " " = false.
Proof.
  unfold usableField.
  destruct (String.eqb (TrimSpace m) "" || Contains (TrimSpace m) " ") eqn:E;
    [done|].
  intros [= <-]. apply orb_false_iff in E as [_ E].
  by apply TrimSuffix_no_space.
Qed.

Lemma fieldsOfBody_no_space (body : Body) (field : string) :
  field ∈ fieldsOfBody body -> Contains field " " = false.
Proof.
  unfold fieldsOfBody.
  intros (cause & Hin & _)%list_elem_of_bind.
  unfold fieldsOfCause in Hin.
  destruct (knownSignature (Reason cause)); [|by apply elem_of_nil in Hin].
  apply list_elem_of_omap in Hin as (m & _ & Hm).
  by eapply usableField_no_space.
Qed.

Lemma fold_register_wellKeyed (fields : list string) : forall o,
  (forall field, field ∈ fields -> Contains field " " = false) ->
  wellKeyed o -> wellKeyed (fold_left register fields o).
Proof.
  induction fields as [|f fields IH]; intros o Hsp Ho; simpl; [done|].
  apply IH.
  - intros field Hin. apply Hsp, elem_of_cons. by right.
  - apply register_wellKeyed; [|done]. apply Hsp, elem_of_cons. by left.
Qed.

Lemma fold_register_known (fields : list string) : forall o,
  (forall field, field ∈ fields -> is_Some (o !! field)) ->
  fold_left register fields o = o.
Proof.
  induction fields as [|f fields IH]; intros o Hk; simpl; [done|].
  assert (Hf : register o f = o).
  { unfold register. destruct (Hk f) as [v ->]; [apply elem_of_cons; by left|done]. }
  rewrite Hf. apply IH. intros field Hin. apply Hk, elem_of_cons. by right.
Qed.

End Recovery.

(** ** The executor and the listing loop *)

Section ExecutorFacts.

Variable backend : Backend.

Lemma executeElasticQuery_world (index : string) (q : json) (w : World) :
  snd (executeElasticQuery backend index q w) =
    {| overrides := overrides w; sent := (sent w ++ [(index, q)])%list |}.
Proof.
  unfold executeElasticQuery, Search.
  by destruct (backend _ _ _) as [| |? ? []].
Qed.

Lemma attempts_one (w : World) (o : gmap string string) (x : string * json) :
  attempts w {| overrides := o; sent := (sent w ++ [x])%list |} = 1%nat.
Proof. unfold attempts. simpl. rewrite length_app. simpl. lia. Qed.

Lemma attempts_two (w : World) (o : gmap string string) (x y : string * json) :
  attempts w {| overrides := o; sent := ((sent w ++ [x]) ++ [y])%list |} = 2%nat.
Proof. unfold attempts. simpl. rewrite !length_app. simpl. lia. Qed.

Lemma attempts_none (w : World) : attempts w w = 0%nat.
Proof. unfold attempts. lia. Qed.

(** The run of [executeSearchWithRetry], case by case. *)
Lemma executeSearchWithRetry_run (index : string)
    (buildQuery : gmap string string -> Go json) (w : World) :
  executeSearchWithRetry backend index buildQuery w =
    match buildQuery (overrides w) with
    | Panic why => (Panic why, w)
    | Ok q1 =>
        let '((resp1, body1), w1) := executeElasticQuery backend index q1 w in
        if hitsPresent resp1 || (len body1 =? 0)%nat
           || negb (nonEmpty (fieldsOfBody body1))
        then (Ok (resp1, body1), w1)
        else
          let o1 := fold_left register (fieldsOfBody body1) (overrides w) in
          let w2 := withOverrides o1 w1 in
          match buildQuery o1 with
          | Panic why => (Panic why, w2)
          | Ok q2 =>
              let '((resp2, body2), w3) := executeElasticQuery backend index q2 w2 in
              if hitsPresent resp2 || (len body2 =? 0)%nat then (Ok (resp2, body2), w3)
              else
                (Ok (resp2, body2),
                 withOverrides (fold_left register (fieldsOfBody body2) o1) w3)
          end
    end.
Proof.
  unfold executeSearchWithRetry. cbn [retryLoop].
  destruct (buildQuery (overrides w)) as [q1|]; [|done].
  pose proof (executeElasticQuery_world index q1 w) as Hw1.
  destruct (executeElasticQuery backend index q1 w) as [[resp1 body1] w1].
  simpl in Hw1. subst w1.
  destruct (hitsPresent resp1 || (len body1 =? 0)%nat) eqn:E1; [done|].
  cbn [overrides orb]. rewrite update_spec.
  destruct (nonEmpty (fieldsOfBody body1)) eqn:E2; cbn [negb].
  2:{ destruct (fieldsOfBody body1); [|done]. by destruct w. }
  cbn [withOverrides overrides sent].
  destruct (buildQuery _) as [q2|]; [|done].
  pose proof (executeElasticQuery_world index q2
    (withOverrides (fold_left register (fieldsOfBody body1) (overrides w))
       {| overrides := overrides w; sent := (sent w ++ [(index, q1)])%list |})) as Hw3.
  cbn [withOverrides overrides sent] in *.
  destruct (executeElasticQuery backend index q2 _) as [[resp2 body2] w3].
  simpl in Hw3. subst w3.
  destruct (hitsPresent resp2 || (len body2 =? 0)%nat) eqn:E3; [done|].
  cbn [overrides]. rewrite update_spec.
  by destruct (nonEmpty (fieldsOfBody body2)).
Qed.

Lemma hitsPresent_false (resp : SearchResponse) :
  hitsPresent resp = false -> Hits (HitsOf resp) = None.
Proof. unfold hitsPresent. by destruct (Hits (HitsOf resp)). Qed.

Lemma executeSearchWithRetry_attempts (index : string)
    (buildQuery : gmap string string -> Go json) (w : World) :
  let w' := snd (executeSearchWithRetry backend index buildQuery w) in
  (attempts w w' <= 2)%nat /\
  (attempts w w' = 2%nat ->
   exists q1 resp1 body1,
     buildQuery (overrides w) = Ok q1 /\
     fst (executeElasticQuery backend index q1 w) = (resp1, body1) /\
     Hits (HitsOf resp1) = None /\ raw body1 <> "" /\ matchesSignature body1).
Proof.
  cbn zeta. rewrite executeSearchWithRetry_run.
  destruct (buildQuery (overrides w)) as [q1|] eqn:Hq1; cbn [snd].
  2:{ rewrite attempts_none. split; [lia|done]. }
  pose proof (executeElasticQuery_world index q1 w) as Hw1.
  destruct (executeElasticQuery backend index q1 w) as [[resp1 body1] w1] eqn:E1.
  simpl in Hw1. subst w1.
  destruct (hitsPresent resp1) eqn:Hh; cbn [orb snd];
    [rewrite attempts_one; split; [lia|done]|].
  destruct (len body1 =? 0)%nat eqn:Hl; cbn [orb snd];
    [rewrite attempts_one; split; [lia|done]|].
  destruct (nonEmpty (fieldsOfBody body1)) eqn:Hne; cbn [negb snd];
    [|rewrite attempts_one; split; [lia|done]].
  assert (Hsig : exists q1' resp1' body1',
     Ok q1 = Ok q1' /\
     fst (executeElasticQuery backend index q1' w) = (resp1', body1') /\
     Hits (HitsOf resp1') = None /\ raw body1' <> "" /\ matchesSignature body1').
  { exists q1, resp1, body1. split; [done|]. split; [by rewrite E1|].
    split; [by apply hitsPresent_false|]. by apply fieldsOfBody_signature. }
  unfold withOverrides. cbn [overrides sent].
  destruct (buildQuery (fold_left register _ _)) as [q2|]; cbn [snd].
  2:{ rewrite attempts_one. split; [lia|done]. }
  match goal with |- context [executeElasticQuery backend index q2 ?w2] =>
    pose proof (executeElasticQuery_world index q2 w2) as Hw3;
    destruct (executeElasticQuery backend index q2 w2) as [[resp2 body2] w3]
  end.
  cbn [snd overrides sent] in Hw3. subst w3.
  destruct (_ || _); cbn [snd sent]; rewrite attempts_two;
    (split; [lia|done]).
Qed.


Variable fmtV : json -> string.

(** One round of the loop of [ListFilters]. *)
Lemma attemptLoop_round (n attempt : nat) (filter : gmap string json) (w : World) :
  attemptLoop backend fmtV (S n) attempt filter w =
    let index := indexOf (stringField filter "type") in
    let q := filtersRequest (overrides w) filter in
    let w1 := {| overrides := overrides w; sent := (sent w ++ [(index, q)])%list |} in
    match backend (length (sent w)) index q with
    | TransportError | NilResponse => (None, w1)
    | HttpResponse StatusCode body readFailed =>
        if asksRetry StatusCode body readFailed then
          if (attempt =? 0)%nat && nonEmpty (fieldsOfBody body) then
            attemptLoop backend fmtV n (S attempt) filter
              (withOverrides (fold_left register (fieldsOfBody body) (overrides w)) w1)
          else (None, w1)
        else if readFailed then (None, w1)
        else (filterData fmtV (stringField filter "type") (stringField filter "keys")
                (Aggregations (asResponse body)), w1)
    end.
Proof.
  cbn [attemptLoop]. unfold Search, asksRetry, retryAfterUpdate. cbn zeta.
  destruct (backend _ _ _) as [| |st body rf]; [done|done|].
  assert (Hnone : nonEmpty (fieldsOfBody body) = false ->
            fold_left register (fieldsOfBody body) (overrides w) = overrides w).
  { by destruct (fieldsOfBody body). }
  destruct (400 <=? st)%Z; cbn [orb].
  - destruct (attempt =? 0)%nat; cbn [andb overrides]; [|done].
    rewrite update_spec. destruct (nonEmpty _) eqn:E; [done|].
    unfold withOverrides. cbn [sent]. by rewrite Hnone.
  - destruct rf; cbn [negb andb]; [done|].
    destruct (size _ =? 0)%nat; [|done].
    destruct (attempt =? 0)%nat; cbn [andb overrides]; [|done].
    rewrite update_spec. destruct (nonEmpty _) eqn:E; [done|].
    unfold withOverrides. cbn [sent]. by rewrite Hnone.
Qed.

(** The second round is the last: it sends one request. *)
Lemma attemptLoop_last (attempt : nat) (filter : gmap string json) (w : World) :
  exists x r,
    attemptLoop backend fmtV 1 (S attempt) filter w =
      (r, {| overrides := overrides w; sent := (sent w ++ [x])%list |}) /\
    (r <> None -> failed (backend (length (sent w)) (fst x) (snd x)) = false).
Proof.
  rewrite attemptLoop_round. cbn zeta. cbn [Nat.eqb andb].
  eexists (_, _).
  destruct (backend _ _ _) as [| |st body rf] eqn:E;
    try (eexists; split; [reflexivity|done]).
  destruct (asksRetry st body rf) eqn:Hask; [eexists; split; [reflexivity|done]|].
  destruct rf; [eexists; split; [reflexivity|done]|].
  eexists. split; [reflexivity|]. intros _. cbn [fst snd]. rewrite E.
  unfold asksRetry in Hask. cbn [negb andb] in Hask.
  apply orb_false_iff in Hask as [H4 Hsz]. cbn [failed]. by rewrite H4, Hsz.
Qed.

Lemma attemptLoop_attempts (filter : gmap string json) (w : World) :
  let w' := snd (attemptLoop backend fmtV 2 0 filter w) in
  (1 <= attempts w w' <= 2)%nat /\
  (attempts w w' = 2%nat ->
   exists StatusCode body readFailed,
     backend (length (sent w)) (indexOf (stringField filter "type"))
       (filtersRequest (overrides w) filter) = HttpResponse StatusCode body readFailed /\
     ((400 <= StatusCode)%Z \/
      (readFailed = false /\ size (Aggregations (asResponse body)) = 0%nat)) /\
     raw body <> "" /\ matchesSignature body).
Proof.
  cbn zeta. rewrite attemptLoop_round. cbn zeta. cbn [Nat.eqb andb].
  destruct (backend _ _ _) as [| |st body rf] eqn:E; cbn [snd];
    rewrite ?attempts_one; try (split; [lia|done]).
  destruct (asksRetry st body rf) eqn:Hask.
  2:{ destruct rf; cbn [snd]; rewrite attempts_one; (split; [lia|done]). }
  destruct (nonEmpty (fieldsOfBody body)) eqn:Hne; cbn [snd].
  2:{ rewrite attempts_one. split; [lia|done]. }
  match goal with |- context [attemptLoop _ _ 1 1 filter ?w2] =>
    destruct (attemptLoop_last 0 filter w2) as (x & r & -> & _)
  end.
  unfold withOverrides. cbn [snd overrides sent]. rewrite attempts_two.
  split; [lia|]. intros _.
  exists st, body, rf. split; [done|].
  split; [|by apply fieldsOfBody_signature].
  unfold asksRetry in Hask. apply orb_true_iff in Hask as [H4|Hagg].
  - left. lia.
  - right. apply andb_true_iff in Hagg as [Hrf Hsz].
    split; [by destruct rf|by apply Nat.eqb_eq].
Qed.

(** A pair whose last request failed is not resolved. *)
Lemma attemptLoop_omits (filter : gmap string json) (w : World) :
  (exists outcome,
     lastOutcome backend (snd (attemptLoop backend fmtV 2 0 filter w)) = Some outcome /\
     failed outcome = true) ->
  fst (attemptLoop backend fmtV 2 0 filter w) = None.
Proof.
  rewrite attemptLoop_round. cbn zeta. cbn [Nat.eqb andb].
  destruct (backend _ _ _) as [| |st body rf] eqn:E; try done.
  destruct (asksRetry st body rf) eqn:Hask.
  - destruct (nonEmpty (fieldsOfBody body)); [|done].
    match goal with |- context [attemptLoop _ _ 1 1 filter ?w2] =>
      destruct (attemptLoop_last 0 filter w2) as ([i q] & r & -> & Hr)
    end.
    unfold withOverrides, lastOutcome in *. cbn [overrides sent fst snd] in *.
    rewrite last_snoc, !length_app. cbn [length].
    intros (outcome & [= <-] & Hfail).
    destruct r; [|done]. rewrite length_app in Hr. cbn [length] in Hr.
    replace (length (sent w) + 1 + 1 - 1)%nat with (length (sent w) + 1)%nat in Hfail
      by lia.
    rewrite Hr in Hfail; done.
  - unfold lastOutcome. destruct rf; [done|]. cbn [fst snd sent].
    rewrite last_snoc, length_app. cbn [length].
    replace (length (sent w) + 1 - 1)%nat with (length (sent w)) by lia.
    rewrite E.
    unfold asksRetry in Hask. cbn [negb andb] in Hask.
    apply orb_false_iff in Hask as [H4 Hsz].
    intros (outcome & [= <-] & Hfail). cbn [failed] in Hfail.
    by rewrite H4, Hsz in Hfail.
Qed.

Lemma fold_listOne (filters : list (gmap string json)) : forall acc w,
  fst (fold_left (listOne backend fmtV) filters (acc, w)) =
    (acc ++ omap id (pairResults backend fmtV filters w))%list.
Proof.
  induction filters as [|f filters IH]; intros acc w.
  - simpl. by rewrite app_nil_r.
  - cbn [fold_left pairResults]. unfold listOne at 2.
    destruct (attemptLoop backend fmtV 2 0 f w) as [[d|] w'].
    + rewrite IH. simpl. by rewrite <- app_assoc.
    + by rewrite IH.
Qed.

Lemma pairResults_length (filters : list (gmap string json)) : forall w,
  length (pairResults backend fmtV filters w) = length filters.
Proof.
  induction filters as [|f filters IH]; intros w; [done|].
  cbn [pairResults]. destruct (attemptLoop backend fmtV 2 0 f w) as [r w'].
  simpl. by rewrite IH.
Qed.

Lemma lastOutcome_snoc (o : gmap string string) (l : list (string * json))
    (index : string) (q : json) :
  lastOutcome backend {| overrides := o; sent := (l ++ [(index, q)])%list |} =
    Some (backend (length l) index q).
Proof.
  unfold lastOutcome. cbn [sent]. rewrite last_snoc, length_app. cbn [length].
  by replace (length l + 1 - 1)%nat with (length l) by lia.
Qed.

(** What a pair of [ListFilters] gives, by the answer to its last request. *)
Lemma attemptLoop_result (filter : gmap string json) (w : World) :
  exists outcome,
    lastOutcome backend (snd (attemptLoop backend fmtV 2 0 filter w)) = Some outcome /\
    fst (attemptLoop backend fmtV 2 0 filter w) =
      match outcome with
      | HttpResponse StatusCode body readFailed =>
          if failed outcome then None
          else filterData fmtV (stringField filter "type") (stringField filter "keys")
                 (Aggregations (asResponse body))
      | _ => None
      end.
Proof.
  assert (Hround : forall attempt w0,
    (attempt =? 0)%nat = false ->
    exists outcome,
      lastOutcome backend (snd (attemptLoop backend fmtV 1 attempt filter w0))
        = Some outcome /\
      fst (attemptLoop backend fmtV 1 attempt filter w0) =
        match outcome with
        | HttpResponse StatusCode body readFailed =>
            if failed outcome then None
            else filterData fmtV (stringField filter "type")
                   (stringField filter "keys") (Aggregations (asResponse body))
        | _ => None
        end).
  { intros attempt w0 Hatt. rewrite attemptLoop_round. cbn zeta.
    rewrite Hatt. cbn [andb].
    destruct (backend (length (sent w0)) _ _) as [| |st body rf] eqn:E.
    - eexists. cbn [snd fst]. rewrite lastOutcome_snoc, E. done.
    - eexists. cbn [snd fst]. rewrite lastOutcome_snoc, E. done.
    - exists (HttpResponse st body rf). unfold asksRetry. cbn [failed].
      destruct (400 <=? st)%Z; cbn [orb snd fst];
        [by rewrite lastOutcome_snoc, E|].
      destruct rf; cbn [negb andb orb snd fst]; [by rewrite lastOutcome_snoc, E|].
      destruct (size _ =? 0)%nat; cbn [snd fst]; by rewrite lastOutcome_snoc, E. }
  rewrite attemptLoop_round. cbn zeta. cbn [Nat.eqb andb].
  destruct (backend (length (sent w)) _ _) as [| |st body rf] eqn:E.
  - eexists. cbn [snd fst]. rewrite lastOutcome_snoc, E. done.
  - eexists. cbn [snd fst]. rewrite lastOutcome_snoc, E. done.
  - destruct (asksRetry st body rf) eqn:Hask.
    + destruct (nonEmpty (fieldsOfBody body)).
      * by apply Hround.
      * exists (HttpResponse st body rf). cbn [snd fst]. rewrite lastOutcome_snoc, E.
        split; [done|]. cbn [failed]. unfold asksRetry in Hask.
        destruct (400 <=? st)%Z; [done|]. destruct rf; [done|].
        cbn [orb negb andb] in *. by rewrite Hask.
    + exists (HttpResponse st body rf). unfold asksRetry in Hask. cbn [failed].
      destruct (400 <=? st)%Z; [done|]. destruct rf; cbn [orb negb andb snd fst] in *;
        [by rewrite lastOutcome_snoc, E|].
      by rewrite Hask, lastOutcome_snoc, E.
Qed.

(** The result of a pair is that of its run, in the state the pairs before
    it left. *)
Lemma pairResults_lookup (filters : list (gmap string json)) :
  forall w i filter,
    filters !! i = Some filter ->
    exists w0,
      pairResults backend fmtV filters w !! i =
        Some (fst (attemptLoop backend fmtV 2 0 filter w0)).
Proof.
  induction filters as [|f rest IH]; intros w i filter Hi; [done|].
  cbn [pairResults]. destruct (attemptLoop backend fmtV 2 0 f w) as [r w'] eqn:E.
  destruct i as [|i].
  - injection Hi as ->. exists w. by rewrite E.
  - exact (IH w' i filter Hi).
Qed.

End ExecutorFacts.

(** ** The retry protocol *)

(** C3.  A run of the retrying executor, and the retry loop of one pair of
    [ListFilters], send at most two requests.  When two are sent, the first
    answer of the executor had no hits and a non-empty body; the first
    answer in [ListFilters] was an error status, from which no hits are
    read, or a body without aggregations; in both the body was non-empty and a
    root-cause reason held one of the two phrases together with a text in
    brackets. *)
Theorem retry_at_most_once (backend : Backend) (fmtV : json -> string)
    (index : string) (buildQuery : gmap string string -> Go json)
    (filter : gmap string json) (w : World) :
  (let w' := snd (executeSearchWithRetry backend index buildQuery w) in
   (attempts w w' <= 2)%nat /\
   (attempts w w' = 2%nat ->
    exists q1 resp1 body1,
      buildQuery (overrides w) = Ok q1 /\
      fst (executeElasticQuery backend index q1 w) = (resp1, body1) /\
      Hits (HitsOf resp1) = None /\ raw body1 <> "" /\ matchesSignature body1)) /\
  (let w' := snd (attemptLoop backend fmtV 2 0 filter w) in
   (1 <= attempts w w' <= 2)%nat /\
   (attempts w w' = 2%nat ->
    exists StatusCode body readFailed,
      backend (length (sent w)) (indexOf (stringField filter "type"))
        (filtersRequest (overrides w) filter) = HttpResponse StatusCode body readFailed /\
      ((400 <= StatusCode)%Z \/
       (readFailed = false /\ size (Aggregations (asResponse body)) = 0%nat)) /\
      raw body <> "" /\ matchesSignature body)).
Proof.
  split.
  - apply executeSearchWithRetry_attempts.
  - apply attemptLoop_attempts.
Qed.

(** C1 fails.  With [publisherName] already in the table and a backend that
    keeps answering with the fielddata error on [publisherName], the
    executor sends a second request although the table is left as it was. *)
Lemma known_override_still_retries :
  let run := executeSearchWithRetry (fielddataBackend "publisherName") "dataset"
               termsQuery knownOverride in
  fieldsOfBody (errorBody (fielddataReason "publisherName")) = ["publisherName"] /\
  overrides knownOverride !! "publisherName" = Some "publisherName.keyword" /\
  attempts knownOverride (snd run) = 2%nat /\
  overrides (snd run) = overrides knownOverride /\
  ~ retriesOnlyOnNewOverride.
Proof.
  assert (H2 : attempts knownOverride
                 (snd (executeSearchWithRetry (fielddataBackend "publisherName")
                         "dataset" termsQuery knownOverride)) = 2%nat)
    by (vm_compute; reflexivity).
  assert (Ho : overrides
                 (snd (executeSearchWithRetry (fielddataBackend "publisherName")
                         "dataset" termsQuery knownOverride)) = overrides knownOverride)
    by (vm_compute; reflexivity).
  cbn zeta. split; [vm_compute; reflexivity|]. split; [vm_compute; reflexivity|].
  split; [exact H2|]. split; [exact Ho|].
  intros Hclaim.
  destruct (Hclaim (fielddataBackend "publisherName") "dataset" termsQuery
              knownOverride H2) as (key & Hnone & Hsome).
  rewrite Ho, Hnone in Hsome. by destruct Hsome.
Qed.

(** C1, amended.  Whether a second request is sent depends on the first
    answer alone: it is sent exactly when that answer has no hits, a
    non-empty body, and names a usable field under a known signature, be the
    field new to the table or not.  Otherwise the first answer is final and
    the table is unchanged.  When every field named is in the table already,
    the second request is built from the unchanged table; its answer is
    what the executor returns. *)
Theorem second_attempt_on_usable_field (backend : Backend) (index : string)
    (buildQuery : gmap string string -> Go json) (w : World) (q1 : json) :
  buildQuery (overrides w) = Ok q1 ->
  let first := executeElasticQuery backend index q1 w in
  let body1 := snd (fst first) in
  let run := executeSearchWithRetry backend index buildQuery w in
  if hitsPresent (fst (fst first)) || (len body1 =? 0)%nat
     || negb (nonEmpty (fieldsOfBody body1))
  then run = (Ok (fst first), snd first) /\ attempts w (snd run) = 1%nat
  else
    let o1 := fold_left register (fieldsOfBody body1) (overrides w) in
    ((forall field, field ∈ fieldsOfBody body1 -> is_Some (overrides w !! field)) ->
     o1 = overrides w) /\
    forall q2, buildQuery o1 = Ok q2 ->
      fst run = Ok (fst (executeElasticQuery backend index q2 (withOverrides o1 (snd first)))) /\
      attempts w (snd run) = 2%nat.
Proof.
  intros Hq1. cbn zeta. rewrite executeSearchWithRetry_run, Hq1.
  pose proof (executeElasticQuery_world backend index q1 w) as Hw1.
  destruct (executeElasticQuery backend index q1 w) as [[resp1 body1] w1].
  cbn [fst snd] in *. subst w1.
  destruct (hitsPresent resp1 || (len body1 =? 0)%nat
            || negb (nonEmpty (fieldsOfBody body1))).
  - split; [done|]. apply attempts_one.
  - split; [apply fold_register_known|].
    intros q2 Hq2. cbn zeta. rewrite Hq2.
    match goal with |- context [executeElasticQuery backend index q2 ?w2] =>
      pose proof (executeElasticQuery_world backend index q2 w2) as Hw3;
      destruct (executeElasticQuery backend index q2 w2) as [[resp2 body2] w3]
    end.
    unfold withOverrides in Hw3. cbn [fst snd overrides sent] in *. subst w3.
    destruct (_ || _); cbn [fst snd]; unfold withOverrides; cbn [sent];
      (split; [done|apply attempts_two]).
Qed.

Lemma second_attempt_on_usable_field_witness :
  termsQuery (overrides knownOverride) = Ok (H [("field", JStr "publisherName.keyword")]) /\
  attempts knownOverride
    (snd (executeSearchWithRetry (fielddataBackend "publisherName") "dataset"
            termsQuery knownOverride)) = 2%nat.
Proof.
  split; [reflexivity|].
  pose proof (second_attempt_on_usable_field (fielddataBackend "publisherName")
                "dataset" termsQuery knownOverride
                (H [("field", JStr "publisherName.keyword")]) eq_refl) as Hrun.
  cbn zeta in Hrun.
  change (hitsPresent _ || _ || _) with false in Hrun.
  cbv iota in Hrun.
  destruct Hrun as [_ Hrun].
  exact (proj2 (Hrun (H [("field", JStr "publisherName.keyword")]) eq_refl)).
Defined.

(** ** Filter listing *)

(** C9.  [ListFilters] answers with status 200.  Its [filters] entry holds
    the payloads of the pairs that were resolved, in input order, and nothing
    for the others.  Every pair is run in the state the pairs before it
    left, and what it gives is read off the answer to its last request: it
    is not resolved when that request met a transport error, no response, an
    error status, an unreadable body or a body without aggregations, nor,
    for the keys [dateRange] and [publicationDate], when [safeAggValue]
    finds no value for [startDate] or for [endDate]; in every other case it
    is resolved, with the two date buckets or with the aggregations of the
    answer. *)
Theorem ListFilters_partial_success (backend : Backend) (fmtV : json -> string)
    (filters : list (gmap string json)) (w : World) :
  let response := fst (ListFilters backend fmtV filters w) in
  let resolved := pairResults backend fmtV filters w in
  fst response = 200%Z /\
  snd response = H [("filters", sliceJSON (omap id resolved))] /\
  length resolved = length filters /\
  (forall i filter,
     filters !! i = Some filter ->
     exists w0,
       resolved !! i = Some (fst (attemptLoop backend fmtV 2 0 filter w0))) /\
  (forall filter w0,
     let run := attemptLoop backend fmtV 2 0 filter w0 in
     let filterType := stringField filter "type" in
     let filterKey := stringField filter "keys" in
     exists outcome,
       lastOutcome backend (snd run) = Some outcome /\
       fst run =
         match outcome with
         | HttpResponse StatusCode body readFailed =>
             let aggs := Aggregations (asResponse body) in
             if failed outcome then None
             else if String.eqb filterKey "dateRange"
                     || String.eqb filterKey "publicationDate" then
               match safeAggValue fmtV aggs "startDate",
                     safeAggValue fmtV aggs "endDate" with
               | Some startDate, Some endDate =>
                   Some (H [(filterType,
                             H [(filterKey,
                                 H [("buckets",
                                     JArr [H [("key", JStr "startDate");
                                              ("value", JStr startDate)];
                                           H [("key", JStr "endDate");
                                              ("value", JStr endDate)]])])])])
               | _, _ => None
               end
             else Some (H [(filterType, JObj aggs)])
         | _ => None
         end).
Proof.
  cbn zeta. unfold ListFilters.
  pose proof (fold_listOne backend fmtV filters [] w) as Hfold.
  destruct (fold_left (listOne backend fmtV) filters ([], w)) as [allFilters w'].
  cbn [fst snd] in *. subst allFilters.
  split; [done|]. split; [done|].
  split; [apply pairResults_length|].
  split; [apply pairResults_lookup|].
  intros filter w0.
  destruct (attemptLoop_result backend fmtV filter w0) as (outcome & Hlast & Hrun).
  exists outcome. split; [exact Hlast|]. rewrite Hrun.
  destruct outcome as [| |st body rf]; [done|done|].
  destruct (failed _); [done|]. unfold filterData, dateBuckets.
  destruct (_ || _); [|done].
  destruct (safeAggValue fmtV _ "startDate") as [s|]; [|done].
  by destruct (safeAggValue fmtV _ "endDate").
Qed.

(** C9 as it is worded fails.  A pair for [dateRange] whose only request
    is answered with status 200 and the aggregations [startDate] and
    [endDate], both without a value, is omitted: its request did not fail
    and its answer holds aggregations. *)
Theorem date_pair_without_values_is_omitted : ~ remainingPairsSucceed.
Proof.
  intros Hclaim.
  destruct (Hclaim nullDatesBackend (fun _ => "") (dateRangeOf "dataset")
              {| overrides := ∅; sent := [] |}
              (HttpResponse 200 nullDatesBody false))
    as [payload Hpayload].
  - vm_compute. reflexivity.
  - vm_compute. reflexivity.
  - vm_compute in Hpayload. discriminate.
Qed.

Example ListFilters_skips_failed_pair :
  let run := ListFilters secondFails (fun _ => "")
               [publisherOf "dataset"; publisherOf "tool"; publisherOf "paper"]
               {| overrides := ∅; sent := [] |} in
  fst run =
    (200%Z, H [("filters", JArr [H [("dataset", JObj publisherBuckets)];
                                 H [("paper", JObj publisherBuckets)]])]) /\
  fst <$> sent (snd run) = ["dataset"; "tool"; "publication"].
Proof. cbn zeta. split; vm_compute; reflexivity. Qed.

(** ** The invariant of the override table *)

(** C10 fails.  A bracketed [.keyword] is stored under the empty key, and a
    bracketed name that carries the suffix twice is stored under a key that
    still ends in it. *)
Lemma override_keys_not_normalised :
  snd (updateAggregationOverridesFromError
         (errorBody (fielddataReason ".keyword")) ∅) !! "" = Some ".keyword" /\
  snd (updateAggregationOverridesFromError
         (errorBody (fielddataReason "title.keyword.keyword")) ∅) !! "title.keyword"
    = Some "title.keyword.keyword" /\
  HasSuffix "title.keyword" ".keyword" = true /\
  ~ (forall body o, keysNormalised o ->
       keysNormalised (snd (updateAggregationOverridesFromError body o))).
Proof.
  assert (H1 : snd (updateAggregationOverridesFromError
                      (errorBody (fielddataReason ".keyword")) ∅) !! ""
               = Some ".keyword") by (vm_compute; reflexivity).
  split; [exact H1|]. split; [vm_compute; reflexivity|]. split; [reflexivity|].
  intros Hinv.
  assert (H0 : keysNormalised ∅) by (intros key override; by rewrite lookup_empty).
  destruct (Hinv _ _ H0 _ _ H1) as [Hne _]. by apply Hne.
Qed.

Lemma fold_register_keeps (fields : list string) : forall o key override,
  o !! key = Some override -> fold_left register fields o !! key = Some override.
Proof.
  induction fields as [|f fields IH]; intros o key override Hk; [done|].
  cbn [fold_left]. apply IH. unfold register.
  destruct (o !! f) eqn:Ef; [done|].
  rewrite lookup_insert_ne; [done|]. intros <-. by rewrite Ef in Hk.
Qed.

Lemma fold_register_new (fields : list string) : forall o key,
  o !! key = None -> is_Some (fold_left register fields o !! key) -> key ∈ fields.
Proof.
  induction fields as [|f fields IH]; intros o key Hnone Hsome.
  - simpl in Hsome. rewrite Hnone in Hsome. by destruct Hsome.
  - destruct (decide (f = key)) as [->|Hne]; [apply elem_of_cons; by left|].
    apply elem_of_cons. right. apply (IH (register o f)); [|done].
    unfold register. destruct (o !! f); [done|]. by rewrite lookup_insert_ne.
Qed.

(** C10, amended.  [updateAggregationOverridesFromError], the one caller of
    [setAggregationFieldOverride], keeps this invariant: a stored key
    contains no space and its value is the key with [.keyword] appended.  An
    entry that is there stays as it is; a key that is added is the text of a
    bracket with white space trimmed and one [.keyword] suffix removed.  A
    key without entry resolves to itself. *)
Theorem overrides_wellKeyed (body : Body) (o : gmap string string) :
  wellKeyed o ->
  let o' := snd (updateAggregationOverridesFromError body o) in
  wellKeyed o' /\
  (forall key override, o !! key = Some override -> o' !! key = Some override) /\
  (forall key, o !! key = None -> is_Some (o' !! key) -> key ∈ fieldsOfBody body) /\
  (forall key, o' !! key = None -> resolveAggregationField o' key = key).
Proof.
  intros Ho. cbn zeta. rewrite update_spec. cbn [snd].
  split; [|split; [|split]].
  - apply fold_register_wellKeyed; [apply fieldsOfBody_no_space|done].
  - apply fold_register_keeps.
  - apply fold_register_new.
  - intros key Hnone. unfold resolveAggregationField. by rewrite Hnone.
Qed.

Lemma overrides_wellKeyed_witness :
  wellKeyed ∅ /\
  wellKeyed (snd (updateAggregationOverridesFromError
                    (errorBody (fielddataReason "publisherName")) ∅)).
Proof.
  assert (H0 : wellKeyed ∅) by (intros key override; by rewrite lookup_empty).
  split; [exact H0|].
  exact (proj1 (overrides_wellKeyed (errorBody (fielddataReason "publisherName")) ∅ H0)).
Defined.

(** ** The filter clauses *)

Section Clauses.

Import Translator.

Lemma terms_fold (key : string) (ts : list json) : forall acc,
  fold_left (fun filters t => (filters ++ [H [("term", H [(key, t)])]])%list) ts acc =
    (acc ++ (termOf key <$> ts))%list.
Proof.
  induction ts as [|t ts IH]; intros acc; simpl.
  - by rewrite app_nil_r.
  - rewrite IH. by rewrite <- app_assoc.
Qed.

Lemma termsClause_list (key : string) (values : list json) :
  termsClause key (JArr values) = Ok (anyOf (termOf key <$> values)).
Proof. unfold termsClause. simpl. by rewrite terms_fold. Qed.

Lemma termsClause_not_list (key : string) (value : json) :
  isList value = false -> exists why, termsClause key value = Panic why.
Proof. destruct value; try done; intros _; by eexists. Qed.

(** A well-shaped entry yields the clause the specification words. *)
Lemma clause_emits (e : Entity) (key : string) (value : json) :
  wellShaped e (key, value) = true ->
  exists c, clause e key value = Ok c /\ emits e key value c.
Proof.
  assert (Hterms : forall e', 
            (e' = Dataset -> key <> "dateRange" /\ key <> "populationSize") ->
            (e' = Publication -> key <> "publicationDate") ->
            isList value = true ->
            exists c, termsClause key value = Ok c /\ emits e' key value c).
  { intros e' H1 H2 Hl. destruct value as [| | | |values|]; try done.
    eexists. split; [apply termsClause_list|]. by constructor. }
  destruct e; cbn [wellShaped clause]; try (by apply Hterms).
  - unfold datasetClause.
    destruct (String.eqb_spec key "dateRange") as [->|Hd].
    { destruct value as [| | | |[|lo [|hi more]]|]; try done. intros _.
      eexists. split; [reflexivity|]. constructor. }
    destruct (String.eqb_spec key "populationSize") as [->|Hp].
    { destruct value as [| | | | |m]; try done. cbn [isPopulationRange].
      destruct (m !! "includeUnreported") as [[|[|]| | | |]|] eqn:E; try done; intros _.
      - eexists. split.
        + unfold populationSizeClause. cbn [asMap bindGo]. rewrite E. reflexivity.
        + by constructor.
      - eexists. split.
        + unfold populationSizeClause. cbn [asMap bindGo]. rewrite E. reflexivity.
        + by constructor. }
    by apply Hterms.
  - unfold publicationClause.
    destruct (String.eqb_spec key "publicationDate") as [->|Hd].
    { destruct value as [| | | |[|lo [|hi more]]|]; try done. intros _.
      eexists. split; [reflexivity|]. constructor. }
    by apply Hterms.
Qed.

(** An entry of another shape makes the translator panic. *)
Lemma clause_panics (e : Entity) (key : string) (value : json) :
  wellShaped e (key, value) = false -> exists why, clause e key value = Panic why.
Proof.
  destruct e; cbn [wellShaped clause]; try apply termsClause_not_list.
  - unfold datasetClause.
    destruct (String.eqb key "dateRange").
    { destruct value as [| | | |[|lo [|hi more]]|]; try done; intros _; by eexists. }
    destruct (String.eqb key "populationSize"); [|apply termsClause_not_list].
    destruct value as [| | | | |m]; try done; try (intros _; by eexists).
    cbn [isPopulationRange]. unfold populationSizeClause. cbn [asMap bindGo].
    destruct (m !! "includeUnreported") as [[| | | | |]|]; try done; intros _; by eexists.
  - unfold publicationClause.
    destruct (String.eqb key "publicationDate"); [|apply termsClause_not_list].
    destruct value as [| | | |[|lo [|hi more]]|]; try done; intros _; by eexists.
Qed.

Lemma filterLoop_ok (e : Entity) (entries : list (string * json)) : forall acc,
  forallb (wellShaped e) entries = true ->
  exists clauses,
    filterLoop (clause e) entries acc = Ok (acc ++ clauses)%list /\
    Forall2 (fun entry c => emits e (fst entry) (snd entry) c) entries clauses.
Proof.
  induction entries as [|[key value] entries IH]; intros acc Hall.
  - exists []. split; [by rewrite app_nil_r|constructor].
  - cbn [forallb] in Hall. apply andb_true_iff in Hall as [Hw Hall].
    destruct (clause_emits e key value Hw) as (c & Hc & Hem).
    destruct (IH (acc ++ [c])%list Hall) as (cs & Hcs & Hf).
    exists (c :: cs). split.
    + cbn [filterLoop bindGo]. rewrite Hc. cbn [bindGo]. rewrite Hcs.
      by rewrite <- app_assoc.
    + by constructor.
Qed.

Lemma filterLoop_panics (e : Entity) (entries : list (string * json)) : forall acc,
  forallb (wellShaped e) entries = false ->
  exists why, filterLoop (clause e) entries acc = Panic why.
Proof.
  induction entries as [|[key value] entries IH]; intros acc Hall; [done|].
  cbn [forallb] in Hall. cbn [filterLoop].
  destruct (wellShaped e (key, value)) eqn:Hw.
  - destruct (clause_emits e key value Hw) as (c & -> & _). cbn [bindGo].
    by apply IH.
  - destruct (clause_panics e key value Hw) as (why & ->). by eexists.
Qed.

End Clauses.

(** C2.  The translators do not skip a filter of an unexpected shape: the
    tools translator panics on a [license] filter that is a string, in
    whichever order the loop meets the two filters, and no document is
    produced.  So does every translator on every bucket that has an entry of
    another shape than its key requires. *)
Theorem malformed_filter_panics
    (staticPart : string -> Query -> gmap string json)
    (buildAggregations : gmap string string -> Query -> list json -> string -> json)
    (o : gmap string string) :
  Translator.toolsElasticConfig staticPart buildAggregations o malformedToolQuery =
    Panic "interface conversion" /\
  Translator.toolsElasticConfig staticPart buildAggregations o malformedToolQueryReversed =
    Panic "interface conversion" /\
  (forall (e : Entity) (query : Query),
     isOk (Translator.elasticConfig staticPart buildAggregations e o query) =
       forallb (wellShaped e) (bucket query (bucketName e))).
Proof.
  split; [reflexivity|]. split; [reflexivity|].
  intros e query. unfold Translator.elasticConfig.
  destruct (forallb (wellShaped e) (bucket query (bucketName e))) eqn:Hall.
  - destruct (filterLoop_ok e _ [] Hall) as (cs & -> & _). done.
  - destruct (filterLoop_panics e _ [] Hall) as (why & ->). done.
Qed.

(** C4 fails.  The tools translator has no range branch: a [dateRange]
    filter under [tool] yields one term clause per value and no range
    clause. *)
Lemma tool_dateRange_is_terms :
  Translator.filterLoop (Translator.clause Tool)
    [("dateRange", JArr [JStr "2020-01-01"; JStr "2021-12-31"])] [] =
    Ok [anyOf [termOf "dateRange" (JStr "2020-01-01");
               termOf "dateRange" (JStr "2021-12-31")]] /\
  Translator.filterLoop (Translator.clause Tool)
    [("dateRange", JArr [JStr "2020-01-01"; JStr "2021-12-31"])] [] <>
    Ok [allOf [rangeOf "startDate" [("lte", JStr "2021-12-31")];
               rangeOf "endDate" [("gte", JStr "2020-01-01")]]].
Proof.
  split; [reflexivity|].
  intros Heq.
  apply (f_equal (fun r =>
    match r with
    | Ok [JObj m] =>
        match m !! "bool" with
        | Some (JObj b) => bool_decide (is_Some (b !! "should"))
        | _ => false
        end
    | _ => false
    end)) in Heq.
  vm_compute in Heq. discriminate.
Qed.

(** C4, amended.  For every entity type, a bucket whose values have the
    shape their keys require is translated into one clause per key, in the
    order of the loop, joined under [bool.must].  A key yields the [bool.should]
    of one term clause per value, except for [dateRange] and [populationSize]
    in the dataset translator and [publicationDate] in the publication
    translator, which yield range clauses; [populationSize] with
    [includeUnreported] true yields the [bool.should] of its range clause and
    the term clause on [-1]. *)
Theorem filter_clauses_per_translator
    (staticPart : string -> Query -> gmap string json)
    (buildAggregations : gmap string string -> Query -> list json -> string -> json)
    (e : Entity) (o : gmap string string) (query : Query) :
  forallb (wellShaped e) (bucket query (bucketName e)) = true ->
  exists clauses doc,
    Translator.elasticConfig staticPart buildAggregations e o query = Ok (JObj doc) /\
    doc !! "post_filter" = Some (allOf clauses) /\
    Forall2 (fun entry c => emits e (fst entry) (snd entry) c)
      (bucket query (bucketName e)) clauses.
Proof.
  intros Hall. unfold Translator.elasticConfig.
  destruct (filterLoop_ok e _ [] Hall) as (cs & -> & Hf).
  exists cs. eexists. split; [reflexivity|]. split; [|done].
  by rewrite lookup_insert_eq.
Qed.

Lemma filter_clauses_per_translator_witness :
  forallb (wellShaped Dataset) (bucket populationQuery (bucketName Dataset)) = true /\
  exists clauses doc,
    Translator.elasticConfig (fun _ _ => ∅) (fun _ _ _ _ => JNull) Dataset ∅
      populationQuery = Ok (JObj doc) /\
    doc !! "post_filter" = Some (allOf clauses) /\
    Forall2 (fun entry c => emits Dataset (fst entry) (snd entry) c)
      (bucket populationQuery (bucketName Dataset)) clauses.
Proof.
  split; [reflexivity|].
  apply (filter_clauses_per_translator (fun _ _ => ∅) (fun _ _ _ _ => JNull)
           Dataset ∅ populationQuery).
  reflexivity.
Defined.

(** ** Aggregation flattening *)

Section Flatten.

Lemma flattenStep_flat (acc : gmap string json) (k : string) (o : gmap string json) :
  rangeKey k = false -> o !! k = None ->
  flattenStep acc (k, JObj o) = <[k := JObj o]> acc.
Proof. unfold flattenStep, rangeKey. by intros -> ->. Qed.

Lemma flattenStep_keys (acc : gmap string json) (entry : string * json) (k : string) :
  is_Some (flattenStep acc entry !! k) ->
  is_Some (acc !! k) \/ rangeKey k = false.
Proof.
  destruct entry as [k' agg]. unfold flattenStep.
  destruct agg as [| | | | |aggMap]; try by left.
  fold (rangeKey k'). destruct (rangeKey k') eqn:Hr.
  - destruct (aggMap !! "startDate"), (aggMap !! "endDate");
      rewrite ?lookup_insert; repeat case_decide; subst; auto.
  - destruct (aggMap !! k'); rewrite lookup_insert; case_decide; subst; auto.
Qed.

Lemma flattenAggs_keys (entries : list (string * json)) : forall acc k,
  is_Some (fold_left flattenStep entries acc !! k) ->
  is_Some (acc !! k) \/ rangeKey k = false.
Proof.
  induction entries as [|entry entries IH]; intros acc k; [by left|].
  cbn [fold_left]. intros [H|H]%IH; [|by right].
  by apply flattenStep_keys in H.
Qed.

Lemma fold_flattenStep_flat (entries : list (string * json)) : forall acc,
  (forall entry, entry ∈ entries -> rangeKey (fst entry) = false /\ flatEntry entry = true) ->
  fold_left flattenStep entries acc =
    foldr (fun entry m => <[fst entry := snd entry]> m) acc (reverse entries).
Proof.
  induction entries as [|[k v] entries IH]; intros acc Hflat; [done|].
  cbn [fold_left]. rewrite reverse_cons, foldr_snoc. cbn [fst snd].
  destruct (Hflat (k, v)) as (Hr & Hf); [apply elem_of_cons; by left|].
  unfold flatEntry in Hf. cbn [fst snd] in *.
  destruct v as [| | | | |o]; try done.
  destruct (o !! k) eqn:Ho; [done|].
  rewrite flattenStep_flat by done.
  apply IH. intros entry Hin. apply Hflat, elem_of_cons. by right.
Qed.

(** Flattening a flat map, in any order of its entries, gives it back. *)
Lemma flattenAggs_flat (m : gmap string json) (entries : list (string * json)) :
  flat m = true -> (forall k, is_Some (m !! k) -> rangeKey k = false) ->
  rangeOrder m entries -> flattenAggs entries = m.
Proof.
  intros Hflat Hkeys Hord. unfold flattenAggs, rangeOrder in *.
  rewrite fold_flattenStep_flat.
  - change (list_to_map (reverse entries) = m).
    rewrite <- (list_to_map_to_list m). apply list_to_map_proper.
    + rewrite fmap_reverse, reverse_Permutation, Hord.
      apply NoDup_fst_map_to_list.
    + by rewrite reverse_Permutation.
  - intros [k v] Hin. rewrite Hord in Hin. split.
    + apply elem_of_map_to_list in Hin. apply Hkeys. by exists v.
    + unfold flat in Hflat. rewrite forallb_forall in Hflat.
      apply Hflat. by apply list_elem_of_In.
Qed.

End Flatten.

(** C7 fails.  For a terms aggregation on a field called [buckets], the
    first pass hoists the inner object; that object has a member [buckets]
    itself, which the second pass hoists again. *)
Lemma flattenAggs_not_idempotent :
  let once := flattenAggs bucketsAggregation in
  let twice := flattenAggs (map_to_list once) in
  rangeOrder once (map_to_list once) /\
  twice !! "buckets" = Some (JArr [H [("key", JStr "a"); ("doc_count", JInt 2)]]) /\
  once !! "buckets" <> twice !! "buckets" /\
  twice <> once.
Proof.
  cbn zeta.
  assert (H2 : flattenAggs (map_to_list (flattenAggs bucketsAggregation)) !! "buckets"
               = Some (JArr [H [("key", JStr "a"); ("doc_count", JInt 2)]]))
    by (vm_compute; reflexivity).
  assert (H1 : flattenAggs bucketsAggregation !! "buckets" <>
               flattenAggs (map_to_list (flattenAggs bucketsAggregation)) !! "buckets").
  { rewrite H2. intros Heq.
    apply (f_equal (fun r => match r with Some (JObj _) => true | _ => false end)) in Heq.
    vm_compute in Heq. discriminate. }
  split; [unfold rangeOrder; reflexivity|].
  split; [exact H2|]. split; [exact H1|].
  intros Heq. apply H1. rewrite Heq at 1. reflexivity.
Qed.

(** C7, amended.  When the output of the normaliser is flat, that is, each of
    its values is an object without a member under its own key, a second
    pass over it, in any order, returns it unchanged. *)
Theorem flattenAggs_idempotent_on_flat (entries again : list (string * json)) :
  flat (flattenAggs entries) = true ->
  rangeOrder (flattenAggs entries) again ->
  flattenAggs again = flattenAggs entries.
Proof.
  intros Hflat Hord. apply flattenAggs_flat; [done| |done].
  intros k Hk. unfold flattenAggs in Hk.
  apply flattenAggs_keys in Hk as [Hk|Hk]; [|done].
  rewrite lookup_empty in Hk. by destruct Hk.
Qed.

Lemma flattenAggs_idempotent_on_flat_witness :
  flat (flattenAggs publisherAggregation) = true /\
  flattenAggs (map_to_list (flattenAggs publisherAggregation)) =
    flattenAggs publisherAggregation.
Proof.
  split; [vm_compute; reflexivity|].
  apply (flattenAggs_idempotent_on_flat publisherAggregation
           (map_to_list (flattenAggs publisherAggregation))).
  - vm_compute. reflexivity.
  - unfold rangeOrder. reflexivity.
Defined.

(** ** The fan-out *)

(** C6 fails on a query with a misshapen filter.  The goroutine
    [toolChannel] runs [toolSearch] before it sends; on the tools query
    whose [license] filter is a string the search panics while it
    translates, in either order of the loop over the filters, whatever the
    backend, the environment and the override table, and before any request
    is sent.  Nothing recovers the panic, so [SearchGeneric] writes no
    map for this query. *)
Theorem fan_out_branch_panics (backend : Backend) (rt : Runtime)
    (visit : gmap string json -> list (string * json)) (zero : bool) (w : World) :
  EntitySearch.search backend rt Tool visit zero malformedToolQuery w =
    (Panic "interface conversion", w) /\
  EntitySearch.search backend rt Tool visit zero malformedToolQueryReversed w =
    (Panic "interface conversion", w).
Proof. split; reflexivity. Qed.

(** * Further properties *)

(** ** The override table and the recovery step *)

Lemma fold_register_mem (fields : list string) : forall o key,
  key ∈ fields -> is_Some (fold_left register fields o !! key).
Proof.
  induction fields as [|f fields IH]; intros o key Hin;
    [by apply elem_of_nil in Hin|].
  cbn [fold_left]. apply elem_of_cons in Hin as [Heq|Hin]; [subst f|by apply IH].
  assert (Hf : is_Some (register o key !! key)).
  { unfold register. destruct (o !! key) eqn:E; [by rewrite E|].
    by rewrite lookup_insert_eq. }
  destruct Hf as [v Hv]. exists v. by apply fold_register_keeps.
Qed.

(** X1.  After [setAggregationFieldOverride key override], [key] resolves to
    [override], every other key resolves as before, and the table has the
    keys it had and [key]. *)
Theorem override_read_back (key override : string) (o : gmap string string) :
  let o' := setAggregationFieldOverride key override o in
  resolveAggregationField o' key = override /\
  (forall k, k <> key -> resolveAggregationField o' k = resolveAggregationField o k) /\
  dom o' = {[ key ]} ∪ dom o.
Proof.
  cbn zeta. split; [|split].
  - rewrite resolve_after_set. by rewrite decide_True.
  - intros k Hk. rewrite resolve_after_set. by rewrite decide_False.
  - rewrite setAggregationFieldOverride_insert. apply dom_insert_L.
Qed.

(** X2.  Running the recovery step a second time on the same body returns
    the same flag and leaves the table as the first run left it. *)
Theorem update_twice (body : Body) (o : gmap string string) :
  let once := updateAggregationOverridesFromError body o in
  updateAggregationOverridesFromError body (snd once) = once.
Proof.
  cbn zeta. rewrite !update_spec. cbn [snd]. f_equal.
  apply fold_register_known. intros field Hin. by apply fold_register_mem.
Qed.

(** X3.  The flag of the recovery step depends on the body alone, not on
    the table; and when the flag is false the table is left untouched. *)
Theorem update_flag (body : Body) (o o' : gmap string string) :
  fst (updateAggregationOverridesFromError body o) =
  fst (updateAggregationOverridesFromError body o') /\
  (fst (updateAggregationOverridesFromError body o) = false ->
   snd (updateAggregationOverridesFromError body o) = o).
Proof.
  rewrite !update_spec. cbn [fst snd]. split; [done|].
  by destruct (fieldsOfBody body).
Qed.

(** X4.  A body none of whose root causes has both a signature phrase and a
    text in brackets registers nothing: the flag is false and the table is
    unchanged.  This covers the empty body, the body that does not decode and
    the envelope without [root_cause]. *)
Theorem update_needs_signature (body : Body) (o : gmap string string) :
  (forall cause, cause ∈ rootCausesOf body ->
     knownSignature (Reason cause) = false \/ FindAllFields (Reason cause) = []) ->
  updateAggregationOverridesFromError body o = (false, o).
Proof.
  intros Hnone. rewrite update_spec.
  assert (Hf : fieldsOfBody body = []).
  { unfold fieldsOfBody. induction (rootCausesOf body) as [|c cs IH]; [done|].
    rewrite bind_cons, IH.
    - rewrite app_nil_r. unfold fieldsOfCause.
      destruct (Hnone c) as [-> | ->]; [apply elem_of_cons; by left|done|].
      by destruct (knownSignature (Reason c)).
    - intros cause Hin. apply Hnone, elem_of_cons. by right. }
  by rewrite Hf.
Qed.

Lemma update_needs_signature_witness :
  length (rootCausesOf unrecoverableBody) = 2%nat /\
  updateAggregationOverridesFromError unrecoverableBody (overrides knownOverride) =
    (false, overrides knownOverride).
Proof.
  split; [reflexivity|].
  apply (update_needs_signature unrecoverableBody (overrides knownOverride)).
  intros cause Hin. vm_compute in Hin.
  apply elem_of_cons in Hin as [-> | Hin]; [left; vm_compute; reflexivity|].
  apply elem_of_cons in Hin as [-> | Hin]; [right; vm_compute; reflexivity|].
  by apply elem_of_nil in Hin.
Defined.

(** X5.  Every key the recovery step adds is read from a root cause whose
    reason has a signature phrase: it is a non-empty text standing in
    brackets in that reason, trimmed and with one [.keyword] suffix removed,
    and it is stored with [.keyword] appended. *)
Theorem update_provenance (body : Body) (o : gmap string string) (key : string) :
  let o' := snd (updateAggregationOverridesFromError body o) in
  o !! key = None -> is_Some (o' !! key) ->
  o' !! key = Some (key ++ ".keyword") /\
  exists cause text,
    cause ∈ rootCausesOf body /\ knownSignature (Reason cause) = true /\
    text <> "" /\ Contains (Reason cause) ("[" ++ text ++ "]") = true /\
    key = TrimSuffix (TrimSpace text) ".keyword".
Proof.
  cbn zeta. rewrite update_spec. cbn [snd]. intros Hnone Hsome. split.
  - clear -Hnone Hsome. revert o Hnone Hsome.
    induction (fieldsOfBody body) as [|f fields IH]; intros o Hnone Hsome.
    + simpl in Hsome. rewrite Hnone in Hsome. by destruct Hsome.
    + cbn [fold_left] in *. destruct (decide (f = key)) as [->|Hne].
      * apply fold_register_keeps. unfold register. rewrite Hnone.
        apply lookup_insert_eq.
      * apply IH; [|done]. unfold register. destruct (o !! f); [done|].
        by rewrite lookup_insert_ne.
  - apply fold_register_new in Hsome; [|done].
    unfold fieldsOfBody in Hsome.
    apply list_elem_of_bind in Hsome as (cause & Hin & Hcause).
    unfold fieldsOfCause in Hin.
    destruct (knownSignature (Reason cause)) eqn:Hsig;
      [|by apply elem_of_nil in Hin].
    apply list_elem_of_omap in Hin as (text & Htext & Hus).
    apply FindAllFields_bracketed in Htext as [Hne Hbr].
    exists cause, text. repeat (split; [done|]).
    unfold usableField in Hus.
    destruct (String.eqb (TrimSpace text) "" || Contains (TrimSpace text) " ");
      [done|]. by injection Hus as <-.
Qed.

Lemma update_provenance_witness :
  (∅ : gmap string string) !! "publisherName" = None /\
  snd (updateAggregationOverridesFromError
         (errorBody (fielddataReason "publisherName")) ∅) !! "publisherName"
    = Some "publisherName.keyword".
Proof.
  split; [reflexivity|].
  refine (proj1 (update_provenance (errorBody (fielddataReason "publisherName")) ∅
                   "publisherName" eq_refl _)).
  vm_compute. eexists. reflexivity.
Defined.

(** ** The handlers and the override table *)

Section Handlers.

Variable backend : Backend.
Variable fmtV : json -> string.

Lemma extends_refl (o : gmap string string) : extends o o.
Proof. by split. Qed.

Lemma extends_trans (o1 o2 o3 : gmap string string) :
  extends o1 o2 -> extends o2 o3 -> extends o1 o3.
Proof. intros [H1 K1] [H2 K2]. split; auto. Qed.

Lemma extends_register (body : Body) (o : gmap string string) :
  extends o (fold_left register (fieldsOfBody body) o).
Proof.
  split.
  - apply fold_register_wellKeyed, fieldsOfBody_no_space.
  - apply fold_register_keeps.
Qed.

(** X6.  [executeSearchWithRetry] sends its requests, two at most, to the
    index it was given.  It only adds to the override table: an entry that
    was there is still there with its value, and a table in which every key
    is free of spaces and mapped to itself with [.keyword] appended stays
    so. *)
Theorem executor_extends_table (index : string)
    (buildQuery : gmap string string -> Go json) (w : World) :
  let w' := snd (executeSearchWithRetry backend index buildQuery w) in
  extends (overrides w) (overrides w') /\
  exists queries,
    sent w' = (sent w ++ ((fun q => (index, q)) <$> queries))%list /\
    (length queries <= 2)%nat.
Proof.
  cbn zeta. rewrite executeSearchWithRetry_run.
  destruct (buildQuery (overrides w)) as [q1|]; cbn [snd].
  2:{ split; [apply extends_refl|]. exists [].
      split; [simpl; by rewrite app_nil_r|simpl; lia]. }
  pose proof (executeElasticQuery_world backend index q1 w) as Hw1.
  destruct (executeElasticQuery backend index q1 w) as [[resp1 body1] w1].
  cbn [snd] in Hw1. subst w1.
  destruct (_ || _ || _); cbn [snd].
  { split; [apply extends_refl|]. exists [q1]. split; [done|simpl; lia]. }
  unfold withOverrides. simpl.
  destruct (buildQuery _) as [q2|]; cbn [snd].
  2:{ split; [apply extends_register|]. exists [q1]. split; [done|simpl; lia]. }
  match goal with |- context [executeElasticQuery backend index q2 ?w2] =>
    pose proof (executeElasticQuery_world backend index q2 w2) as Hw3;
    destruct (executeElasticQuery backend index q2 w2) as [[resp2 body2] w3]
  end.
  simpl in Hw3. subst w3.
  destruct (_ || _); simpl.
  - split; [apply extends_register|]. exists [q1; q2].
    split; [by rewrite <- app_assoc|simpl; lia].
  - split.
    + eapply extends_trans; apply extends_register.
    + exists [q1; q2]. split; [by rewrite <- app_assoc|simpl; lia].
Qed.

(** The requests and the table of one pair of [ListFilters]. *)
Lemma attemptLoop_trace (filter : gmap string json) (w : World) :
  let index := indexOf (stringField filter "type") in
  let r1 := (index, filtersRequest (overrides w) filter) in
  let w' := snd (attemptLoop backend fmtV 2 0 filter w) in
  w' = {| overrides := overrides w; sent := (sent w ++ [r1])%list |} \/
  exists StatusCode body readFailed,
    backend (length (sent w)) index (filtersRequest (overrides w) filter) =
      HttpResponse StatusCode body readFailed /\
    asksRetry StatusCode body readFailed = true /\
    nonEmpty (fieldsOfBody body) = true /\
    let o1 := fold_left register (fieldsOfBody body) (overrides w) in
    w' = {| overrides := o1;
            sent := (sent w ++ [r1; (index, filtersRequest o1 filter)])%list |}.
Proof.
  cbn zeta. rewrite attemptLoop_round. cbn zeta. cbn [Nat.eqb andb].
  destruct (backend _ _ _) as [| |st body rf] eqn:E; try (left; reflexivity).
  destruct (asksRetry st body rf) eqn:Hask.
  2:{ destruct rf; left; reflexivity. }
  destruct (nonEmpty (fieldsOfBody body)) eqn:Hne; [|left; reflexivity].
  right. exists st, body, rf. repeat (split; [done|]).
  rewrite attemptLoop_round. cbn zeta. cbn [Nat.eqb andb].
  unfold withOverrides. simpl.
  rewrite <- app_assoc. simpl.
  match goal with |- context [match backend ?a ?b ?c with _ => _ end] =>
    destruct (backend a b c) as [| |st2 body2 rf2]
  end; try reflexivity.
  destruct (asksRetry st2 body2 rf2); [reflexivity|]. by destruct rf2.
Qed.

(** X7.  [ListFilters] heals a terms aggregation: when the first answer for
    a pair asks for a retry and names the key of the pair, the second
    request aggregates on that key with [.keyword] appended. *)
Theorem ListFilters_retries_on_keyword (filter : gmap string json) (w : World)
    (StatusCode : Z) (body : Body) (readFailed : bool) :
  let index := indexOf (stringField filter "type") in
  let key := stringField filter "keys" in
  wellKeyed (overrides w) ->
  key <> "dateRange" -> key <> "publicationDate" -> key <> "populationSize" ->
  backend (length (sent w)) index (filtersRequest (overrides w) filter) =
    HttpResponse StatusCode body readFailed ->
  asksRetry StatusCode body readFailed = true ->
  key ∈ fieldsOfBody body ->
  sent (snd (attemptLoop backend fmtV 2 0 filter w)) =
    (sent w ++
      [(index, filtersRequest (overrides w) filter);
       (index,
        H [("size", JInt 0);
           ("aggs",
            H [(key, H [("terms", H [("field", JStr (key ++ ".keyword"));
                                     ("size", JInt 1000)])])])])])%list.
Proof.
  cbn zeta. intros Hwk Hd Hp Hs Hback Hask Hkey.
  destruct (attemptLoop_trace filter w) as [Hone|(st & b & rf & Hb & _ & _ & ->)].
  - exfalso. revert Hone. rewrite attemptLoop_round. cbn zeta.
    rewrite Hback, Hask. cbn [Nat.eqb andb].
    assert (Hne : nonEmpty (fieldsOfBody body) = true)
      by (destruct (fieldsOfBody body); [by apply elem_of_nil in Hkey|done]).
    rewrite Hne. rewrite attemptLoop_round. cbn zeta. cbn [Nat.eqb andb].
    unfold withOverrides. simpl.
    intros Heq. apply (f_equal (fun x => length (sent x))) in Heq. revert Heq.
    match goal with |- context [match backend ?a ?b ?c with _ => _ end] =>
      destruct (backend a b c) as [| |st2 body2 rf2]
    end; simpl;
      try (destruct (asksRetry st2 body2 rf2); [|destruct rf2]); simpl;
      rewrite !length_app; simpl; lia.
  - rewrite Hback in Hb. injection Hb as <- <- <-. cbn [sent].
    assert (Hres : resolveAggregationField
                     (fold_left register (fieldsOfBody body) (overrides w))
                     (stringField filter "keys")
                   = stringField filter "keys" ++ ".keyword").
    { unfold resolveAggregationField.
      pose proof (extends_register body (overrides w)) as [Hwk' _].
      specialize (Hwk' Hwk).
      destruct (fold_left register (fieldsOfBody body) (overrides w)
                  !! stringField filter "keys") as [v|] eqn:Ev.
      + by destruct (Hwk' _ _ Ev) as [_ ->].
      + destruct (fold_register_mem (fieldsOfBody body) (overrides w) _ Hkey)
          as [v Hv]. by rewrite Hv in Ev. }
    unfold filtersRequest at 2. rewrite Hres.
    apply String.eqb_neq in Hd, Hp, Hs. by rewrite Hd, Hp, Hs.
Qed.


(** X8.  For the keys [dateRange], [publicationDate] and [populationSize]
    the request of [filtersRequest] does not read the override table: a
    retry of such a pair sends the first request again, unchanged. *)
Theorem ListFilters_retry_repeats_fixed_request (filter : gmap string json)
    (w : World) :
  let index := indexOf (stringField filter "type") in
  let key := stringField filter "keys" in
  key = "dateRange" \/ key = "publicationDate" \/ key = "populationSize" ->
  exists n, (1 <= n <= 2)%nat /\
    sent (snd (attemptLoop backend fmtV 2 0 filter w)) =
      (sent w ++ replicate n (index, filtersRequest ∅ filter))%list.
Proof.
  cbn zeta. intros Hkey.
  assert (Hfix : forall o, filtersRequest o filter = filtersRequest ∅ filter).
  { intros o. unfold filtersRequest.
    destruct Hkey as [ -> | [ -> | -> ] ]; reflexivity. }
  destruct (attemptLoop_trace filter w) as [ -> | (st & b & rf & _ & _ & _ & ->) ];
    cbn [sent].
  - exists 1%nat. split; [lia|]. by rewrite (Hfix (overrides w)).
  - exists 2%nat. split; [lia|].
    by rewrite (Hfix (overrides w)), (Hfix (fold_left _ _ _)).
Qed.

Lemma fold_listOne_groups (filters : list (gmap string json)) : forall acc w,
  let w' := snd (fold_left (listOne backend fmtV) filters (acc, w)) in
  extends (overrides w) (overrides w') /\
  exists groups,
    sent w' = (sent w ++ concat groups)%list /\
    Forall2 requestsOf filters groups.
Proof.
  induction filters as [|f filters IH]; intros acc w; cbn zeta.
  - simpl. split; [apply extends_refl|]. exists [].
    split; [by rewrite app_nil_r|constructor].
  - cbn [fold_left].
    assert (Hstep : exists acc',
      listOne backend fmtV (acc, w) f =
        (acc', snd (attemptLoop backend fmtV 2 0 f w))).
    { unfold listOne.
      destruct (attemptLoop backend fmtV 2 0 f w) as [[d|] w1]; by eexists. }
    destruct Hstep as [acc1 ->].
    pose proof (attemptLoop_trace f w) as Htrace. cbn zeta in Htrace.
    set (w1 := snd (attemptLoop backend fmtV 2 0 f w)) in *. clearbody w1.
    assert (Hone : extends (overrides w) (overrides w1) /\
              exists group, sent w1 = (sent w ++ group)%list /\ requestsOf f group).
    { destruct Htrace as [ -> | (st & b & rf & _ & _ & _ & ->) ]; cbn [overrides sent].
      - split; [apply extends_refl|]. eexists. split; [reflexivity|].
        split; [simpl; lia|]. repeat constructor. by eexists.
      - split; [apply extends_register|]. eexists. split; [reflexivity|].
        split; [simpl; lia|]. repeat constructor; by eexists. }
    destruct Hone as (Hext & group & Hsent & Hgroup).
    destruct (IH acc1 w1) as (Hext' & groups & Hsent' & Hgroups).
    split; [by eapply extends_trans|].
    exists (group :: groups).
    split; [cbn [concat]; by rewrite Hsent', Hsent, <- app_assoc|].
    by constructor.
Qed.


(** X10.  The [filters] entry of the answer of [ListFilters] is [null], not
    an empty array, exactly when no pair was resolved. *)
Theorem ListFilters_null_iff_none_resolved (filters : list (gmap string json))
    (w : World) :
  snd (fst (ListFilters backend fmtV filters w)) = H [("filters", JNull)] <->
  Forall (fun r => r = None) (pairResults backend fmtV filters w).
Proof.
  unfold ListFilters.
  pose proof (fold_listOne backend fmtV filters [] w) as Hfold.
  destruct (fold_left (listOne backend fmtV) filters ([], w)) as [allFilters w'].
  cbn [fst snd] in *. subst allFilters. cbn [app].
  assert (Hnil : omap id (pairResults backend fmtV filters w) = [] <->
                 Forall (fun r => r = None) (pairResults backend fmtV filters w)).
  { induction (pairResults backend fmtV filters w) as [|[d|] l IH]; simpl.
    - split; [constructor|done].
    - split; [done|]. by inversion 1.
    - rewrite IH. split; [by constructor|by inversion 1]. }
  rewrite <- Hnil. split.
  - intros Heq. destruct (omap id _) as [|d l]; [done|]. exfalso.
    apply (f_equal (fun j => match j with
                             | JObj m => m !! "filters"
                             | _ => None
                             end)) in Heq.
    unfold H in Heq. simpl in Heq.
    rewrite !lookup_insert_eq in Heq. done.
  - by intros ->.
Qed.

(** X11.  A pair whose key is not a date key is resolved exactly when the
    answer to its last request was read, carried no error status and held
    an aggregation; its payload is then the aggregations of that answer
    under the filter type as the caller wrote it. *)
Theorem ListFilters_resolved_payload (filter : gmap string json) (w : World) :
  let key := stringField filter "keys" in
  let run := attemptLoop backend fmtV 2 0 filter w in
  key <> "dateRange" -> key <> "publicationDate" ->
  exists outcome,
    lastOutcome backend (snd run) = Some outcome /\
    fst run =
      match outcome with
      | HttpResponse StatusCode body readFailed =>
          if failed outcome then None
          else Some (H [(stringField filter "type",
                         JObj (Aggregations (asResponse body)))])
      | _ => None
      end.
Proof.
  cbn zeta. intros Hd Hp.
  apply String.eqb_neq in Hd, Hp.
  assert (Hdata : forall aggs,
    filterData fmtV (stringField filter "type") (stringField filter "keys") aggs =
      Some (H [(stringField filter "type", JObj aggs)])).
  { intros aggs. unfold filterData. by rewrite Hd, Hp. }
  assert (Hlast : forall (l : list (string * json)) i q,
    lastOutcome backend {| overrides := ∅; sent := (l ++ [(i, q)])%list |} =
      Some (backend (length l) i q)).
  { intros l i q. unfold lastOutcome. cbn [sent].
    rewrite last_snoc, length_app. cbn [length].
    by replace (length l + 1 - 1)%nat with (length l) by lia. }
  assert (Hlast' : forall o (l : list (string * json)) i q,
    lastOutcome backend {| overrides := o; sent := (l ++ [(i, q)])%list |} =
      Some (backend (length l) i q)).
  { intros o l i q. rewrite <- (Hlast l i q). reflexivity. }
  assert (Hround : forall attempt w0,
    (attempt =? 0)%nat = false ->
    exists outcome,
      lastOutcome backend (snd (attemptLoop backend fmtV 1 attempt filter w0))
        = Some outcome /\
      fst (attemptLoop backend fmtV 1 attempt filter w0) =
        match outcome with
        | HttpResponse StatusCode body readFailed =>
            if failed outcome then None
            else Some (H [(stringField filter "type",
                           JObj (Aggregations (asResponse body)))])
        | _ => None
        end).
  { intros attempt w0 Hatt. rewrite attemptLoop_round. cbn zeta.
    rewrite Hatt. cbn [andb].
    destruct (backend (length (sent w0)) _ _) as [| |st body rf] eqn:E.
    - eexists. cbn [snd fst]. rewrite Hlast', E. done.
    - eexists. cbn [snd fst]. rewrite Hlast', E. done.
    - exists (HttpResponse st body rf). unfold asksRetry. cbn [failed].
      destruct (400 <=? st)%Z; cbn [orb snd fst];
        [by rewrite Hlast', E|].
      destruct rf; cbn [negb andb orb snd fst]; [by rewrite Hlast', E|].
      destruct (size _ =? 0)%nat; cbn [snd fst]; rewrite Hlast', E; [done|].
      by rewrite Hdata. }
  rewrite attemptLoop_round. cbn zeta. cbn [Nat.eqb andb].
  destruct (backend (length (sent w)) _ _) as [| |st body rf] eqn:E.
  - eexists. cbn [snd fst]. rewrite Hlast', E. done.
  - eexists. cbn [snd fst]. rewrite Hlast', E. done.
  - destruct (asksRetry st body rf) eqn:Hask.
    + destruct (nonEmpty (fieldsOfBody body)).
      * by apply Hround.
      * exists (HttpResponse st body rf). cbn [snd fst]. rewrite Hlast', E.
        split; [done|]. cbn [failed]. unfold asksRetry in Hask.
        destruct (400 <=? st)%Z; [done|]. destruct rf; [done|].
        cbn [orb negb andb] in *. by rewrite Hask.
    + exists (HttpResponse st body rf). unfold asksRetry in Hask. cbn [failed].
      destruct (400 <=? st)%Z; [done|]. destruct rf; cbn [orb negb andb snd fst] in *;
        [by rewrite Hlast', E|].
      rewrite Hask, Hlast', E. by rewrite Hdata.
Qed.

End Handlers.

Lemma ListFilters_retries_on_keyword_witness :
  let w := {| overrides := ∅; sent := [] |} in
  let request field :=
    ("dataset",
     H [("size", JInt 0);
        ("aggs", H [("publisherName",
                     H [("terms", H [("field", JStr field);
                                     ("size", JInt 1000)])])])]) in
  sent (snd (attemptLoop (fielddataBackend "publisherName") (fun _ => "") 2 0
               (publisherOf "dataset") w)) =
    [request "publisherName"; request "publisherName.keyword"].
Proof.
  cbn zeta.
  refine (ListFilters_retries_on_keyword (fielddataBackend "publisherName")
            (fun _ => "") (publisherOf "dataset") {| overrides := ∅; sent := [] |}
            400 (errorBody (fielddataReason "publisherName")) false
            _ _ _ _ eq_refl eq_refl _).
  - intros key override. cbn [overrides]. by rewrite lookup_empty.
  - vm_compute. discriminate.
  - vm_compute. discriminate.
  - vm_compute. discriminate.
  - vm_compute. apply elem_of_cons. by left.
Defined.

Lemma ListFilters_retry_repeats_fixed_request_witness :
  let filter : gmap string json :=
    {[ "type" := JStr "dataset"; "keys" := JStr "populationSize" ]} in
  exists n, (1 <= n <= 2)%nat /\
    sent (snd (attemptLoop (fielddataBackend "populationSize") (fun _ => "") 2 0
                 filter {| overrides := ∅; sent := [] |})) =
      replicate n ("dataset", filtersRequest ∅ filter).
Proof.
  cbn zeta.
  refine (ListFilters_retry_repeats_fixed_request (fielddataBackend "populationSize")
            (fun _ => "")
            {[ "type" := JStr "dataset"; "keys" := JStr "populationSize" ]}
            {| overrides := ∅; sent := [] |} _).
  right. right. reflexivity.
Defined.

Lemma ListFilters_resolved_payload_witness :
  exists outcome,
    lastOutcome secondFails
      (snd (attemptLoop secondFails (fun _ => "") 2 0 (publisherOf "paper")
              {| overrides := ∅; sent := [] |})) = Some outcome /\
    fst (attemptLoop secondFails (fun _ => "") 2 0 (publisherOf "paper")
           {| overrides := ∅; sent := [] |}) =
      match outcome with
      | HttpResponse StatusCode body readFailed =>
          if failed outcome then None
          else Some (H [("paper", JObj (Aggregations (asResponse body)))])
      | _ => None
      end.
Proof.
  refine (ListFilters_resolved_payload secondFails (fun _ => "") (publisherOf "paper")
            {| overrides := ∅; sent := [] |} _ _).
  - vm_compute. discriminate.
  - vm_compute. discriminate.
Defined.

(** ** The order of the filter loop *)

Section LoopOrder.

Import Translator.

Variable clause : string -> json -> Go json.

Lemma sameClauses_refl (r : Go (list json)) : sameClauses r r.
Proof. destruct r; cbn; done. Qed.

Lemma sameClauses_trans (r1 r2 r3 : Go (list json)) :
  sameClauses r1 r2 -> sameClauses r2 r3 -> sameClauses r1 r3.
Proof.
  destruct r1, r2, r3; cbn; try done. intros H1 H2. by etrans.
Qed.

Lemma filterLoop_acc (entries : list (string * json)) : forall acc acc',
  acc ≡ₚ acc' ->
  sameClauses (filterLoop clause entries acc) (filterLoop clause entries acc').
Proof.
  induction entries as [|[key terms] entries IH]; intros acc acc' Hacc; [done|].
  cbn [filterLoop]. destruct (clause key terms) as [c|why]; cbn [bindGo]; [|done].
  apply IH. by rewrite Hacc.
Qed.

End LoopOrder.

(** X12.  The order in which a translator meets the filters of its bucket,
    which Go leaves open, decides neither whether the translator panics nor
    which clauses [post_filter] holds: two orders give the same clauses up
    to their order. *)
Theorem filter_order_is_immaterial (e : Entity)
    (entries entries' : list (string * json)) :
  entries ≡ₚ entries' -> forall mustFilters,
  sameClauses (Translator.filterLoop (Translator.clause e) entries mustFilters)
              (Translator.filterLoop (Translator.clause e) entries' mustFilters).
Proof.
  induction 1 as [|[key terms] l l' Hl IH|[k1 t1] [k2 t2] l|l1 l2 l3 H12 IH12 H23 IH23];
    intros acc.
  - apply sameClauses_refl.
  - cbn [Translator.filterLoop].
    destruct (Translator.clause e key terms) as [c|why]; cbn [bindGo]; [|done].
    apply IH.
  - cbn [Translator.filterLoop].
    destruct (Translator.clause e k1 t1) as [c1|why1],
             (Translator.clause e k2 t2) as [c2|why2];
      cbn [bindGo]; try done.
    apply filterLoop_acc. rewrite <- !app_assoc. apply Permutation_app_head.
    apply perm_swap.
  - eapply sameClauses_trans; [apply IH12|apply IH23].
Qed.

Lemma filter_order_is_immaterial_witness :
  sameClauses
    (Translator.filterLoop (Translator.clause Dataset)
       (bucket populationQuery "dataset") [])
    (Translator.filterLoop (Translator.clause Dataset)
       (reverse (bucket populationQuery "dataset")) []).
Proof.
  apply (filter_order_is_immaterial Dataset (bucket populationQuery "dataset")
           (reverse (bucket populationQuery "dataset"))).
  symmetry. apply reverse_Permutation.
Defined.

(** ** The aggregations of a query document *)

Section AggregationFacts.

Import AggregationBuilder.

Variable rt : Runtime.

Lemma fold_aggStep (o : gmap string string) (mustFilters : list json)
    (entityType k : string) (aggs : list (gmap string json)) : forall agg1,
  fold_left (aggStep rt o mustFilters entityType) aggs agg1 !! k =
    if existsb (requests rt entityType k) aggs
    then Some (aggregationFor rt o mustFilters k)
    else agg1 !! k.
Proof.
  induction aggs as [|agg aggs IH]; intros agg1; [done|].
  cbn [fold_left existsb]. rewrite IH. unfold requests at 2, aggStep.
  destruct (existsb (requests rt entityType k) aggs); [by rewrite orb_true_r|].
  rewrite orb_false_r.
  destruct (applies rt entityType agg); cbn [negb andb]; [|done].
  destruct (String.eqb_spec (stringField agg "keys") k) as [->|Hne].
  - by rewrite lookup_insert_eq.
  - by rewrite lookup_insert_ne.
Qed.

(** X13.  The [aggs] section holds one aggregation for each key that some
    request of the query asks for and [buildAggregations] does not skip,
    under that key, and nothing else; what it holds for a key depends on
    the key, the override table and the filter clauses only, not on the
    order or the number of the requests. *)
Theorem buildAggregations_by_key (o : gmap string string) (query : Query)
    (mustFilters : list json) (entityType k : string) :
  path [k] (buildAggregations rt o query mustFilters entityType) =
    if existsb (requests rt entityType k) (QueryAggregations query)
    then Some (aggregationFor rt o mustFilters k)
    else None.
Proof.
  unfold buildAggregations. cbn [path]. rewrite fold_aggStep, lookup_empty.
  by destruct (existsb _ _).
Qed.

Lemma facetFilters_fold (k : string) (mustFilters : list json) : forall acc,
  fold_left
    (fun filters fil =>
       if Contains (Marshal rt fil) k then filters else (filters ++ [fil])%list)
    mustFilters acc =
  (acc ++ filter (fun fil => Contains (Marshal rt fil) k = false) mustFilters)%list.
Proof.
  induction mustFilters as [|fil fils IH]; intros acc; cbn [fold_left].
  - by rewrite app_nil_r.
  - rewrite IH, filter_cons.
    destruct (Contains (Marshal rt fil) k) eqn:E.
    + by rewrite decide_False.
    + rewrite decide_True by done. by rewrite <- app_assoc.
Qed.

Lemma Contains_empty (s : string) : Contains s "" = true.
Proof. by destruct s. Qed.

(** X14.  The filter of the aggregation for a key holds the clauses of
    [post_filter], in their order, whose JSON text does not contain the
    key.  Every text contains the empty key: the aggregation of a request
    without a string under [keys] is stored under the empty name, reads the
    field of the empty name and has no filter clause. *)
Theorem facet_filter_leaves_out_key (o : gmap string string)
    (mustFilters : list json) (k : string) :
  path ["filter"; "bool"; "must"] (aggregationFor rt o mustFilters k) =
    Some (JArr (filter (fun fil => Contains (Marshal rt fil) k = false) mustFilters)) /\
  path ["filter"; "bool"; "must"] (aggregationFor rt o mustFilters "") =
    Some (JArr []) /\
  path ["aggs"; ""; "terms"; "field"] (aggregationFor rt o mustFilters "") =
    Some (JStr (resolveAggregationField o "")).
Proof.
  assert (Hf : forall key,
    path ["filter"; "bool"; "must"] (aggregationFor rt o mustFilters key) =
      Some (JArr (filter (fun fil => Contains (Marshal rt fil) key = false)
                    mustFilters))).
  { intros key. unfold aggregationFor, facetFilters. rewrite facetFilters_fold.
    reflexivity. }
  split; [apply Hf|]. split.
  - rewrite Hf. do 2 f_equal. clear Hf.
    induction mustFilters as [|fil fils IH]; [done|].
    rewrite filter_cons, decide_False; [exact IH|].
    by rewrite Contains_empty.
  - reflexivity.
Qed.

(** X15.  An aggregation request that names a type is built by the
    translator of that type alone, under either name of the type: the key
    of the fan-out or the name of the index.  The name of a filter bucket
    works as well, except [paper], the bucket of the publications: a
    request of that type is skipped by all seven translators. *)
Theorem aggregation_type_routing (e e' : Entity) :
  (applies rt (indexName e) {[ "type" := JStr (FanOut.resultKey e') ]} = true
     <-> e = e') /\
  (applies rt (indexName e) {[ "type" := JStr (indexName e') ]} = true
     <-> e = e') /\
  (applies rt (indexName e) {[ "type" := JStr (bucketName e') ]} = true
     <-> e = e' /\ e' <> Publication).
Proof.
  split; [|split]; split.
  - destruct e, e'; try reflexivity; vm_compute; discriminate.
  - intros <-. destruct e; vm_compute; reflexivity.
  - destruct e, e'; try reflexivity; vm_compute; discriminate.
  - intros <-. destruct e; vm_compute; reflexivity.
  - destruct e, e'; try (split; [reflexivity|discriminate]);
      vm_compute; discriminate.
  - intros [<- Hne]. destruct e; try (vm_compute; reflexivity). done.
Qed.

End AggregationFacts.

(** ** The query documents *)

Section DocumentFacts.

Import QueryDocuments.

Variable rt : Runtime.

Lemma staticPart_indexName (e : Entity) (query : Query) :
  staticPart rt (indexName e) query = staticSections rt e query.
Proof. by destruct e. Qed.

Lemma translate_run (e : Entity) (o : gmap string string) (query : Query) :
  translate rt e o query =
    match Translator.filterLoop (Translator.clause e) (bucket query (bucketName e)) [] with
    | Ok mustFilters =>
        Ok (JObj (<["post_filter" := Translator.postFilter mustFilters]>
                    (<["aggs" := AggregationBuilder.buildAggregations rt o query mustFilters
                                   (indexName e)]>
                       (staticSections rt e query))))
    | Panic why => Panic why
    end.
Proof.
  unfold translate, Translator.elasticConfig.
  destruct (Translator.filterLoop _ _ _); cbn [bindGo]; [|done].
  by rewrite staticPart_indexName.
Qed.

(** X16.  The [sort] entry of a query document: the data custodian network
    translator never writes it, the others write it exactly when ids are
    given; it orders by the position among the ids when there is no query
    string, and is [null] when there is one. *)
Theorem translate_sort (e : Entity) (o : gmap string string) (query : Query)
    (doc : json) :
  translate rt e o query = Ok doc ->
  path ["sort"] doc =
    match e, IDs query with
    | DataCustodianNetwork, _ => None
    | _, [] => None
    | _, ids =>
        Some (if String.eqb (QueryString query) "" then JArr (sortByIDs ids)
              else JNull)
    end.
Proof.
  rewrite translate_run.
  destruct (Translator.filterLoop _ _ _) as [mustFilters|]; [|done].
  intros [= <-]. cbn [path]. rewrite !lookup_insert_ne by done.
  unfold staticSections, sortQuery.
  destruct e, (IDs query) as [|id ids];
    rewrite ?lookup_insert_eq, ?lookup_insert_ne, ?lookup_empty by done;
    try reflexivity;
    by destruct (String.eqb (QueryString query) "").
Qed.

Lemma staticSections_without_ids (e : Entity) (query : Query) (ids : list string) :
  e = DataCustodianNetwork \/ QueryString query <> "" ->
  delete "sort" (staticSections rt e (withIDs ids query)) =
    delete "sort" (staticSections rt e query).
Proof.
  intros Hq.
  assert (Hmain : mainQuery e (withIDs ids query) = mainQuery e query).
  { unfold mainQuery, withIDs. cbn [QueryString IDs].
    destruct Hq as [->|Hq]; [by destruct (String.eqb _ _)|].
    apply String.eqb_neq in Hq. by rewrite Hq. }
  unfold staticSections. rewrite Hmain. cbn [withIDs IDs].
  destruct e, ids as [|i ids], (IDs query) as [|j js];
    by rewrite ?delete_insert_eq.
Qed.

(** X17.  The ids of a query do not select documents when the query has a
    query string, and never in the data custodian network translator: the
    translator then builds, for any ids, the same document up to its
    [sort] entry, or panics for all of them. *)
Theorem ids_do_not_select (e : Entity) (o : gmap string string) (query : Query)
    (ids : list string) :
  e = DataCustodianNetwork \/ QueryString query <> "" ->
  match translate rt e o query, translate rt e o (withIDs ids query) with
  | Ok (JObj doc), Ok (JObj doc') => delete "sort" doc = delete "sort" doc'
  | Panic _, Panic _ => True
  | _, _ => False
  end.
Proof.
  intros Hq. rewrite !translate_run.
  change (bucket (withIDs ids query) (bucketName e))
    with (bucket query (bucketName e)).
  destruct (Translator.filterLoop _ _ _) as [mustFilters|]; [|done].
  rewrite !(delete_insert_ne _ "sort") by done.
  by rewrite staticSections_without_ids.
Qed.

End DocumentFacts.

Lemma translate_sort_witness :
  exists doc,
    QueryDocuments.translate plainRuntime Dataset ∅ idsQuery = Ok doc /\
    path ["sort"] doc = Some JNull.
Proof.
  eexists. split; [reflexivity|].
  apply (translate_sort plainRuntime Dataset ∅ idsQuery _ eq_refl).
Defined.

Lemma ids_do_not_select_witness :
  match QueryDocuments.translate plainRuntime Tool ∅ idsQuery,
        QueryDocuments.translate plainRuntime Tool ∅ (withIDs [] idsQuery) with
  | Ok (JObj doc), Ok (JObj doc') => delete "sort" doc = delete "sort" doc'
  | Panic _, Panic _ => True
  | _, _ => False
  end.
Proof.
  apply (ids_do_not_select plainRuntime Tool ∅ idsQuery []).
  right. discriminate.
Defined.

(** ** The explanations *)

Section ExplanationFacts.

Import Explanations.

#[local] Arguments String.append !_ _ / : simpl nomatch.

Lemma append_not_nil (t : string) (c : ascii) : t ++ String c "" <> "".
Proof. by destruct t. Qed.

Lemma TrimRightByte_no_trailing (c : ascii) (s : string) : forall t,
  TrimRightByte s c <> t ++ String c "".
Proof.
  induction s as [|a s IH]; intros t; cbn [TrimRightByte].
  - intros Heq. by apply (append_not_nil t c).
  - destruct (TrimRightByte s c) as [|b r] eqn:E.
    + destruct (Ascii.eqb_spec a c) as [->|Hne].
      * intros Heq. by apply (append_not_nil t c).
      * destruct t as [|x t]; simpl; [congruence|].
        intros [= _ Heq]. by apply (append_not_nil t c).
    + destruct t as [|x t]; simpl; [congruence|].
      intros [= _ Heq]. by apply (IH t).
Qed.

Lemma TrimRightByte_prefix (c : ascii) (s : string) :
  exists n, s = TrimRightByte s c ++ string_of_list_ascii (replicate n c).
Proof.
  induction s as [|a s [n IH]]; cbn [TrimRightByte].
  - by exists 0%nat.
  - destruct (TrimRightByte s c) as [|b r] eqn:E.
    + destruct (Ascii.eqb_spec a c) as [->|Hne].
      * exists (S n). simpl in *. by rewrite <- IH.
      * exists n. simpl in *. by rewrite <- IH.
    + exists n. simpl in *. by rewrite <- IH.
Qed.

Lemma forwarded_keeps_hits (rt : Runtime) (elasticResp : SearchResponse)
    (zero : bool) (entityType url : string) (copy : SearchResponse) :
  forwarded rt elasticResp zero entityType = Some (url, copy) ->
  default [] (Hits (HitsOf copy)) = default [] (Hits (HitsOf elasticResp)).
Proof.
  unfold forwarded. destruct (_ && _ && _); [|done]. intros [= _ <-].
  unfold copyResponseHits. cbn [HitsOf Hits].
  by destruct (Hits (HitsOf elasticResp)) as [[|h hits]|].
Qed.

(** X18.  [stripExplanation] hands a copy to the extractor only for the
    entity type [dataset], for a query that is not the zero query and when
    the variable [SEARCH_EXPLANATION_EXTRACTOR] is set to more than white
    space.  The address is the trimmed value without its trailing slashes,
    followed by [/process_data]; the copy holds the hits as they came, and
    nothing else of the response. *)
Theorem forwarded_copy (rt : Runtime) (elasticResp : SearchResponse) (zero : bool)
    (entityType url : string) (copy : SearchResponse) :
  forwarded rt elasticResp zero entityType = Some (url, copy) ->
  entityType = "dataset" /\ zero = false /\
  (exists value base n,
     LookupEnv rt "SEARCH_EXPLANATION_EXTRACTOR" = Some value /\
     TrimSpace value <> "" /\
     TrimSpace value = base ++ string_of_list_ascii (replicate n "/"%char) /\
     (forall t, base <> t ++ "/") /\
     url = base ++ "/process_data") /\
  default [] (Hits (HitsOf copy)) = default [] (Hits (HitsOf elasticResp)) /\
  copy = copyResponseHits copy.
Proof.
  unfold forwarded.
  destruct (LookupEnv rt "SEARCH_EXPLANATION_EXTRACTOR") as [value|];
    cbn [andb]; [|done].
  destruct (String.eqb_spec (TrimSpace value) "") as [|Hne]; cbn [negb andb];
    [done|].
  destruct (String.eqb_spec entityType "dataset") as [->|]; cbn [andb]; [|done].
  destruct zero; cbn [negb]; [done|].
  intros [= <- <-]. split; [done|]. split; [done|]. split.
  - destruct (TrimRightByte_prefix "/" (TrimSpace value)) as [n Hn].
    exists value, (TrimRightByte (TrimSpace value) "/"), n.
    split; [done|]. split; [done|]. split; [done|].
    split; [apply TrimRightByte_no_trailing|done].
  - unfold copyResponseHits. cbn [HitsOf Hits].
    by destruct (Hits (HitsOf elasticResp)) as [[|h hits]|].
Qed.

(** X19.  [stripExplanation] leaves in the response as many hits as it
    had, each with its id, score, source and highlight and with an
    explanation without entries; a [nil] list of hits stays [nil]; the
    rest of the response is kept, and a second pass changes nothing. *)
Theorem stripExplanation_keeps_hits (elasticResp : SearchResponse) :
  let stripped := stripExplanation elasticResp in
  hitsPresent stripped = hitsPresent elasticResp /\
  Forall2 (fun h h' =>
             Explanation h' = ∅ /\ Id h' = Id h /\ Score h' = Score h /\
             Source h' = Source h /\ Highlight h' = Highlight h)
    (default [] (Hits (HitsOf elasticResp)))
    (default [] (Hits (HitsOf stripped))) /\
  Aggregations stripped = Aggregations elasticResp /\
  stripExplanation stripped = stripped.
Proof.
  cbn zeta. split; [|split; [|split]].
  - unfold hitsPresent, stripExplanation. cbn [HitsOf Hits].
    by destruct (Hits (HitsOf elasticResp)).
  - unfold stripExplanation. cbn [HitsOf Hits].
    destruct (Hits (HitsOf elasticResp)) as [hits|]; cbn [default]; [|constructor].
    induction hits as [|h hits IH]; [constructor|].
    rewrite fmap_cons. by constructor.
  - reflexivity.
  - unfold stripExplanation. cbn [HitsOf Hits Took TimedOut Shards Total MaxScore
                                   Aggregations].
    do 2 f_equal. destruct (Hits (HitsOf elasticResp)) as [hits|]; [|done].
    f_equal. rewrite <- list_fmap_compose. by apply list_fmap_ext.
Qed.

End ExplanationFacts.

Lemma forwarded_copy_witness :
  Explanations.forwarded explainingRuntime oneHit false "dataset" =
    Some ("http://extractor:8080/process_data",
          Explanations.copyResponseHits oneHit) /\
  default [] (Hits (HitsOf (Explanations.copyResponseHits oneHit))) = [explainedHit].
Proof.
  split; [vm_compute; reflexivity|].
  refine (proj1 (proj2 (proj2 (proj2
    (forwarded_copy explainingRuntime oneHit false "dataset"
       "http://extractor:8080/process_data" (Explanations.copyResponseHits oneHit)
       _))))).
  vm_compute. reflexivity.
Defined.

(** ** The search of one entity type *)

Section EntitySearchFacts.

Import EntitySearch.

Variable backend : Backend.
Variable rt : Runtime.

Lemma translate_isOk (e : Entity) (o : gmap string string) (query : Query) :
  isOk (QueryDocuments.translate rt e o query) =
    forallb (wellShaped e) (bucket query (bucketName e)).
Proof.
  rewrite translate_run.
  destruct (forallb (wellShaped e) (bucket query (bucketName e))) eqn:Hall.
  - by destruct (filterLoop_ok e _ [] Hall) as (cs & -> & _).
  - by destruct (filterLoop_panics e _ [] Hall) as (why & ->).
Qed.

Lemma executeSearchWithRetry_ok (index : string)
    (buildQuery : gmap string string -> Go json) (w : World) :
  (forall o, isOk (buildQuery o) = true) ->
  exists r,
    fst (executeSearchWithRetry backend index buildQuery w) = Ok r /\
    (1 <= attempts w (snd (executeSearchWithRetry backend index buildQuery w)) <= 2)%nat.
Proof.
  intros Hok. rewrite executeSearchWithRetry_run.
  pose proof (Hok (overrides w)) as H1.
  destruct (buildQuery (overrides w)) as [q1|]; [|done].
  pose proof (executeElasticQuery_world backend index q1 w) as Hw1.
  destruct (executeElasticQuery backend index q1 w) as [[resp1 body1] w1].
  cbn [snd] in Hw1. subst w1.
  destruct (_ || _ || _); cbn [fst snd].
  { eexists. split; [done|]. rewrite attempts_one. lia. }
  unfold withOverrides. cbn [overrides sent].
  pose proof (Hok (fold_left register (fieldsOfBody body1) (overrides w))) as H2.
  destruct (buildQuery _) as [q2|]; [|done].
  match goal with |- context [executeElasticQuery backend index q2 ?w2] =>
    pose proof (executeElasticQuery_world backend index q2 w2) as Hw3;
    destruct (executeElasticQuery backend index q2 w2) as [[resp2 body2] w3]
  end.
  cbn [snd overrides sent] in Hw3. subst w3.
  destruct (_ || _); cbn [fst snd withOverrides sent];
    (eexists; split; [done|]; rewrite attempts_two; lia).
Qed.

(** X20.  A search panics exactly when the filter bucket of its entity
    type has an entry of another shape than its key requires, whatever the
    backend answers.  It then has sent nothing; otherwise it has sent one
    or two requests.  Building the query once more for the log never adds
    a panic. *)
Theorem search_panics_only_on_shape (e : Entity)
    (visit : gmap string json -> list (string * json)) (zero : bool)
    (query : Query) (w : World) :
  let run := search backend rt e visit zero query w in
  isOk (fst run) = forallb (wellShaped e) (bucket query (bucketName e)) /\
  if isOk (fst run) then (1 <= attempts w (snd run) <= 2)%nat
  else snd run = w.
Proof.
  cbn zeta. unfold search.
  destruct (forallb (wellShaped e) (bucket query (bucketName e))) eqn:Hall.
  - assert (Hok : forall o, isOk (QueryDocuments.translate rt e o query) = true)
      by (intros o; by rewrite translate_isOk).
    destruct (executeSearchWithRetry_ok (indexName e)
                (fun o => QueryDocuments.translate rt e o query) w Hok)
      as ([resp body] & Hr & Hatt).
    destruct (executeSearchWithRetry backend (indexName e) _ w) as [r w'].
    cbn [fst snd] in Hr, Hatt. subst r.
    assert (Hlog : exists j,
      (if hitsPresent resp then Ok JNull
       else QueryDocuments.translate rt e (overrides w') query) = Ok j).
    { destruct (hitsPresent resp); [by eexists|].
      specialize (Hok (overrides w')).
      destruct (QueryDocuments.translate rt e (overrides w') query); [by eexists|done]. }
    destruct Hlog as [j ->]. by cbn [fst snd isOk].
  - rewrite executeSearchWithRetry_run.
    pose proof (translate_isOk e (overrides w) query) as Hp. rewrite Hall in Hp.
    destruct (QueryDocuments.translate rt e (overrides w) query); [done|].
    by cbn [fst snd isOk].
Qed.


Lemma search_found (e : Entity)
    (visit : gmap string json -> list (string * json)) (zero : bool)
    (query : Query) (w : World) (found : Found) :
  fst (search backend rt e visit zero query w) = Ok found ->
  exists elasticResp body,
    fst (executeSearchWithRetry backend (indexName e)
           (fun o => QueryDocuments.translate rt e o query) w) = Ok (elasticResp, body) /\
    found =
      {| response :=
           withAggregations (flattenAggs (visit (Aggregations elasticResp)))
             (Explanations.stripExplanation elasticResp);
         explained :=
           Explanations.forwarded rt elasticResp zero (explanationName e) |}.
Proof.
  unfold search.
  destruct (executeSearchWithRetry backend (indexName e) _ w)
    as [[[elasticResp body]|why] w']; [|done].
  destruct (if hitsPresent elasticResp then _ else _); [|done].
  cbn [fst]. intros [= <-]. by exists elasticResp, body.
Qed.

(** X21.  What a search returns has no explanation left in its hits.  Only
    the search of the datasets hands explanations on, and what it hands on
    are the hits it returns, before their explanations were removed. *)
Theorem search_explanations (e : Entity)
    (visit : gmap string json -> list (string * json)) (zero : bool)
    (query : Query) (w : World) (found : Found) :
  fst (search backend rt e visit zero query w) = Ok found ->
  Forall (fun h => Explanation h = ∅)
    (default [] (Hits (HitsOf (response found)))) /\
  (e <> Dataset -> explained found = None) /\
  (forall url copy, explained found = Some (url, copy) ->
     Explanations.clearExplanation <$> default [] (Hits (HitsOf copy)) =
       default [] (Hits (HitsOf (response found)))).
Proof.
  intros Hrun. destruct (search_found _ _ _ _ _ _ Hrun) as (resp & body & _ & ->).
  cbn [response explained withAggregations HitsOf].
  split; [|split].
  - unfold Explanations.stripExplanation. cbn [HitsOf Hits].
    destruct (Hits (HitsOf resp)) as [hits|]; cbn [default]; [|constructor].
    apply Forall_fmap, Forall_true. done.
  - intros Hne. unfold Explanations.forwarded.
    destruct e; try done; cbn [explanationName String.eqb Ascii.eqb Bool.eqb andb];
      by rewrite ?andb_false_r.
  - intros url copy Hcopy.
    apply forwarded_keeps_hits in Hcopy as ->.
    unfold Explanations.stripExplanation. cbn [HitsOf Hits].
    by destruct (Hits (HitsOf resp)).
Qed.

(** X22.  When the backend cannot be reached, or gives no response, the
    search answers after one request with a response that has no hits and
    an aggregation map without entries, the zero response of the model, and
    leaves the override table as it was. *)
Theorem search_degrades_without_backend (e : Entity)
    (visit : gmap string json -> list (string * json)) (zero : bool)
    (query : Query) (w : World) (q1 : json) :
  (forall m, rangeOrder m (visit m)) ->
  QueryDocuments.translate rt e (overrides w) query = Ok q1 ->
  backend (length (sent w)) (indexName e) q1 = TransportError \/
  backend (length (sent w)) (indexName e) q1 = NilResponse ->
  exists found,
    search backend rt e visit zero query w =
      (Ok found,
       {| overrides := overrides w;
          sent := (sent w ++ [(indexName e, q1)])%list |}) /\
    response found = zeroResponse.
Proof.
  intros Hvisit Hq1 Hnone.
  assert (Hempty : visit ∅ = []).
  { apply Permutation_nil. specialize (Hvisit ∅). unfold rangeOrder in Hvisit.
    by rewrite map_to_list_empty in Hvisit. }
  unfold search. rewrite executeSearchWithRetry_run, Hq1.
  unfold executeElasticQuery, Search.
  destruct Hnone as [-> | ->].
  - cbn. rewrite Hq1, Hempty. by eexists.
  - cbn. rewrite Hq1, Hempty. by eexists.
Qed.

Lemma path_app (names rest : list string) : forall doc,
  path (names ++ rest) doc = path names doc ≫= path rest.
Proof.
  induction names as [|name names IH]; intros doc; [done|].
  cbn [app path]. destruct doc; try done.
  destruct (m !! name) as [d|]; cbn [mbind option_bind]; [apply IH|done].
Qed.

Lemma path_member (name : string) (m : gmap string json) :
  path [name] (JObj m) = m !! name.
Proof. cbn [path]. by destruct (m !! name). Qed.

(** X23.  The search heals a terms aggregation.  When the first answer has
    no hits and its error names a field for which the query requests an
    aggregation, the search sends a second query, and that query aggregates
    on the field with [.keyword] appended. *)
Theorem search_heals_terms_aggregation (e : Entity) (query : Query) (w : World)
    (field : string) (q1 : json) (StatusCode : Z) (body : Body)
    (readFailed : bool) :
  let index := indexName e in
  let run := executeSearchWithRetry backend index
               (fun o => QueryDocuments.translate rt e o query) w in
  wellKeyed (overrides w) ->
  existsb (requests rt index field) (QueryAggregations query) = true ->
  field <> "dateRange" -> field <> "publicationDate" -> field <> "populationSize" ->
  QueryDocuments.translate rt e (overrides w) query = Ok q1 ->
  backend (length (sent w)) index q1 = HttpResponse StatusCode body readFailed ->
  readFailed = true \/ Hits (HitsOf (asResponse body)) = None ->
  field ∈ fieldsOfBody body ->
  exists q2,
    sent (snd run) = (sent w ++ [(index, q1); (index, q2)])%list /\
    path ["aggs"; field; "aggs"; field; "terms"; "field"] q2 =
      Some (JStr (field ++ ".keyword")).
Proof.
  cbn zeta. intros Hwk Hreq Hd Hp Hs Hq1 Hback Hhits Hfield.
  rewrite executeSearchWithRetry_run, Hq1.
  unfold executeElasticQuery at 1, Search. rewrite Hback.
  set (resp1 := if readFailed then zeroResponse else asResponse body).
  assert (Hnil : hitsPresent resp1 = false).
  { unfold hitsPresent, resp1. destruct readFailed; [done|].
    destruct Hhits as [ ? | -> ]; done. }
  assert (Hne : nonEmpty (fieldsOfBody body) = true)
    by (destruct (fieldsOfBody body); [by apply elem_of_nil in Hfield|done]).
  assert (Hlen : (len body =? 0)%nat = false).
  { destruct (len body =? 0)%nat eqn:E; [|done]. exfalso.
    unfold fieldsOfBody, rootCausesOf in Hfield. rewrite E in Hfield.
    by apply elem_of_nil in Hfield. }
  replace (match readFailed with
           | true => (zeroResponse, body, _)
           | false => (asResponse body, body, _)
           end)
    with (resp1, body,
          {| overrides := overrides w;
             sent := (sent w ++ [(indexName e, q1)])%list |})
    by (unfold resp1; by destruct readFailed).
  rewrite Hnil, Hlen, Hne. cbn [orb negb].
  set (o1 := fold_left register (fieldsOfBody body) (overrides w)).
  pose proof (translate_isOk e o1 query) as Hok2.
  pose proof (translate_isOk e (overrides w) query) as Hok1.
  rewrite Hq1 in Hok1. rewrite <- Hok1 in Hok2.
  pose proof (translate_run rt e o1 query) as Hrun2.
  destruct (QueryDocuments.translate rt e o1 query) as [q2|]; [|done].
  exists q2. split.
  - unfold withOverrides. cbn [overrides sent].
    match goal with |- context [executeElasticQuery backend ?i q2 ?w2] =>
      pose proof (executeElasticQuery_world backend i q2 w2) as Hw3;
      destruct (executeElasticQuery backend i q2 w2) as [[resp2 body2] w3]
    end.
    cbn [snd overrides sent] in Hw3. subst w3.
    destruct (_ || _); cbn [snd withOverrides sent]; by rewrite <- app_assoc.
  - destruct (Translator.filterLoop _ _ _) as [mustFilters|]; [|done].
    injection Hrun2 as ->.
    assert (Hres : resolveAggregationField o1 field = field ++ ".keyword").
    { unfold resolveAggregationField.
      pose proof (extends_register body (overrides w)) as [Hwk' _].
      specialize (Hwk' Hwk). fold o1 in Hwk'.
      destruct (fold_register_mem (fieldsOfBody body) (overrides w) _ Hfield)
        as [v Hv]. fold o1 in Hv. rewrite Hv.
      by destruct (Hwk' _ _ Hv) as [_ ->]. }
    rewrite (path_app ["aggs"] [field; "aggs"; field; "terms"; "field"]).
    rewrite path_member, lookup_insert_ne by done.
    rewrite lookup_insert_eq. cbn [mbind option_bind].
    rewrite (path_app [field] ["aggs"; field; "terms"; "field"]).
    unfold AggregationBuilder.buildAggregations.
    rewrite path_member, fold_aggStep, Hreq. cbn [mbind option_bind].
    unfold AggregationBuilder.aggregationFor, AggregationBuilder.aggInner.
    apply String.eqb_neq in Hd, Hp, Hs. rewrite Hd, Hp, Hs, Hres.
    rewrite (path_app ["aggs"] [field; "terms"; "field"]).
    unfold H at 1. rewrite path_member. cbn [list_to_map foldr fst snd].
    rewrite lookup_insert_eq. cbn [mbind option_bind].
    rewrite (path_app [field] ["terms"; "field"]).
    rewrite path_member, lookup_insert_eq. cbn [mbind option_bind].
    reflexivity.
Qed.

End EntitySearchFacts.

Lemma search_explanations_witness :
  let run := EntitySearch.search oneHitBackend explainingRuntime Dataset map_to_list
               false idsQuery {| overrides := ∅; sent := [] |} in
  exists found,
    fst run = Ok found /\
    Forall (fun h => Explanation h = ∅)
      (default [] (Hits (HitsOf (EntitySearch.response found)))).
Proof.
  cbn zeta.
  exists {| EntitySearch.response := Explanations.stripExplanation oneHit;
            EntitySearch.explained :=
              Some ("http://extractor:8080/process_data",
                    Explanations.copyResponseHits oneHit) |}.
  assert (Hrun :
    fst (EntitySearch.search oneHitBackend explainingRuntime Dataset map_to_list
           false idsQuery {| overrides := ∅; sent := [] |}) =
      Ok {| EntitySearch.response := Explanations.stripExplanation oneHit;
            EntitySearch.explained :=
              Some ("http://extractor:8080/process_data",
                    Explanations.copyResponseHits oneHit) |})
    by (vm_compute; reflexivity).
  split; [exact Hrun|].
  exact (proj1 (search_explanations oneHitBackend explainingRuntime Dataset map_to_list
                  false idsQuery {| overrides := ∅; sent := [] |} _ Hrun)).
Defined.

Lemma search_degrades_without_backend_witness :
  exists q1 found,
    QueryDocuments.translate plainRuntime Tool ∅ idsQuery = Ok q1 /\
    EntitySearch.search unreachable plainRuntime Tool map_to_list false idsQuery
      {| overrides := ∅; sent := [] |} =
      (Ok found, {| overrides := ∅; sent := [("tool", q1)] |}) /\
    EntitySearch.response found = zeroResponse.
Proof.
  pose (q1 := match QueryDocuments.translate plainRuntime Tool ∅ idsQuery with
              | Ok q => q
              | Panic _ => JNull
              end).
  assert (Hq1 : QueryDocuments.translate plainRuntime Tool ∅ idsQuery = Ok q1)
    by reflexivity.
  exists q1.
  destruct (search_degrades_without_backend unreachable plainRuntime Tool map_to_list
              false idsQuery {| overrides := ∅; sent := [] |} q1
              (fun m => reflexivity (map_to_list m)) Hq1 (or_introl eq_refl))
    as (found & Hrun & Hzero).
  exists found. split; [exact Hq1|]. split; [exact Hrun|exact Hzero].
Defined.

Lemma search_heals_terms_aggregation_witness :
  exists q1 q2,
    QueryDocuments.translate plainRuntime Dataset ∅ idsQuery = Ok q1 /\
    sent (snd (executeSearchWithRetry (fielddataBackend "publisherName") "dataset"
                 (fun o => QueryDocuments.translate plainRuntime Dataset o idsQuery)
                 {| overrides := ∅; sent := [] |})) =
      [("dataset", q1); ("dataset", q2)] /\
    path ["aggs"; "publisherName"; "aggs"; "publisherName"; "terms"; "field"] q2 =
      Some (JStr "publisherName.keyword").
Proof.
  pose (q1 := match QueryDocuments.translate plainRuntime Dataset ∅ idsQuery with
              | Ok q => q
              | Panic _ => JNull
              end).
  exists q1.
  destruct (search_heals_terms_aggregation (fielddataBackend "publisherName")
              plainRuntime Dataset idsQuery {| overrides := ∅; sent := [] |}
              "publisherName" q1 400 (errorBody (fielddataReason "publisherName"))
              false)
    as (q2 & Hsent & Hpath).
  - intros key override. cbn [overrides]. by rewrite lookup_empty.
  - vm_compute. reflexivity.
  - discriminate.
  - discriminate.
  - discriminate.
  - reflexivity.
  - reflexivity.
  - right. reflexivity.
  - vm_compute. apply elem_of_cons. by left.
  - exists q2. split; [reflexivity|]. split; [exact Hsent|exact Hpath].
Defined.

(** ** The order of the loop of [flattenAggs] *)

Section FlattenOrder.

Lemma flattenStep_updates (acc : gmap string json) (entry : string * json) :
  flattenStep acc entry =
    foldr (fun kv m => <[fst kv := snd kv]> m) acc (reverse (updates entry)).
Proof.
  destruct entry as [k agg]. unfold flattenStep, updates.
  destruct agg as [| | | | |aggMap]; try done.
  fold (rangeKey k). destruct (rangeKey k).
  - by destruct (aggMap !! "startDate"), (aggMap !! "endDate").
  - by destruct (aggMap !! k).
Qed.

Lemma fold_flattenStep_updates (entries : list (string * json)) : forall acc,
  fold_left flattenStep entries acc =
    foldr (fun kv m => <[fst kv := snd kv]> m) acc (reverse (entries ≫= updates)).
Proof.
  induction entries as [|entry entries IH]; intros acc; [done|].
  cbn [fold_left]. rewrite bind_cons, reverse_app, foldr_app, IH.
  by rewrite flattenStep_updates.
Qed.

Lemma flattenAggs_updates (entries : list (string * json)) :
  flattenAggs entries = list_to_map (reverse (entries ≫= updates)).
Proof. unfold flattenAggs. by rewrite fold_flattenStep_updates. Qed.

(** X24.  The keys of what [flattenAggs] returns: the key of every
    aggregation that is an object, except [dateRange] and
    [publicationDate]; and [startDate] and [endDate], each when some
    object under [dateRange] or [publicationDate] has it.  An aggregation
    that is not an object leaves nothing. *)
Theorem flattenAggs_keys_exactly (entries : list (string * json)) (k : string) :
  is_Some (flattenAggs entries !! k) <->
  (rangeKey k = false /\ exists aggMap, (k, JObj aggMap) ∈ entries) \/
  ((k = "startDate" \/ k = "endDate") /\
   exists k' aggMap,
     rangeKey k' = true /\ (k', JObj aggMap) ∈ entries /\ is_Some (aggMap !! k)).
Proof.
  rewrite flattenAggs_updates.
  rewrite <- not_eq_None_Some, <- not_elem_of_list_to_map.
  rewrite fmap_reverse, elem_of_reverse.
  assert (Hdec : forall P : Prop, Decision P -> (~ ~ P <-> P))
    by (intros P []; tauto).
  rewrite Hdec by apply _.
  rewrite list_elem_of_fmap. split.
  - intros ([k0 v] & -> & Hin). cbn [fst].
    apply list_elem_of_bind in Hin as ([k' agg] & Hup & Hin).
    unfold updates in Hup. destruct agg as [| | | | |aggMap];
      try by apply elem_of_nil in Hup.
    destruct (rangeKey k') eqn:Hr.
    + right. apply elem_of_app in Hup as [Hup|Hup].
      * destruct (aggMap !! "startDate") as [start|] eqn:E;
          [|by apply elem_of_nil in Hup].
        apply list_elem_of_singleton in Hup as [= -> ->].
        split; [by left|]. exists k', aggMap. by rewrite E.
      * destruct (aggMap !! "endDate") as [end_|] eqn:E;
          [|by apply elem_of_nil in Hup].
        apply list_elem_of_singleton in Hup as [= -> ->].
        split; [by right|]. exists k', aggMap. by rewrite E.
    + left. destruct (aggMap !! k') as [nested|];
        apply list_elem_of_singleton in Hup as [= -> ->];
        (split; [done|by exists aggMap]).
  - intros [[Hr [aggMap Hin]]|[Hk (k' & aggMap & Hr & Hin & [v Hv])]].
    + exists (k, default (JObj aggMap) (aggMap !! k)). split; [done|].
      apply list_elem_of_bind. exists (k, JObj aggMap). split; [|done].
      unfold updates. rewrite Hr.
      destruct (aggMap !! k); apply list_elem_of_singleton; done.
    + exists (k, v). split; [done|].
      apply list_elem_of_bind. exists (k', JObj aggMap). split; [|done].
      unfold updates. rewrite Hr. apply elem_of_app.
      destruct Hk as [-> | ->]; rewrite Hv;
        [left|right]; by apply list_elem_of_singleton.
Qed.

(** X25.  When no two aggregations write the same key of the result, the
    order in which the loop of [flattenAggs] visits the map, which Go
    leaves open, does not show in the result. *)
Theorem flattenAggs_order_independent (m : gmap string json)
    (entries entries' : list (string * json)) :
  rangeOrder m entries -> rangeOrder m entries' ->
  NoDup (fst <$> (entries ≫= updates)) ->
  flattenAggs entries = flattenAggs entries'.
Proof.
  unfold rangeOrder. intros Hord Hord' Hnd. rewrite !flattenAggs_updates.
  apply list_to_map_proper.
  - by rewrite fmap_reverse, reverse_Permutation.
  - rewrite !reverse_Permutation. by rewrite Hord, Hord'.
Qed.

Lemma fold_flattenStep_startDate (rest : list (string * json)) : forall acc,
  (forall entry, entry ∈ rest ->
     fst entry <> "startDate" /\ rangeKey (fst entry) = false) ->
  fold_left flattenStep rest acc !! "startDate" = acc !! "startDate".
Proof.
  induction rest as [|[k agg] rest IH]; intros acc Hrest; [done|].
  cbn [fold_left]. rewrite IH.
  - destruct (Hrest (k, agg)) as [Hk Hr]; [apply elem_of_cons; by left|].
    cbn [fst] in *. unfold flattenStep. destruct agg as [| | | | |aggMap]; try done.
    fold (rangeKey k). rewrite Hr.
    by destruct (aggMap !! k); rewrite lookup_insert_ne.
  - intros entry Hin. apply Hrest, elem_of_cons. by right.
Qed.

(** After the last aggregation that writes [startDate], nothing changes
    it. *)
Lemma flattenAggs_last_start (before after : list (string * json)) (k : string)
    (aggMap : gmap string json) (start : json) :
  rangeKey k = true -> aggMap !! "startDate" = Some start ->
  (forall entry, entry ∈ after ->
     fst entry <> "startDate" /\ rangeKey (fst entry) = false) ->
  flattenAggs (before ++ (k, JObj aggMap) :: after) !! "startDate" = Some start.
Proof.
  intros Hk Hstart Hafter. unfold flattenAggs.
  rewrite fold_left_app. cbn [fold_left].
  rewrite fold_flattenStep_startDate by done.
  unfold flattenStep. fold (rangeKey k). rewrite Hk, Hstart.
  destruct (aggMap !! "endDate");
    rewrite ?(lookup_insert_ne _ "endDate") by done; apply lookup_insert_eq.
Qed.

Lemma later_entries_other_keys (m : gmap string json)
    (entries : list (string * json)) (i j : nat) (x y : string * json) :
  rangeOrder m entries -> m !! "startDate" = None ->
  entries !! i = Some x -> entries !! j = Some y -> (i <= j)%nat ->
  forall entry, entry ∈ drop (S j) entries ->
    fst entry <> "startDate" /\ fst entry <> fst x /\ fst entry <> fst y.
Proof.
  intros Hord Hnone Hi Hj Hij entry Hin.
  assert (Hnd : NoDup (fst <$> entries)).
  { unfold rangeOrder in Hord. rewrite Hord. apply NoDup_fst_map_to_list. }
  apply list_elem_of_lookup in Hin as [k Hk]. rewrite lookup_drop in Hk.
  split; [|split].
  - intros Heq. assert (Hm : entry ∈ map_to_list m).
    { unfold rangeOrder in Hord. rewrite <- Hord.
      by eapply list_elem_of_lookup_2. }
    destruct entry as [key v]. apply elem_of_map_to_list in Hm.
    cbn [fst] in Heq. subst key. by rewrite Hnone in Hm.
  - intros Heq.
    assert (S j + k = i)%nat; [|lia].
    eapply (NoDup_lookup (fst <$> entries)); [done| |];
      rewrite list_lookup_fmap; [by rewrite Hk; cbn; rewrite Heq|by rewrite Hi].
  - intros Heq.
    assert (S j + k = j)%nat; [|lia].
    eapply (NoDup_lookup (fst <$> entries)); [done| |];
      rewrite list_lookup_fmap; [by rewrite Hk; cbn; rewrite Heq|by rewrite Hj].
Qed.

(** X26.  When the aggregations hold both [dateRange] and
    [publicationDate], each with a [startDate], the two differ and no
    aggregation is named [startDate], then in every order of the loop the
    [startDate] of the result is the one of whichever of the two is visited
    last; so two orders of the same map give two results. *)
Theorem flattenAggs_depends_on_order (m : gmap string json)
    (ranges dates : gmap string json) (start start' : json) :
  m !! "dateRange" = Some (JObj ranges) ->
  m !! "publicationDate" = Some (JObj dates) ->
  m !! "startDate" = None ->
  ranges !! "startDate" = Some start ->
  dates !! "startDate" = Some start' ->
  start <> start' ->
  (forall entries i j,
     rangeOrder m entries ->
     entries !! i = Some ("dateRange", JObj ranges) ->
     entries !! j = Some ("publicationDate", JObj dates) ->
     flattenAggs entries !! "startDate" =
       Some (if bool_decide (i < j)%nat then start' else start)) /\
  exists entries entries',
    rangeOrder m entries /\ rangeOrder m entries' /\
    flattenAggs entries <> flattenAggs entries'.
Proof.
  intros Hr Hd Hnone Hs Hs' Hne.
  assert (Hevery : forall entries i j,
     rangeOrder m entries ->
     entries !! i = Some ("dateRange", JObj ranges) ->
     entries !! j = Some ("publicationDate", JObj dates) ->
     flattenAggs entries !! "startDate" =
       Some (if bool_decide (i < j)%nat then start' else start)).
  { intros entries i j Hord Hi Hj.
    assert (Hlast : forall a b (x y : string * json),
      entries !! a = Some x -> entries !! b = Some y -> (a <= b)%nat ->
      (fst x = "dateRange" /\ fst y = "publicationDate") \/
      (fst x = "publicationDate" /\ fst y = "dateRange") ->
      forall entry, entry ∈ drop (S b) entries ->
        fst entry <> "startDate" /\ rangeKey (fst entry) = false).
    { intros a b x y Ha Hb Hab Hxy entry Hin.
      destruct (later_entries_other_keys m entries a b x y Hord Hnone Ha Hb Hab
                  entry Hin) as (H1 & H2 & H3).
      split; [done|]. unfold rangeKey. apply orb_false_iff.
      destruct Hxy as [[Hx Hy]|[Hx Hy]]; rewrite Hx in H2; rewrite Hy in H3;
        split; by apply String.eqb_neq. }
    case_bool_decide as Hij.
    - rewrite <- (take_drop_middle entries j _ Hj).
      apply flattenAggs_last_start; [done|done|].
      apply (Hlast i j _ _ Hi Hj); [lia|]. by left.
    - assert (i <> j) by (intros ->; rewrite Hi in Hj; discriminate).
      rewrite <- (take_drop_middle entries i _ Hi).
      apply flattenAggs_last_start; [done|done|].
      apply (Hlast j i _ _ Hj Hi); [lia|]. by right. }
  split; [exact Hevery|].
  set (others := delete "publicationDate" (delete "dateRange" m)).
  assert (Hm : m = <["dateRange" := JObj ranges]>
                     (<["publicationDate" := JObj dates]> others)).
  { unfold others. rewrite insert_delete_id.
    - by rewrite insert_delete_id.
    - by rewrite lookup_delete_ne. }
  assert (Hpd : others !! "publicationDate" = None)
    by (unfold others; apply lookup_delete_eq).
  assert (Hdr : others !! "dateRange" = None)
    by (unfold others; rewrite lookup_delete_ne by done; apply lookup_delete_eq).
  assert (Hord : rangeOrder m
            (("dateRange", JObj ranges) :: ("publicationDate", JObj dates)
               :: map_to_list others)).
  { unfold rangeOrder. rewrite Hm at 1. rewrite map_to_list_insert.
    - by rewrite map_to_list_insert.
    - by rewrite lookup_insert_ne. }
  assert (Hord' : rangeOrder m
            (("publicationDate", JObj dates) :: ("dateRange", JObj ranges)
               :: map_to_list others)).
  { unfold rangeOrder in *. by rewrite <- Hord, perm_swap. }
  eexists _, _. split; [exact Hord|]. split; [exact Hord'|].
  intros Heq.
  pose proof (Hevery _ 0%nat 1%nat Hord eq_refl eq_refl) as H1.
  pose proof (Hevery _ 1%nat 0%nat Hord' eq_refl eq_refl) as H2.
  rewrite bool_decide_true in H1 by lia. rewrite bool_decide_false in H2 by lia.
  rewrite Heq, H2 in H1. congruence.
Qed.

End FlattenOrder.

Lemma flattenAggs_order_independent_witness :
  flattenAggs (map_to_list datasetAggregations) =
    flattenAggs (reverse (map_to_list datasetAggregations)).
Proof.
  apply (flattenAggs_order_independent datasetAggregations).
  - unfold rangeOrder. reflexivity.
  - unfold rangeOrder. apply reverse_Permutation.
  - vm_compute. apply NoDup_ListNoDup.
    repeat (constructor; [cbn [In]; intuition discriminate|]). constructor.
Defined.

Lemma flattenAggs_depends_on_order_witness :
  (forall entries i j,
     rangeOrder twoDateRanges entries ->
     entries !! i = Some ("dateRange", H [("startDate", since "1990")]) ->
     entries !! j = Some ("publicationDate", H [("startDate", since "2001")]) ->
     flattenAggs entries !! "startDate" =
       Some (if bool_decide (i < j)%nat then since "2001" else since "1990")) /\
  exists entries entries',
    rangeOrder twoDateRanges entries /\ rangeOrder twoDateRanges entries' /\
    flattenAggs entries <> flattenAggs entries'.
Proof.
  apply (flattenAggs_depends_on_order twoDateRanges
           (list_to_map [("startDate", since "1990")])
           (list_to_map [("startDate", since "2001")])
           (since "1990") (since "2001")).
  - vm_compute. reflexivity.
  - vm_compute. reflexivity.
  - vm_compute. reflexivity.
  - vm_compute. reflexivity.
  - vm_compute. reflexivity.
  - intros Heq. apply (f_equal (path ["value_as_string"])) in Heq.
    vm_compute in Heq. discriminate.
Defined.

(** ** What the executor returns, and more of the filter listing *)

Section LastAnswer.

Variable backend : Backend.
Variable fmtV : json -> string.

Lemma executeElasticQuery_decoded (index : string) (q : json) (w : World) :
  fst (executeElasticQuery backend index q w) =
    decoded (backend (length (sent w)) index q).
Proof.
  unfold executeElasticQuery, Search, decoded.
  by destruct (backend _ _ _) as [| |? ? []].
Qed.

(** X27.  What [executeSearchWithRetry] returns is what the answer to the
    last request it sent decodes to: after a retry the first answer, with
    its error body, is dropped, also when the second request fails. *)
Theorem executor_returns_last_answer (index : string)
    (buildQuery : gmap string string -> Go json) (w : World)
    (result : SearchResponse * Body) :
  let run := executeSearchWithRetry backend index buildQuery w in
  fst run = Ok result ->
  exists outcome,
    lastOutcome backend (snd run) = Some outcome /\ result = decoded outcome.
Proof.
  cbn zeta. rewrite executeSearchWithRetry_run.
  destruct (buildQuery (overrides w)) as [q1|]; [|done].
  pose proof (executeElasticQuery_world backend index q1 w) as Hw1.
  pose proof (executeElasticQuery_decoded index q1 w) as Hd1.
  destruct (executeElasticQuery backend index q1 w) as [[resp1 body1] w1].
  cbn [fst snd] in Hw1, Hd1. subst w1.
  destruct (_ || _ || _); cbn [fst snd].
  { intros [= <-]. eexists. split; [apply lastOutcome_snoc|done]. }
  unfold withOverrides. cbn [overrides sent].
  destruct (buildQuery _) as [q2|]; [|done].
  match goal with |- context [executeElasticQuery backend index q2 ?w2] =>
    pose proof (executeElasticQuery_world backend index q2 w2) as Hw3;
    pose proof (executeElasticQuery_decoded index q2 w2) as Hd3;
    destruct (executeElasticQuery backend index q2 w2) as [[resp2 body2] w3]
  end.
  cbn [fst snd overrides sent] in Hw3, Hd3. subst w3.
  destruct (_ || _); cbn [fst snd withOverrides sent]; intros [= <-];
    (eexists; split; [apply lastOutcome_snoc|done]).
Qed.

(** X28.  The index [ListFilters] reads the values of a filter from is the
    index the search of that entity type queries, whether the type is
    written as the key of the fan-out, as the name of the filter bucket or
    as the name of the index; a second translation of a type changes
    nothing. *)
Theorem ListFilters_reads_search_index (e : Entity) (filterType : string) :
  indexOf (FanOut.resultKey e) = indexName e /\
  indexOf (bucketName e) = indexName e /\
  indexOf (indexName e) = indexName e /\
  indexOf (indexOf filterType) = indexOf filterType.
Proof.
  split; [by destruct e|]. split; [by destruct e|]. split; [by destruct e|].
  unfold indexOf.
  destruct (String.eqb_spec filterType "dataUseRegister"); [done|].
  destruct (String.eqb_spec filterType "dataProvider"); [done|].
  destruct (String.eqb_spec filterType "paper"); [done|].
  destruct (String.eqb_spec filterType "dataUseRegister"); [done|].
  destruct (String.eqb_spec filterType "dataProvider"); [done|].
  by destruct (String.eqb_spec filterType "paper").
Qed.

(** X29.  A pair of [ListFilters] whose key is [dateRange] or
    [publicationDate] is resolved only when the answer to its last request
    was read, with a status below 400 and with aggregations, and
    [safeAggValue] finds a value for both [startDate] and [endDate]; its
    payload has, under the type and the key, two buckets: the start date,
    then the end date. *)
Theorem ListFilters_date_payload (filter : gmap string json) (w : World)
    (payload : json) :
  let filterType := stringField filter "type" in
  let filterKey := stringField filter "keys" in
  filterKey = "dateRange" \/ filterKey = "publicationDate" ->
  fst (attemptLoop backend fmtV 2 0 filter w) = Some payload ->
  exists StatusCode body startDate endDate,
    lastOutcome backend (snd (attemptLoop backend fmtV 2 0 filter w)) =
      Some (HttpResponse StatusCode body false) /\
    (StatusCode < 400)%Z /\
    size (Aggregations (asResponse body)) <> 0%nat /\
    safeAggValue fmtV (Aggregations (asResponse body)) "startDate" = Some startDate /\
    safeAggValue fmtV (Aggregations (asResponse body)) "endDate" = Some endDate /\
    payload =
      H [(filterType,
          H [(filterKey,
              H [("buckets",
                  JArr [H [("key", JStr "startDate"); ("value", JStr startDate)];
                        H [("key", JStr "endDate"); ("value", JStr endDate)]])])])].
Proof.
  cbn zeta. intros Hkey Hrun.
  destruct (attemptLoop_result backend fmtV filter w) as (outcome & Hlast & Hres).
  rewrite Hrun in Hres.
  destruct outcome as [| |st body rf]; [done|done|].
  destruct (failed (HttpResponse st body rf)) eqn:Hfail; [done|].
  cbn [failed] in Hfail.
  apply orb_false_iff in Hfail as [Hfail Hsize].
  apply orb_false_iff in Hfail as [Hst Hrf]. subst rf.
  unfold filterData in Hres.
  assert (Hd : String.eqb (stringField filter "keys") "dateRange"
               || String.eqb (stringField filter "keys") "publicationDate" = true)
    by (destruct Hkey as [ -> | -> ]; reflexivity).
  rewrite Hd in Hres.
  destruct (safeAggValue fmtV _ "startDate") as [s|] eqn:Hs; [|done].
  destruct (safeAggValue fmtV _ "endDate") as [t|] eqn:Ht; [|done].
  injection Hres as ->.
  exists st, body, s, t. split; [done|].
  split; [by apply Z.leb_gt|]. split; [by apply Nat.eqb_neq|]. done.
Qed.

End LastAnswer.

Lemma executor_returns_last_answer_witness :
  let run := executeSearchWithRetry (fielddataBackend "publisherName") "dataset"
               termsQuery {| overrides := ∅; sent := [] |} in
  exists outcome,
    lastOutcome (fielddataBackend "publisherName") (snd run) = Some outcome /\
    (zeroResponse, errorBody (fielddataReason "publisherName")) = decoded outcome.
Proof.
  cbn zeta.
  apply (executor_returns_last_answer (fielddataBackend "publisherName") "dataset"
           termsQuery {| overrides := ∅; sent := [] |}).
  vm_compute. reflexivity.
Defined.

Lemma ListFilters_date_payload_witness :
  let filter : gmap string json :=
    {[ "type" := JStr "dataset"; "keys" := JStr "dateRange" ]} in
  let payload :=
    dateBuckets "dataset" "dateRange" "1990-01-01T00:00:00.000Z"
      "2020-01-01T00:00:00.000Z" in
  exists StatusCode body startDate endDate,
    lastOutcome datesBackend
      (snd (attemptLoop datesBackend (fun _ => "") 2 0 filter
              {| overrides := ∅; sent := [] |})) =
      Some (HttpResponse StatusCode body false) /\
    (StatusCode < 400)%Z /\
    size (Aggregations (asResponse body)) <> 0%nat /\
    safeAggValue (fun _ => "") (Aggregations (asResponse body)) "startDate" =
      Some startDate /\
    safeAggValue (fun _ => "") (Aggregations (asResponse body)) "endDate" =
      Some endDate /\
    payload = dateBuckets "dataset" "dateRange" startDate endDate.
Proof.
  cbn zeta.
  refine (ListFilters_date_payload datesBackend (fun _ => "")
            {[ "type" := JStr "dataset"; "keys" := JStr "dateRange" ]}
            {| overrides := ∅; sent := [] |} _ _ _).
  - left. reflexivity.
  - vm_compute. reflexivity.
Defined.

(** ** The fan-out handler and its goroutines *)

Section CoordinatorFacts.

Import Coordinator.

Variable backend : Backend.
Variable rt : Runtime.
Variable visit : gmap string json -> list (string * json).
Variable query : Query.

#[local] Abbreviation step := (Coordinator.step backend rt visit query).
#[local] Abbreviation branchStep := (Coordinator.branchStep backend rt visit query).

Lemma resultKey_injective (e e' : Entity) :
  FanOut.resultKey e = FanOut.resultKey e' -> e = e'.
Proof. by destruct e, e'. Qed.

Lemma every_entity (e : Entity) : e ∈ entities.
Proof. unfold entities. destruct e; set_solver. Qed.

Lemma register_grows (o : gmap string string) (field : string) :
  o ⊆ register o field.
Proof.
  unfold register. destruct (o !! field) eqn:E; [done|]. by apply insert_subseteq.
Qed.

(** A step of a goroutine adds requests and table entries, and removes
    none. *)
Lemma branchStep_grows (e : Entity) (b : Branch) (w w' : World) (next : Go Branch) :
  branchStep e b w next w' ->
  overrides w ⊆ overrides w' /\ sent w `prefix_of` sent w'.
Proof.
  destruct 1; try done.
  - rewrite executeElasticQuery_world. cbn [overrides sent].
    split; [done|]. by apply prefix_app_r.
  - cbn [withOverrides overrides sent]. split; [apply register_grows|done].
Qed.

Lemma builtFor_grows (e : Entity) (w w' : World) (elasticQuery : json) :
  overrides w ⊆ overrides w' ->
  builtFor rt query e w elasticQuery -> builtFor rt query e w' elasticQuery.
Proof.
  intros Ho (read & Hread & Hq). exists read. split; [by etrans|done].
Qed.

Lemma fromOwnIndex_grows (e : Entity) (w w' : World)
    (answer : SearchResponse * Body) :
  overrides w ⊆ overrides w' -> sent w `prefix_of` sent w' ->
  fromOwnIndex backend rt query e w answer ->
  fromOwnIndex backend rt query e w' answer.
Proof.
  intros Ho Hsent (n & q & Hq & Hn & ->). exists n, q.
  split; [by eapply builtFor_grows|]. split; [|done].
  by eapply prefix_lookup_Some.
Qed.

Lemma branchOk_grows (e : Entity) (w w' : World) (b : Branch) :
  overrides w ⊆ overrides w' -> sent w `prefix_of` sent w' ->
  branchOk backend rt visit query e w b -> branchOk backend rt visit query e w' b.
Proof.
  intros Ho Hs. destruct b; cbn; try done.
  - intros H. by etrans.
  - by apply builtFor_grows.
  - by apply fromOwnIndex_grows.
  - by apply fromOwnIndex_grows.
  - intros [H1 H2]. split; [by eapply fromOwnIndex_grows|by etrans].
  - intros (a & H1 & H2). exists a. split; [by eapply fromOwnIndex_grows|done].
  - intros (a & H1 & H2). exists a. split; [by eapply fromOwnIndex_grows|done].
Qed.

(** A step of a goroutine leaves it in a state that is sound, and not in
    [Done]. *)
Lemma branchStep_ok (e : Entity) (b next : Branch) (w w' : World) :
  branchOk backend rt visit query e w b ->
  branchStep e b w (Ok next) w' ->
  branchOk backend rt visit query e w' next /\ isDone next = false.
Proof.
  intros Hb Hstep. inversion Hstep; subst; cbn in Hb.
  - split; [cbn; reflexivity|done].
  - destruct (QueryDocuments.translate rt e read query) as [q|] eqn:E; [|done].
    match goal with H : Ok _ = Ok _ |- _ => injection H as <- end.
    split; [|done]. by exists read.
  - rewrite executeElasticQuery_world, executeElasticQuery_decoded.
    unfold afterCall.
    assert (Hown : fromOwnIndex backend rt query e
              {| overrides := overrides w;
                 sent := (sent w ++ [(indexName e, elasticQuery)])%list |}
              (decoded (backend (length (sent w)) (indexName e) elasticQuery))).
    { exists (length (sent w)), elasticQuery. split; [exact Hb|].
      split; [|done]. cbn [sent]. by rewrite lookup_app_r, Nat.sub_diag. }
    by destruct (_ || _).
  - split; [|done]. cbn. eapply fromOwnIndex_grows; [| |exact Hb].
    + apply register_grows.
    + done.
  - unfold afterRecovery. by destruct (_ && _).
  - destruct (hitsPresent answer.1); cbn; [|done]. split; [|done]. by exists answer.
  - destruct (QueryDocuments.translate rt e read query); [|done].
    match goal with H : Ok _ = Ok _ |- _ => injection H as <- end.
    destruct Hb as [Hb _]. split; [|done]. by exists answer.
Qed.

Lemma branchStep_source (e : Entity) (b : Branch) (w w' : World) (next : Go Branch) :
  branchStep e b w next w' -> isDone b = false.
Proof. by destruct 1. Qed.

Lemma start_ok (w : World) : stateOk backend rt visit query (start w).
Proof.
  unfold start, stateOk, poolOk. cbn [world branches received results].
  split; [done|]. split; [by rewrite map_size_empty|].
  split; [done|]. intros k [r Hr]. by rewrite lookup_empty in Hr.
Qed.

Lemma step_ok (s s' : State) :
  stateOk backend rt visit query s -> step s s' -> stateOk backend rt visit query s'.
Proof.
  intros Hs Hstep.
  destruct Hstep as [p e next w' Hb|p e why w' Hb|p e response Hlt He|p Hall];
    [| done | | done].
  - destruct Hs as (Hbr & Hrec & Hdone & Hres).
    destruct (branchStep_grows _ _ _ _ _ Hb) as [Ho Hse].
    destruct (branchStep_ok _ _ _ _ _ (Hbr e) Hb) as [Hnext Hnd].
    pose proof (branchStep_source _ _ _ _ _ Hb) as Hnot.
    split; [|split; [|split]]; cbn [world branches received results].
    + intros e'. destruct (decide (e = e')) as [<-|Hne].
      * by rewrite fn_lookup_insert.
      * rewrite fn_lookup_insert_ne by done. by eapply branchOk_grows.
    + done.
    + intros e' r. destruct (decide (e = e')) as [<-|Hne].
      * rewrite fn_lookup_insert. intros ->. done.
      * rewrite fn_lookup_insert_ne by done. apply Hdone.
    + intros k Hk. destruct (Hres k Hk) as (e' & -> & Hd). exists e'.
      split; [done|]. destruct (decide (e = e')) as [<-|Hne].
      * by rewrite Hd in Hnot.
      * by rewrite fn_lookup_insert_ne.
  - destruct Hs as (Hbr & Hrec & Hdone & Hres).
    assert (Hnone : results p !! FanOut.resultKey e = None).
    { destruct (results p !! FanOut.resultKey e) eqn:E; [|done].
      destruct (Hres (FanOut.resultKey e)) as (e' & Heq & Hd); [by rewrite E|].
      apply resultKey_injective in Heq as <-. by rewrite He in Hd. }
    split; [|split; [|split]]; cbn [world branches received results].
    + intros e'. destruct (decide (e = e')) as [<-|Hne].
      * rewrite fn_lookup_insert. specialize (Hbr e). by rewrite He in Hbr.
      * rewrite fn_lookup_insert_ne by done. apply Hbr.
    + rewrite map_size_insert_None by done. by rewrite Hrec.
    + intros e' r. destruct (decide (e = e')) as [<-|Hne].
      * rewrite fn_lookup_insert. intros [= ->]. apply lookup_insert_eq.
      * rewrite fn_lookup_insert_ne by done. intros Hd.
        rewrite lookup_insert_ne; [by apply Hdone|].
        intros Heq. by apply resultKey_injective in Heq.
    + intros k Hk. apply lookup_insert_is_Some' in Hk as [<-|Hk].
      * exists e. by rewrite fn_lookup_insert.
      * destruct (Hres k Hk) as (e' & -> & Hd). exists e'. split; [done|].
        destruct (decide (e = e')) as [<-|Hne]; [by rewrite fn_lookup_insert|].
        by rewrite fn_lookup_insert_ne.
Qed.

Lemma rtc_ok (s s' : State) :
  stateOk backend rt visit query s -> rtc step s s' -> stateOk backend rt visit query s'.
Proof. intros Hs Hrun. induction Hrun; [done|]. eauto using step_ok. Qed.

End CoordinatorFacts.

Section CoordinatorRuns.

Import Coordinator.

Variable backend : Backend.
Variable rt : Runtime.
Variable visit : gmap string json -> list (string * json).
Variable query : Query.

#[local] Abbreviation step := (Coordinator.step backend rt visit query).
#[local] Abbreviation branchStep := (Coordinator.branchStep backend rt visit query).
#[local] Abbreviation poolOk := (Coordinator.poolOk backend rt visit query).
#[local] Abbreviation advances := (Coordinator.advances backend rt visit query).
#[local] Abbreviation reachesSend := (Coordinator.reachesSend backend rt visit query).

Lemma size_resultKeys : size FanOut.resultKeys = 7%nat.
Proof.
  unfold FanOut.resultKeys. rewrite size_list_to_set; [done|].
  apply NoDup_ListNoDup.
  repeat (constructor; [cbn [In fmap list_fmap entities]; intuition discriminate|]).
  constructor.
Qed.

Lemma resultKey_listed (e : Entity) : FanOut.resultKey e ∈ FanOut.resultKeys.
Proof.
  unfold FanOut.resultKeys. rewrite elem_of_list_to_set, list_elem_of_fmap.
  exists e. split; [done|apply every_entity].
Qed.

Lemma results_listed (p : Pool) : poolOk p -> dom (results p) ⊆ FanOut.resultKeys.
Proof.
  intros (_ & _ & _ & Hres) k Hk. apply elem_of_dom in Hk.
  destruct (Hres k Hk) as (e & -> & _). apply resultKey_listed.
Qed.

(** The counter of the loop tells how many goroutines have been received
    from. *)
Lemma received_all (p : Pool) :
  poolOk p ->
  (received p = 7%nat <-> forall e, isDone (branches p e) = true).
Proof.
  intros Hp. pose proof (results_listed p Hp) as Hsub.
  destruct Hp as (Hbr & Hrec & Hdone & Hres). split.
  - intros H7 e.
    assert (Heq : dom (results p) = FanOut.resultKeys).
    { apply set_subseteq_size_eq; [done|].
      rewrite size_resultKeys, size_dom. lia. }
    assert (Hin : FanOut.resultKey e ∈ dom (results p))
      by (rewrite Heq; apply resultKey_listed).
    apply elem_of_dom in Hin. destruct (Hres _ Hin) as (e' & Hk & Hd).
    by apply resultKey_injective in Hk as <-.
  - intros Hall. rewrite Hrec, <- size_dom, <- size_resultKeys. f_equal.
    apply set_eq. intros k. split; [apply Hsub|].
    unfold FanOut.resultKeys. rewrite elem_of_list_to_set, list_elem_of_fmap.
    intros (e & -> & _). apply elem_of_dom.
    specialize (Hall e). destruct (branches p e) eqn:E; try done.
    rewrite (Hdone e _ E). by eexists.
Qed.

Lemma received_below (p : Pool) (e : Entity) :
  poolOk p -> isDone (branches p e) = false -> (received p < 7)%nat.
Proof.
  intros Hp He. pose proof (results_listed p Hp) as Hsub.
  destruct (decide (received p = 7%nat)) as [H7|H7].
  - pose proof (proj1 (received_all p Hp) H7 e) as Hd. by rewrite Hd in He.
  - destruct Hp as (_ & Hrec & _ & _).
    apply subseteq_size in Hsub. rewrite size_resultKeys, size_dom in Hsub. lia.
Qed.

(** ** A query with well-shaped filters *)

Lemma advances_refl (e : Entity) (p : Pool) : advances e p p.
Proof. by split. Qed.

Lemma advances_trans (e : Entity) (p1 p2 p3 : Pool) :
  advances e p1 p2 -> advances e p2 p3 -> advances e p1 p3.
Proof.
  intros (R1 & O1 & C1 & M1) (R2 & O2 & C2 & M2).
  split; [by etrans|]. split; [|split; congruence].
  intros e' Hne. by rewrite O2, O1.
Qed.

Lemma advances_step (e : Entity) (p : Pool) (next : Branch) (w' : World) :
  branchStep e (branches p e) (world p) (Ok next) w' ->
  advances e p {| world := w'; branches := <[e := next]> (branches p);
                  received := received p; results := results p |}.
Proof.
  intros Hb. split; [apply rtc_once; by constructor|].
  split; [|done]. intros e' Hne. cbn. by rewrite fn_lookup_insert_ne.
Qed.

Lemma advances_ok (e : Entity) (p p' : Pool) :
  poolOk p -> advances e p p' -> poolOk p'.
Proof.
  intros Hp [Hrun _].
  exact (rtc_ok backend rt visit query (Running p) (Running p') Hp Hrun).
Qed.

(** One step, and then whatever the goroutine reaches from there. *)
Lemma reachesSend_step (e : Entity) (p : Pool) (next : Branch) (w' : World) :
  branchStep e (branches p e) (world p) (Ok next) w' ->
  reachesSend e {| world := w'; branches := <[e := next]> (branches p);
                   received := received p; results := results p |} ->
  reachesSend e p.
Proof.
  intros Hb (p' & r & Hadv & Hsend). exists p', r. split; [|done].
  eapply advances_trans; [by apply advances_step|done].
Qed.

Lemma reachesSend_after (e : Entity) (p : Pool) (next : Branch) (w' : World) :
  poolOk p ->
  branchStep e (branches p e) (world p) (Ok next) w' ->
  (forall p', poolOk p' -> branches p' e = next -> reachesSend e p') ->
  reachesSend e p.
Proof.
  intros Hp Hstep Hnext.
  eapply reachesSend_step; [exact Hstep|]. apply Hnext.
  - exact (step_ok backend rt visit query (Running p) _ Hp
             (step_branch _ _ _ _ _ _ _ _ Hstep)).
  - cbn. by rewrite fn_lookup_insert.
Qed.

Section OneBranch.

Variable e : Entity.
Hypothesis translates : forall o, isOk (QueryDocuments.translate rt e o query) = true.

Lemma from_sending (p : Pool) (response : SearchResponse) :
  branches p e = Sending response -> reachesSend e p.
Proof. intros Hb. exists p, response. split; [apply advances_refl|done]. Qed.

Lemma from_logging (p : Pool) (answer : SearchResponse * Body)
    (seen : gmap string string) :
  poolOk p -> branches p e = Logging answer seen -> reachesSend e p.
Proof.
  intros Hp Hb. pose proof Hp as (Hbr & _). specialize (Hbr e).
  rewrite Hb in Hbr. destruct Hbr as [_ Hseen].
  pose proof (end_log backend rt visit query e answer seen (overrides (world p))
                (world p) Hseen (reflexivity _)) as Hstep.
  pose proof (translates (overrides (world p))) as Hok.
  destruct (QueryDocuments.translate rt e (overrides (world p)) query); [|done].
  rewrite <- Hb in Hstep.
  eapply reachesSend_after; [done|exact Hstep|].
  intros p' _. apply from_sending.
Qed.

Lemma from_leaving (p : Pool) (answer : SearchResponse * Body) :
  poolOk p -> branches p e = Leaving answer -> reachesSend e p.
Proof.
  intros Hp Hb.
  pose proof (leave backend rt visit query e answer (world p)) as Hstep.
  rewrite <- Hb in Hstep.
  eapply reachesSend_after; [done|exact Hstep|].
  intros p' Hp'. destruct (hitsPresent answer.1).
  - apply from_sending.
  - by apply from_logging.
Qed.

Section Attempt.

Variable attempt : nat.
Hypothesis continues : forall p answer,
  poolOk p -> branches p e = afterRecovery attempt answer -> reachesSend e p.

Lemma from_recovering (answer : SearchResponse * Body) (fields : list string) :
  forall p, poolOk p -> branches p e = Recovering attempt answer fields ->
  reachesSend e p.
Proof.
  induction fields as [|field fields IH]; intros p Hp Hb.
  - pose proof (end_recovery backend rt visit query e attempt answer (world p))
      as Hstep.
    rewrite <- Hb in Hstep.
    eapply reachesSend_after; [done|exact Hstep|]. intros p'. apply continues.
  - pose proof (register_field backend rt visit query e attempt answer field fields
                  (world p)) as Hstep.
    rewrite <- Hb in Hstep.
    eapply reachesSend_after; [done|exact Hstep|]. exact IH.
Qed.

Lemma from_calling (p : Pool) (elasticQuery : json) :
  poolOk p -> branches p e = Calling attempt elasticQuery -> reachesSend e p.
Proof.
  intros Hp Hb.
  pose proof (call backend rt visit query e attempt elasticQuery (world p)) as Hstep.
  rewrite <- Hb in Hstep.
  eapply reachesSend_after; [done|exact Hstep|].
  intros p' Hp'. unfold afterCall. destruct (_ || _).
  - by apply from_leaving.
  - by apply from_recovering.
Qed.

Lemma from_building (p : Pool) (seen : gmap string string) :
  poolOk p -> branches p e = Building attempt seen -> reachesSend e p.
Proof.
  intros Hp Hb. pose proof Hp as (Hbr & _). specialize (Hbr e).
  rewrite Hb in Hbr. cbn in Hbr.
  pose proof (end_build backend rt visit query e attempt seen (overrides (world p))
                (world p) Hbr (reflexivity _)) as Hstep.
  pose proof (translates (overrides (world p))) as Hok.
  destruct (QueryDocuments.translate rt e (overrides (world p)) query) as [q|];
    [|done].
  rewrite <- Hb in Hstep.
  eapply reachesSend_after; [done|exact Hstep|].
  intros p'. apply from_calling.
Qed.

Lemma from_starting (p : Pool) :
  poolOk p -> branches p e = Starting attempt -> reachesSend e p.
Proof.
  intros Hp Hb.
  pose proof (begin_build backend rt visit query e attempt (world p)) as Hstep.
  rewrite <- Hb in Hstep.
  eapply reachesSend_after; [done|exact Hstep|].
  intros p'. apply from_building.
Qed.

End Attempt.

Lemma continues_late (attempt : nat) (p : Pool) (answer : SearchResponse * Body) :
  poolOk p -> branches p e = afterRecovery (S attempt) answer -> reachesSend e p.
Proof.
  unfold afterRecovery. replace (S (S attempt) <? 2)%nat with false
    by (symmetry; apply Nat.ltb_ge; lia).
  rewrite andb_false_r. apply from_leaving.
Qed.

Lemma continues_any (attempt : nat) (p : Pool) (answer : SearchResponse * Body) :
  poolOk p -> branches p e = afterRecovery attempt answer -> reachesSend e p.
Proof.
  destruct attempt as [|attempt]; [|apply continues_late].
  unfold afterRecovery. destruct (_ && _).
  - apply (from_starting 1). intros p' answer'. apply continues_late.
  - apply from_leaving.
Qed.

(** A goroutine whose filters are well-shaped can always run on until it
    sends. *)
Lemma reaches (p : Pool) :
  poolOk p -> isDone (branches p e) = false -> reachesSend e p.
Proof.
  intros Hp Hd. destruct (branches p e) as [a|a seen|a q|a answer fields|answer
                                            |answer seen|response|response] eqn:Hb;
    [| | | | | | |done].
  - eapply from_starting; [apply continues_any|done|done].
  - eapply from_building; [apply continues_any|done|done].
  - eapply from_calling; [apply continues_any|done|done].
  - eapply from_recovering; [apply continues_any|done|done].
  - by eapply from_leaving.
  - by eapply from_logging.
  - by eapply from_sending.
Qed.

End OneBranch.

End CoordinatorRuns.

Section CoordinatorAnswers.

Import Coordinator.

Variable backend : Backend.
Variable rt : Runtime.
Variable visit : gmap string json -> list (string * json).
Variable query : Query.

#[local] Abbreviation step := (Coordinator.step backend rt visit query).
#[local] Abbreviation branchStep := (Coordinator.branchStep backend rt visit query).
#[local] Abbreviation poolOk := (Coordinator.poolOk backend rt visit query).

Lemma forallb_false {A} (f : A -> bool) (l : list A) :
  forallb f l = false -> exists x, In x l /\ f x = false.
Proof.
  induction l as [|x l IH]; cbn; [done|].
  destruct (f x) eqn:E; cbn.
  - intros H. destruct (IH H) as (y & Hy & Hf). exists y. by split; [right|].
  - intros _. exists x. by split; [left|].
Qed.

Lemma wellShapedQuery_translates (e : Entity) (o : gmap string string) :
  wellShapedQuery query = true ->
  isOk (QueryDocuments.translate rt e o query) = true.
Proof.
  unfold wellShapedQuery. rewrite forallb_forall. intros Hall.
  rewrite translate_isOk. apply Hall, list_elem_of_In, every_entity.
Qed.

(** The handler can receive from every goroutine of a list. *)
Lemma receives_from (l : list Entity) : forall p,
  wellShapedQuery query = true -> poolOk p ->
  exists p',
    rtc step (Running p) (Running p') /\ poolOk p' /\
    (forall e, e ∈ l \/ isDone (branches p e) = true ->
               isDone (branches p' e) = true).
Proof.
  induction l as [|e l IH]; intros p Hq Hp.
  - exists p. split; [done|]. split; [done|].
    intros e [He|He]; [by apply elem_of_nil in He|done].
  - destruct (IH p Hq Hp) as (p1 & Hrun1 & Hp1 & Hdone1).
    destruct (isDone (branches p1 e)) eqn:Hd.
    { exists p1. split; [done|]. split; [done|].
      intros e' [He'|He']; [|by apply Hdone1; right].
      apply elem_of_cons in He' as [->|He']; [done|]. apply Hdone1. by left. }
    destruct (reaches backend rt visit query e
                (fun o => wellShapedQuery_translates e o Hq) p1 Hp1 Hd)
      as (p2 & response & Hadv & Hsend).
    pose proof (advances_ok backend rt visit query e p1 p2 Hp1 Hadv) as Hp2.
    destruct Hadv as (Hrun2 & Hothers & Hrec & Hres).
    assert (Hlt : (received p2 < 7)%nat).
    { apply (received_below backend rt visit query p2 e Hp2). by rewrite Hsend. }
    pose proof (step_select backend rt visit query p2 e response Hlt Hsend) as Hsel.
    eexists. split; [|split].
    + etrans; [exact Hrun1|]. etrans; [exact Hrun2|]. apply rtc_once, Hsel.
    + exact (step_ok backend rt visit query (Running p2) _ Hp2 Hsel).
    + intros e' He'. cbn [branches].
      destruct (decide (e = e')) as [<-|Hne]; [by rewrite fn_lookup_insert|].
      rewrite fn_lookup_insert_ne by done. rewrite Hothers by done.
      apply Hdone1. destruct He' as [He'|He']; [|by right].
      apply elem_of_cons in He' as [->|He']; [done|by left].
Qed.

(** The map the handler answers with. *)
Lemma returned_document (p : Pool) :
  poolOk p -> received p = 7%nat ->
  dom (results p) = FanOut.resultKeys /\
  forall e, exists n read elasticQuery,
    read ⊆ overrides (world p) /\
    QueryDocuments.translate rt e read query = Ok elasticQuery /\
    sent (world p) !! n = Some (indexName e, elasticQuery) /\
    results p !! FanOut.resultKey e =
      Some (normalised visit (fst (decoded (backend n (indexName e) elasticQuery)))).
Proof.
  intros Hp H7. pose proof (proj1 (received_all backend rt visit query p Hp) H7) as Hall.
  pose proof (results_listed backend rt visit query p Hp) as Hsub.
  destruct Hp as (Hbr & Hrec & Hdone & Hres). split.
  - apply set_subseteq_size_eq; [done|]. rewrite size_resultKeys, size_dom. lia.
  - intros e. specialize (Hall e). specialize (Hbr e).
    destruct (branches p e) eqn:E; try done.
    destruct Hbr as (answer & (n & q & (read & Hread & Hq) & Hn & ->) & ->).
    exists n, read, q. split; [done|]. split; [done|]. split; [done|].
    by apply Hdone.
Qed.

Lemma total_insert (f : Branch -> nat) (p : Pool) (e : Entity) (next : Branch)
    (w : World) (n : nat) (r : gmap string SearchResponse) :
  (total f {| world := w; branches := <[e := next]> (branches p);
              received := n; results := r |} + f (branches p e) =
   total f p + f next)%nat.
Proof.
  unfold total, entities. cbn [fmap list_fmap sum_list branches].
  destruct e;
    rewrite fn_lookup_insert; rewrite !fn_lookup_insert_ne by done;
    unfold id; lia.
Qed.

Lemma branchStep_nearer (e : Entity) (b next : Branch) (w w' : World) :
  branchStep e b w (Ok next) w' ->
  (phase next < phase b)%nat \/
  (phase next = phase b /\ unregistered next < unregistered b)%nat.
Proof.
  intros Hstep. inversion Hstep; subst; cbn [phase unregistered length].
  - left. lia.
  - destruct (QueryDocuments.translate rt e read query); [|done].
    match goal with H : Ok _ = Ok _ |- _ => injection H as <- end.
    left. cbn [phase]. lia.
  - left. unfold afterCall. destruct (_ || _); cbn [phase]; lia.
  - right. lia.
  - left. unfold afterRecovery.
    destruct (nonEmpty _); cbn [andb]; [|cbn [phase]; lia].
    destruct (S attempt <? 2)%nat eqn:E; cbn [phase]; [|lia].
    apply Nat.ltb_lt in E. lia.
  - left. destruct (hitsPresent _); cbn [phase]; lia.
  - destruct (QueryDocuments.translate rt e read query); [|done].
    match goal with H : Ok _ = Ok _ |- _ => injection H as <- end.
    left. cbn [phase]. lia.
Qed.

Lemma step_nearer (p p' : Pool) :
  step (Running p) (Running p') -> nearer p' p.
Proof.
  intros Hstep.
  inversion Hstep as [p0 e next w' Hb|p0 e why w' Hb|p0 e response Hlt He|p0 Hall];
    subst; unfold nearer.
  - pose proof (total_insert phase p e next w' (received p) (results p)) as Hp.
    pose proof (total_insert unregistered p e next w' (received p) (results p))
      as Hu.
    destruct (branchStep_nearer _ _ _ _ _ Hb) as [H1|[H1 H2]]; [left|right]; lia.
  - pose proof (total_insert phase p e (Done response) (world p)
                  (S (received p))
                  (<[FanOut.resultKey e := response]> (results p))) as Hp.
    rewrite He in Hp. cbn [phase] in Hp. left. lia.
Qed.

Lemma nearer_wf : well_founded nearer.
Proof.
  assert (Hacc : forall n m p,
            total phase p = n -> total unregistered p = m -> Acc nearer p).
  { induction n as [n IHn] using lt_wf_ind.
    induction m as [m IHm] using lt_wf_ind.
    intros p Hn Hm. constructor. intros p' [Hlt|[Heq Hlt]].
    - eapply (IHn (total phase p')); [lia|done|done].
    - eapply (IHm (total unregistered p')); [lia|congruence|done]. }
  intros p. by eapply Hacc.
Qed.

(** Every run of the process is finite. *)
Lemma step_sn (s : State) : sn step s.
Proof.
  assert (Hend : forall s', (forall p, s' <> Running p) -> sn step s').
  { intros s' Hs'. constructor. intros s'' Hstep. unfold flip in Hstep.
    inversion Hstep; subst; by edestruct Hs'. }
  destruct s as [p| |]; [|by apply Hend|by apply Hend].
  induction (nearer_wf p) as [p _ IH]. constructor. intros s' Hstep.
  unfold flip in Hstep. destruct s' as [p'| |]; [|by apply Hend|by apply Hend].
  apply IH. by apply step_nearer.
Qed.

Lemma notBuilt_kept (e : Entity) (s s' : State) :
  (forall o, isOk (QueryDocuments.translate rt e o query) = false) ->
  (forall p, s = Running p -> notBuilt (branches p e) = true) ->
  step s s' ->
  forall p', s' = Running p' -> notBuilt (branches p' e) = true.
Proof.
  intros Hbad Hs Hstep p' ->.
  inversion Hstep as [p e' next w' Hb|p e' why w' Hb|p e' response Hlt He|p Hall];
    subst; specialize (Hs p eq_refl); cbn [branches].
  - destruct (decide (e' = e)) as [->|Hne]; [|by rewrite fn_lookup_insert_ne].
    rewrite fn_lookup_insert. inversion Hb; subst; try done;
      match goal with H : _ = branches p e |- _ => rewrite <- H in Hs end;
      try done.
    pose proof (Hbad read) as Hr.
    destruct (QueryDocuments.translate rt e read query); done.
  - destruct (decide (e' = e)) as [->|Hne]; [|by rewrite fn_lookup_insert_ne].
    by rewrite He in Hs.
Qed.

Example wellShapedQuery_samples :
  wellShapedQuery idsQuery = true /\
  wellShapedQuery malformedToolQuery = false /\
  wellShapedQuery malformedToolQueryReversed = false.
Proof. repeat split; vm_compute; reflexivity. Qed.


End CoordinatorAnswers.
